(** * habits: the in-memory store of habit.js, embedded and verified

    The development follows habit.js: a small model of the JavaScript
    values the store holds (objects as own-property tables, arrays,
    strings, numbers), the date keys, the store operations
    (addHabit, deleteHabit, renameHabit, toggleCompletion, getHabitState,
    reorderHabits, calculateStreak), the window navigation handlers and
    the export / import codec, each translated from the function of the
    same name.  The theorems come after the definitions. *)

From Stdlib Require Import Ascii String.
From stdpp Require Import base tactics option list strings numbers pretty sorting.

Local Open Scope string_scope.
Local Open Scope list_scope.

(** ** JavaScript values *)

Module JS.

(** Numbers.  The store only ever computes with integers (orders, array
    indices, millisecond time stamps) and with NaN, which arithmetic on a
    non-number produces; fractions and infinities are outside the model.
    [Int z] stands for the double that holds [z]; sums and differences of
    doubles are those of the integers as long as the operands and the
    result are safe integers. *)
Inductive num :=
  | NaN
  | Int (z : Z).

(** Number.isSafeInteger: the integers of magnitude at most 2^53 - 1. *)
Definition safe_integer (z : Z) : Prop :=
  (- 9007199254740991 ≤ z ≤ 9007199254740991)%Z.

(** A value.  An object is the table of its own properties, in insertion
    order; an array is its items together with the table of its named
    (non-index) properties, which JavaScript allows on any array.
    The members an object inherits from Object.prototype are not values
    of the model: reading and writing a property is the engine's for a
    key that is an own property or that names no inherited member
    ([own_name] below); a theorem that depends on it assumes such a
    key. *)
#[local] Unset Elimination Schemes.
Inductive value :=
  | VUndefined
  | VNull
  | VBool (b : bool)
  | VNum (n : num)
  | VStr (s : string)
  | VArr (items : list value) (named : list (string * value))
  | VObj (props : list (string * value)).
#[local] Set Elimination Schemes.

Definition props := list (string * value).

(** What a statement can do besides finishing. *)
Inductive error :=
  | TypeError
  | RangeError
  | SyntaxError
  | Error (msg : string).

Inductive res (A : Type) :=
  | Ok (a : A)
  | Throw (e : error).
Arguments Ok {A} a.
Arguments Throw {A} e.

Definition res_bind {A B} (m : res A) (k : A → res B) : res B :=
  match m with
  | Ok a => k a
  | Throw e => Throw e
  end.

#[global] Instance res_ret : MRet res := @Ok.
#[global] Instance res_mbind : MBind res := λ A B k m, res_bind m k.

(** ToBoolean *)
Definition truthy (v : value) : bool :=
  match v with
  | VUndefined | VNull => false
  | VBool b => b
  | VNum NaN => false
  | VNum (Int z) => negb (Z.eqb z 0)
  | VStr s => negb (String.eqb s "")
  | VArr _ _ | VObj _ => true
  end.

(** The typeof operator. *)
Definition typeof (v : value) : string :=
  match v with
  | VUndefined => "undefined"
  | VNull => "object"
  | VBool _ => "boolean"
  | VNum _ => "number"
  | VStr _ => "string"
  | VArr _ _ | VObj _ => "object"
  end.

Definition isArray (v : value) : bool :=
  match v with
  | VArr _ _ => true
  | _ => false
  end.

(** [a || b] *)
Definition or_else (a b : value) : value := if truthy a then a else b.

(** [v === 'literal'] *)
Definition is_str (v : value) (lit : string) : bool :=
  match v with
  | VStr s => String.eqb s lit
  | _ => false
  end.

(** *** Property tables *)

Fixpoint assoc_get (k : string) (ps : props) : option value :=
  match ps with
  | [] => None
  | (k', v) :: ps' => if String.eqb k k' then Some v else assoc_get k ps'
  end.

(** Assignment keeps the position of an existing key and appends a new one. *)
Fixpoint assoc_set (k : string) (v : value) (ps : props) : props :=
  match ps with
  | [] => [(k, v)]
  | (k', v') :: ps' =>
      if String.eqb k k' then (k, v) :: ps' else (k', v') :: assoc_set k v ps'
  end.

Fixpoint assoc_del (k : string) (ps : props) : props :=
  match ps with
  | [] => []
  | (k', v') :: ps' =>
      if String.eqb k k' then assoc_del k ps' else (k', v') :: assoc_del k ps'
  end.

(** The names under which every object inherits a member from
    Object.prototype, as the language defines it (the page adds nothing
    to it as long as it writes under other names).  Where an object has
    no own property of such a name the engine reads the inherited member
    (a function, or Object.prototype itself for __proto__), and an
    assignment to __proto__ sets the prototype instead of a property. *)
Definition Object_prototype_names : list string :=
  ["constructor"; "__proto__"; "hasOwnProperty"; "isPrototypeOf";
   "propertyIsEnumerable"; "toLocaleString"; "toString"; "valueOf";
   "__defineGetter__"; "__defineSetter__"; "__lookupGetter__"; "__lookupSetter__"].

Definition inherited (k : string) : bool :=
  bool_decide (k ∈ Object_prototype_names).

(** A key that names no inherited member: on an object, the property
    tables below read and write it as the engine does. *)
Definition own_name (k : string) : Prop := inherited k = false.

(** *** Array indices

    A key is an array index when it is the canonical decimal spelling of a
    natural number ("0", "7", "12"; not "07", not "+7"). *)

Definition digit_of (c : ascii) : option nat :=
  let n := nat_of_ascii c in
  if bool_decide (48 ≤ n ≤ 57)%nat then Some (n - 48)%nat else None.

Fixpoint digits_go (acc : nat) (s : string) : option nat :=
  match s with
  | EmptyString => Some acc
  | String c s' =>
      match digit_of c with
      | Some d => digits_go (10 * acc + d)%nat s'
      | None => None
      end
  end.

Definition digits (s : string) : option nat :=
  match s with
  | EmptyString => None
  | _ => digits_go 0%nat s
  end.

Definition array_index (k : string) : option nat :=
  match digits k with
  | Some n => if String.eqb (pretty n) k then Some n else None
  | None => None
  end.

(** The one-character strings of a string, for indexing into it. *)
Fixpoint chars (s : string) : list value :=
  match s with
  | EmptyString => []
  | String c s' => VStr (String c EmptyString) :: chars s'
  end.

Definition of_option (o : option value) : value := default VUndefined o.

Definition length_value {A} (l : list A) : value := VNum (Int (Z.of_nat (length l))).

(** [o[k]]: reading a property.  Reading from undefined or null throws. *)
Definition get (o : value) (k : string) : res value :=
  match o with
  | VUndefined | VNull => Throw TypeError
  | VBool _ | VNum _ => Ok VUndefined
  | VStr s =>
      match array_index k with
      | Some i => Ok (of_option (chars s !! i))
      | None => if String.eqb k "length" then Ok (length_value (chars s)) else Ok VUndefined
      end
  | VArr items named =>
      match array_index k with
      | Some i => Ok (of_option (items !! i))
      | None =>
          if String.eqb k "length" then Ok (length_value items)
          else Ok (of_option (assoc_get k named))
      end
  | VObj ps => Ok (of_option (assoc_get k ps))
  end.

(** [o?.[k]] *)
Definition get_opt (o : value) (k : string) : value :=
  match get o k with
  | Ok v => v
  | Throw _ => VUndefined
  end.

(** ToNumber, on the values the store can hold in a number position:
    exact for undefined, null, booleans, numbers, the empty string and
    canonical decimal strings; every other string and every object is
    taken to NaN (JavaScript also accepts signed, spaced, hexadecimal and
    fractional spellings, and unwraps one-element arrays). *)
Definition to_number (v : value) : num :=
  match v with
  | VUndefined => NaN
  | VNull => Int 0%Z
  | VBool b => Int (if b then 1%Z else 0%Z)
  | VNum n => n
  | VStr s =>
      if String.eqb s "" then Int 0%Z
      else match array_index s with
           | Some n => Int (Z.of_nat n)
           | None => NaN
           end
  | VArr _ _ | VObj _ => NaN
  end.

(** Writing item [i] of an array: in range it replaces the item, past the
    end the array grows and the gap reads as undefined. *)
Definition set_item (items : list value) (i : nat) (v : value) : list value :=
  if bool_decide (i < length items)%nat then <[i:=v]> items
  else items ++ replicate (i - length items) VUndefined ++ [v].

(** Assigning to the length of an array: a new length that is not a
    natural number is a RangeError; otherwise the items are cut or padded. *)
Definition set_length (items : list value) (v : value) : res (list value) :=
  match to_number v with
  | Int z =>
      if bool_decide (0 ≤ z)%Z then
        Ok (take (Z.to_nat z) items ++ replicate (Z.to_nat z - length items) VUndefined)
      else Throw RangeError
  | NaN => Throw RangeError
  end.

(** [o[k] = v], returning the object after the assignment.  The script
    runs in sloppy mode: an assignment to a property of a primitive is
    silently dropped; on undefined and null it throws. *)
Definition set (o : value) (k : string) (v : value) : res value :=
  match o with
  | VUndefined | VNull => Throw TypeError
  | VBool _ | VNum _ | VStr _ => Ok o
  | VArr items named =>
      match array_index k with
      | Some i => Ok (VArr (set_item items i v) named)
      | None =>
          if String.eqb k "length" then
            items' ← set_length items v; Ok (VArr items' named)
          else Ok (VArr items (assoc_set k v named))
      end
  | VObj ps => Ok (VObj (assoc_set k v ps))
  end.

(** [delete o[k]].  Deleting an item of an array leaves a gap; the length
    of an array and the characters of a string cannot be deleted, which
    sloppy mode reports by a false result and no exception. *)
Definition del (o : value) (k : string) : res value :=
  match o with
  | VUndefined | VNull => Throw TypeError
  | VBool _ | VNum _ | VStr _ => Ok o
  | VArr items named =>
      match array_index k with
      | Some i => Ok (VArr (<[i:=VUndefined]> items) named)
      | None =>
          if String.eqb k "length" then Ok o
          else Ok (VArr items (assoc_del k named))
      end
  | VObj ps => Ok (VObj (assoc_del k ps))
  end.

(** Object.entries: the own enumerable properties (index keys first). *)
Definition entries (o : value) : res (list (string * value)) :=
  match o with
  | VUndefined | VNull => Throw TypeError
  | VBool _ | VNum _ => Ok []
  | VStr s => Ok (imap (λ i c, (pretty i, c)) (chars s))
  | VArr items named => Ok (imap (λ i x, (pretty i, x)) items ++ named)
  | VObj ps => Ok ps
  end.

(** Object.keys *)
Definition keys (o : value) : res (list string) :=
  es ← entries o; Ok (es.*1).

(** *** Arithmetic and comparison on numbers *)

Definition sub (a b : num) : num :=
  match a, b with
  | Int x, Int y => Int (x - y)
  | _, _ => NaN
  end.

Definition add (a b : num) : num :=
  match a, b with
  | Int x, Int y => Int (x + y)
  | _, _ => NaN
  end.

(** Math.max of two numbers *)
Definition max (a b : num) : num :=
  match a, b with
  | Int x, Int y => Int (Z.max x y)
  | _, _ => NaN
  end.

(** [Math.round(a / d)] for a positive integer [d]: the quotient rounded to
    the nearest integer, a half rounding up. *)
Definition round_div (a : num) (d : Z) : num :=
  match a with
  | Int x => Int ((2 * x + d) `div` (2 * d))
  | NaN => NaN
  end.

(** [a === z] and [a > z] against an integer literal; both are false on NaN. *)
Definition eq_int (a : num) (z : Z) : bool :=
  match a with
  | Int x => Z.eqb x z
  | NaN => false
  end.

Definition gt_int (a : num) (z : Z) : bool :=
  match a with
  | Int x => Z.ltb z x
  | NaN => false
  end.

(** *** Array.prototype.sort with a comparator

    The sort is stable.  A comparator result above zero puts the first
    argument after the second; NaN counts as zero.  With a comparator that
    is not a consistent order (one that returns NaN on some pairs) the
    language leaves the result to the engine; the insertion sort below is
    then one of the permitted outcomes. *)
Section sort.
Context {A : Type} (cmp : A → A → num).

Definition after (a b : A) : bool := gt_int (cmp a b) 0.

Fixpoint insert (a : A) (l : list A) : list A :=
  match l with
  | [] => [a]
  | b :: l' => if after a b then b :: insert a l' else a :: b :: l'
  end.

Fixpoint sort (l : list A) : list A :=
  match l with
  | [] => []
  | a :: l' => insert a (sort l')
  end.
End sort.

(** *** ToString, as used for a computed property key *)

Fixpoint join (sep : string) (l : list string) : string :=
  match l with
  | [] => ""
  | [s] => s
  | s :: l' => s +:+ sep +:+ join sep l'
  end.

Fixpoint to_string (v : value) : string :=
  match v with
  | VUndefined => "undefined"
  | VNull => "null"
  | VBool b => if b then "true" else "false"
  | VNum NaN => "NaN"
  | VNum (Int z) => pretty z
  | VStr s => s
  | VArr items _ =>
      join "," ((fix go (l : list value) : list string :=
                   match l with
                   | [] => []
                   | VUndefined :: l' => "" :: go l'
                   | VNull :: l' => "" :: go l'
                   | x :: l' => to_string x :: go l'
                   end) items)
  | VObj _ => "[object Object]"
  end.

(** *** JSON

    A text is represented by what JSON.parse makes of it: a syntax error,
    or the value it denotes.  [to_json v] is the value denoted by the text
    JSON.stringify writes for [v]: NaN is written as null, an undefined
    item as null, a property whose value is undefined is left out, and the
    named properties of an array are not written. *)
Inductive text :=
  | Unparsable
  | Denotes (data : value).

Fixpoint to_json (v : value) : value :=
  match v with
  | VNum NaN => VNull
  | VArr items _ =>
      VArr ((fix go (l : list value) : list value :=
               match l with
               | [] => []
               | VUndefined :: l' => VNull :: go l'
               | x :: l' => to_json x :: go l'
               end) items) []
  | VObj ps =>
      VObj ((fix go (l : list (string * value)) : list (string * value) :=
               match l with
               | [] => []
               | (_, VUndefined) :: l' => go l'
               | (k, x) :: l' => (k, to_json x) :: go l'
               end) ps)
  | _ => v
  end.

(** JSON.stringify returns undefined, not a text, for undefined itself. *)
Definition stringify (v : value) : text :=
  match v with
  | VUndefined => Unparsable
  | _ => Denotes (to_json v)
  end.

Definition parse (t : text) : res value :=
  match t with
  | Unparsable => Throw SyntaxError
  | Denotes v => Ok v
  end.

(** String.prototype.trim.  Characters are code units below 256; the white
    space among them is tab, line feed, vertical tab, form feed, carriage
    return, space and no-break space. *)
Definition is_space (c : ascii) : bool :=
  let n := nat_of_ascii c in
  bool_decide (9 ≤ n ≤ 13)%nat || bool_decide (n = 32)%nat || bool_decide (n = 160)%nat.

Fixpoint trim_start (s : string) : string :=
  match s with
  | EmptyString => EmptyString
  | String c s' => if is_space c then trim_start s' else s
  end.

Fixpoint trim_end (s : string) : string :=
  match s with
  | EmptyString => EmptyString
  | String c s' =>
      match trim_end s' with
      | EmptyString => if is_space c then EmptyString else String c EmptyString
      | t => String c t
      end
  end.

Definition trim (s : string) : string := trim_end (trim_start s).

End JS.

(** ** Date keys

    A date key is the string "YYYY-MM-DD" that formatDate writes.
    [new Date(key)] reads such a string as midnight UTC of that calendar
    day; any other string is taken to be an invalid date here (the engine
    accepts more spellings than the store ever writes, and the theorems
    about streaks assume canonical keys). *)

Module DateKey.
Import JS.

Local Open Scope Z_scope.

Definition msPerDay : Z := 86400000.

(** Day number of the first of January of year [y], counted from
    1970-01-01, and the leap year rule of the Gregorian calendar. *)
Definition DayFromYear (y : Z) : Z :=
  365 * (y - 1970) + (y - 1969) `div` 4 - (y - 1901) `div` 100 + (y - 1601) `div` 400.

Definition InLeapYear (y : Z) : bool :=
  (y `mod` 4 =? 0) && (negb (y `mod` 100 =? 0) || (y `mod` 400 =? 0)).

Definition DaysInMonth (y m : Z) : Z :=
  if m =? 2 then (if InLeapYear y then 29 else 28)
  else if (m =? 4) || (m =? 6) || (m =? 9) || (m =? 11) then 30
  else 31.

(** Days of year [y] that come before the first day of month [m] (1..12). *)
Definition DaysBeforeMonth (y m : Z) : Z :=
  let leap := if InLeapYear y then 1 else 0 in
  match m with
  | 1 => 0
  | 2 => 31
  | 3 => 59 + leap
  | 4 => 90 + leap
  | 5 => 120 + leap
  | 6 => 151 + leap
  | 7 => 181 + leap
  | 8 => 212 + leap
  | 9 => 243 + leap
  | 10 => 273 + leap
  | 11 => 304 + leap
  | _ => 334 + leap
  end.

Definition MakeDay (y m d : Z) : Z := DayFromYear y + DaysBeforeMonth y m + (d - 1).

Definition valid_ymd (y m d : Z) : bool :=
  (1 <=? m) && (m <=? 12) && (1 <=? d) && (d <=? DaysInMonth y m).

Definition digit (c : ascii) : option Z :=
  match digit_of c with
  | Some n => Some (Z.of_nat n)
  | None => None
  end.

(** The year, month and day written in a key of the shape dddd-dd-dd. *)
Definition fields (key : string) : option (Z * Z * Z) :=
  match key with
  | String y1 (String y2 (String y3 (String y4 (String s1
      (String m1 (String m2 (String s2
        (String d1 (String d2 EmptyString))))))))) =>
      if Ascii.eqb s1 "-" && Ascii.eqb s2 "-" then
        a ← digit y1; b ← digit y2; c ← digit y3; e ← digit y4;
        f ← digit m1; g ← digit m2;
        h ← digit d1; i ← digit d2;
        Some (1000 * a + 100 * b + 10 * c + e, 10 * f + g, 10 * h + i)
      else None
  | _ => None
  end.

(** The calendar day a key names, as a day number. *)
Definition day_of (key : string) : option Z :=
  match fields key with
  | Some (y, m, d) => if valid_ymd y m d then Some (MakeDay y m d) else None
  | None => None
  end.

(** The time value of [new Date(key)], in milliseconds. *)
Definition time_of (key : string) : num :=
  match day_of key with
  | Some n => Int (n * msPerDay)
  | None => NaN
  end.

(** [Math.round((new Date(later) - new Date(earlier)) / 86400000)] *)
Definition diffDays (later earlier : string) : num :=
  round_div (sub (time_of later) (time_of earlier)) msPerDay.

End DateKey.

(** ** The store (habit.js)

    The module-level variables [habits], [completions] and
    [confirmCallback] make the state.  [habits] is always an array: it
    starts empty, importData checks Array.isArray, and push, filter and
    splice keep it one.  [completions] is whatever value was loaded or
    imported.  Saving to chrome.storage, rendering and toasts do not write
    these variables and are left out. *)

Module Store.
Import JS.

(** The closure handed to showConfirm: the one deleteHabit builds, or the
    one importData builds over the parsed file. *)
Inductive callback :=
  | OnConfirmDelete (habitId : string)
  | OnConfirmImport (data : value).

Record State := mkState {
  habits : list value;
  completions : value;
  confirmCallback : option callback
}.

Definition initial : State :=
  {| habits := []; completions := VObj []; confirmCallback := None |}.

(** A handler runs on the state and either finishes or throws; what it
    wrote before throwing stays written. *)
Definition M (A : Type) : Type := State → res A * State.

Definition ret {A} (a : A) : M A := λ st, (Ok a, st).
Definition bind {A B} (m : M A) (k : A → M B) : M B :=
  λ st, match m st with
        | (Ok a, st') => k a st'
        | (Throw e, st') => (Throw e, st')
        end.
Definition lift {A} (r : res A) : M A := λ st, (r, st).
Definition read_habits : M (list value) := λ st, (Ok (habits st), st).
Definition read_completions : M value := λ st, (Ok (completions st), st).
Definition write_habits (hs : list value) : M unit :=
  λ st, (Ok (), {| habits := hs; completions := completions st;
                   confirmCallback := confirmCallback st |}).
Definition write_completions (c : value) : M unit :=
  λ st, (Ok (), {| habits := habits st; completions := c;
                   confirmCallback := confirmCallback st |}).
Definition write_callback (cb : option callback) : M unit :=
  λ st, (Ok (), {| habits := habits st; completions := completions st;
                   confirmCallback := cb |}).

#[global] Instance M_ret : MRet M := @ret.
#[global] Instance M_bind : MBind M := λ A B k m, bind m k.

(** State after a handler, and whether it finished. *)
Definition exec {A} (m : M A) (st : State) : State := (m st).2.
Definition outcome {A} (m : M A) (st : State) : res A := (m st).1.

(** *** Habit management *)

(** [habits.reduce((max, h) => Math.max(max, h.order || 0), 0)] *)
Fixpoint maxOrder (hs : list value) (acc : num) : res num :=
  match hs with
  | [] => Ok acc
  | h :: hs' =>
      o ← get h "order";
      maxOrder hs' (max acc (to_number (or_else o (VNum (Int 0)))))
  end.

(** addHabit.  [id] stands for generateId() and [createdAt] for
    new Date().toISOString(): both read the clock. *)
Definition addHabit (name id createdAt : string) : M unit :=
  hs ← read_habits;
  m ← lift (maxOrder hs (Int 0));
  let habit := VObj [("id", VStr id); ("name", VStr (trim name));
                     ("order", VNum (add m (Int 1))); ("createdAt", VStr createdAt)] in
  write_habits (hs ++ [habit]);;
  c ← read_completions;
  c' ← lift (set c id (VObj []));
  write_completions c'.

(** The submit handler of the add form: the only caller of addHabit. *)
Definition addHabitForm_submit (input id createdAt : string) : M unit :=
  if truthy (VStr (trim input)) then addHabit input id createdAt else mret ().

(** [h.id === habitId] *)
Definition has_id (habitId : string) (h : value) : res bool :=
  i ← get h "id"; Ok (is_str i habitId).

(** Position of the habit found by [habits.find(h => h.id === habitId)]. *)
Fixpoint find_index (habitId : string) (hs : list value) (i : nat) : res (option nat) :=
  match hs with
  | [] => Ok None
  | h :: hs' =>
      b ← has_id habitId h;
      if (b : bool) then Ok (Some i) else find_index habitId hs' (S i)
  end.

(** [habits.filter(h => h.id !== habitId)] *)
Fixpoint filter_out (habitId : string) (hs : list value) : res (list value) :=
  match hs with
  | [] => Ok []
  | h :: hs' =>
      b ← has_id habitId h;
      rest ← filter_out habitId hs';
      Ok (if (b : bool) then rest else h :: rest)
  end.

Definition showConfirm (cb : callback) : M unit := write_callback (Some cb).
Definition hideConfirm : M unit := write_callback None.

Definition deleteHabit (habitId : string) : M unit :=
  hs ← read_habits;
  found ← lift (find_index habitId hs 0);
  match found with
  | None => mret ()
  | Some _ => showConfirm (OnConfirmDelete habitId)
  end.

Definition renameHabit (habitId newName : string) : M unit :=
  hs ← read_habits;
  found ← lift (find_index habitId hs 0);
  match found with
  | None => mret ()
  | Some i =>
      if negb (truthy (VStr (trim newName))) then mret ()
      else
        habit' ← lift (set (of_option (hs !! i)) "name" (VStr (trim newName)));
        write_habits (<[i:=habit']> hs)
  end.

(** toggleCompletion: empty → done → skipped → empty.  The source mutates
    the record object held under [completions[habitId]]; here the record
    is updated and stored back under the same key. *)
Definition toggleCompletion (habitId dateStr : string) : M unit :=
  c ← read_completions;
  r ← lift (get c habitId);
  (if negb (truthy r) then
     c' ← lift (set c habitId (VObj [])); write_completions c'
   else mret ());;
  c ← read_completions;
  r ← lift (get c habitId);
  currentState ← lift (get r dateStr);
  r' ← lift (if negb (truthy currentState) then set r dateStr (VStr "done")
            else if is_str currentState "done" then set r dateStr (VStr "skipped")
            else del r dateStr);
  c' ← lift (set c habitId r');
  write_completions c'.

(** [completions[habitId]?.[dateStr] || null] *)
Definition getHabitState (st : State) (habitId dateStr : string) : res value :=
  r ← get (completions st) habitId;
  Ok (or_else (get_opt r dateStr) VNull).

(** [habits.forEach((habit, index) => { habit.order = index; })], from
    position [i] on. *)
Fixpoint assign_order (i : nat) (rest : list value) : M unit :=
  match rest with
  | [] => mret ()
  | h :: rest' =>
      h' ← lift (set h "order" (VNum (Int (Z.of_nat i))));
      hs ← read_habits;
      write_habits (<[i:=h']> hs);;
      assign_order (S i) rest'
  end.

(** reorderHabits.  [splice(fromIndex, 1)] removes nothing when the index
    is past the end, and [moved] is then undefined; [splice(toIndex, 0, _)]
    inserts at the end when the index is past it. *)
Definition reorderHabits (fromIndex toIndex : nat) : M unit :=
  hs ← read_habits;
  let moved := of_option (hs !! fromIndex) in
  let hs1 := delete fromIndex hs in
  let hs2 := take toIndex hs1 ++ moved :: drop toIndex hs1 in
  write_habits hs2;;
  assign_order 0 hs2.

(** [[...habits].sort((a, b) => (a.order || 0) - (b.order || 0))], the
    order in which renderHabits lays out the rows; the row indices that the
    drop handler passes to reorderHabits count in this list.  Entries are
    habit objects. *)
Definition order_key (h : value) : num :=
  to_number (or_else (get_opt h "order") (VNum (Int 0))).

Definition sortedHabits (hs : list value) : list value :=
  sort (λ a b, sub (order_key a) (order_key b)) hs.

(** *** Streaks *)

Record streak := mkStreak { current : nat; longest : nat }.

(** The keys whose state is done:
    [Object.entries(habitData).filter(([_, state]) => state === 'done')
       .map(([date, _]) => date)] *)
Definition doneDates (es : list (string * value)) : list string :=
  (filter (λ kv, is_str kv.2 "done" = true) es).*1.

(** The loop that counts the current streak, entered with [prev] the date
    at position [i - 1] and [rest] the dates from position [i] on. *)
Fixpoint count_current (prev : string) (rest : list string) (current : nat) : nat :=
  match rest with
  | [] => current
  | curr :: rest' =>
      if eq_int (DateKey.diffDays prev curr) 1
      then count_current curr rest' (S current)
      else current
  end.

(** The loop that finds the longest streak, over the ascending dates. *)
Fixpoint scan_longest (prev : string) (rest : list string)
    (tempStreak longest : nat) : nat :=
  match rest with
  | [] => longest
  | curr :: rest' =>
      let d := DateKey.diffDays curr prev in
      if eq_int d 1 then
        scan_longest curr rest' (S tempStreak) (Nat.max longest (S tempStreak))
      else if gt_int d 1 then scan_longest curr rest' 1 longest
      else scan_longest curr rest' tempStreak longest
  end.

(** The body of calculateStreak once [habitData] is at hand.  [today] and
    [yesterday] stand for formatDate(new Date()) and
    formatDate(new Date(Date.now() - 86400000)), which read the clock. *)
Definition streak_of (today yesterday : string) (es : list (string * value)) : streak :=
  let dates := doneDates es in
  match dates with
  | [] => {| current := 0; longest := 0 |}
  | _ =>
      let sortedDates :=
        sort (λ a b, sub (DateKey.time_of b) (DateKey.time_of a)) dates in
      let current :=
        match sortedDates with
        | first :: rest =>
            if String.eqb first today || String.eqb first yesterday
            then count_current first rest 1
            else 0%nat
        | [] => 0%nat
        end in
      let sortedAsc :=
        sort (λ a b, sub (DateKey.time_of a) (DateKey.time_of b)) dates in
      let longest :=
        match sortedAsc with
        | first :: rest => scan_longest first rest 1 1
        | [] => 1%nat
        end in
      {| current := current; longest := longest |}
  end.

Definition calculateStreak (today yesterday : string) (st : State)
    (habitId : string) : res streak :=
  r ← get (completions st) habitId;
  es ← entries (or_else r (VObj []));
  Ok (streak_of today yesterday es).

(** *** Loading and the migration of array-based completions *)

(** One turn of the migration loop, for the key [habitId]. *)
Definition migrate_key (c : value) (habitId : string) : value :=
  match get_opt c habitId with
  | VArr oldDates _ =>
      let record :=
        fold_left (λ r date, assoc_set (to_string date) (VStr "done") r) oldDates [] in
      match set c habitId (VObj record) with
      | Ok c' => c'
      | Throw _ => c
      end
  | _ => c
  end.

(** loadData, given what chrome.storage.local.get returned under the two
    keys (undefined when a key is absent; the stored habits are an array). *)
Definition loadData (stored_habits : option (list value)) (stored_completions : value)
    : M unit :=
  write_habits (default [] stored_habits);;
  let c := or_else stored_completions (VObj []) in
  write_completions c;;
  ks ← lift (keys c);
  write_completions (fold_left migrate_key ks c).

(** *** Export and import *)

(** The text exportData writes; [exportedAt] stands for
    new Date().toISOString(). *)
Definition exportData (exportedAt : string) (st : State) : text :=
  stringify (VObj [("version", VNum (Int 1)); ("exportedAt", VStr exportedAt);
                   ("habits", VArr (habits st) []); ("completions", completions st)]).

(** The test importData applies to one entry of [data.habits]. *)
Definition check_habit (habit : value) : res unit :=
  i ← get habit "id";
  if negb (truthy i) || negb (String.eqb (typeof i) "string") then
    Throw (Error "Invalid habit data: each habit must have an id and name")
  else
    n ← get habit "name";
    if negb (truthy n) || negb (String.eqb (typeof n) "string") then
      Throw (Error "Invalid habit data: each habit must have an id and name")
    else Ok ().

Fixpoint check_habits (hs : list value) : res unit :=
  match hs with
  | [] => Ok ()
  | h :: hs' => check_habit h;; check_habits hs'
  end.

(** The items a [for ... of] loop visits. *)
Definition items_of (v : value) : list value :=
  match v with
  | VArr items _ => items
  | _ => []
  end.

(** The statements of importData inside [try], up to showConfirm. *)
Definition validate (t : text) : res value :=
  data ← parse t;
  hs ← get data "habits";
  if negb (truthy hs) || negb (isArray hs) then Throw (Error "Invalid file format")
  else
    check_habits (items_of hs);;
    c ← get data "completions";
    if truthy c && negb (String.eqb (typeof c) "object") then
      Throw (Error "Invalid completions data")
    else Ok data.

Inductive import_outcome :=
  | NoFile
  | ImportFailed
  | ConfirmRequested.

(** importData on the chosen file, if any.  Every exception raised inside
    [try] ends in the catch clause, which only shows a toast. *)
Definition importData (file : option text) : M import_outcome :=
  match file with
  | None => mret NoFile
  | Some t =>
      match validate t with
      | Ok data => showConfirm (OnConfirmImport data);; mret ConfirmRequested
      | Throw _ => mret ImportFailed
      end
  end.

(** *** The confirmation dialog *)

(** The body of the closure that was handed to showConfirm. *)
Definition onConfirm (cb : callback) : M unit :=
  match cb with
  | OnConfirmDelete habitId =>
      hs ← read_habits;
      hs' ← lift (filter_out habitId hs);
      write_habits hs';;
      c ← read_completions;
      c' ← lift (del c habitId);
      write_completions c'
  | OnConfirmImport data =>
      hs ← lift (get data "habits");
      write_habits (items_of hs);;
      c ← lift (get data "completions");
      write_completions (or_else c (VObj []))
  end.

(** The click handler of the OK button:
    [hideConfirm(); if (confirmCallback) confirmCallback();]
    where hideConfirm assigns null to confirmCallback. *)
Definition confirmOk_click : M unit :=
  hideConfirm;;
  st ← (λ st, (Ok st, st)) : M State;
  match confirmCallback st with
  | Some cb => onConfirm cb
  | None => mret ()
  end.

Definition confirmCancel_click : M unit := hideConfirm.

End Store.

(** ** The window navigator

    [viewEndDate] is a Date, here its time value in milliseconds.  Local
    time is taken to be UTC shifted by a fixed [tz] milliseconds, so that
    [setDate(getDate() + n)] moves the time value by [n] whole days and
    [setHours(0, 0, 0, 0)] rounds it down to local midnight.  [now] is what
    [new Date()] returns when the handler runs. *)

Module Nav.

Local Open Scope Z_scope.

Section nav.
Variable tz : Z.

(** [d.setHours(0, 0, 0, 0)] *)
Definition startOfDay (t : Z) : Z :=
  ((t + tz) `div` DateKey.msPerDay) * DateKey.msPerDay - tz.

(** [d.setDate(d.getDate() + n)] *)
Definition addDays (t n : Z) : Z := t + n * DateKey.msPerDay.

(** The local calendar day of a time value, as a day number: the day
    formatDate prints. *)
Definition localDay (t : Z) : Z := (t + tz) `div` DateKey.msPerDay.

(** [let viewEndDate = new Date()] at load *)
Definition init (now : Z) : Z := now.

Definition prevWeek_click (viewEndDate : Z) : Z := addDays viewEndDate (-14).

Definition nextWeek_click (now viewEndDate : Z) : Z :=
  let today := startOfDay now in
  let proposedEnd := addDays viewEndDate 14 in
  if proposedEnd <=? today then proposedEnd else today.

Definition todayBtn_click (now : Z) : Z := now.

Inductive click :=
  | PrevWeek
  | NextWeek
  | TodayBtn.

Definition step (now : Z) (c : click) (viewEndDate : Z) : Z :=
  match c with
  | PrevWeek => prevWeek_click viewEndDate
  | NextWeek => nextWeek_click now viewEndDate
  | TodayBtn => todayBtn_click now
  end.

(** A session: the clicks in the order they happen, each with the clock
    reading at that moment. *)
Fixpoint run (viewEndDate : Z) (session : list (Z * click)) : Z :=
  match session with
  | [] => viewEndDate
  | (now, c) :: rest => run (step now c viewEndDate) rest
  end.

(** The clock never runs backward: the readings of a session that starts
    at [t] are in non-decreasing order from [t] on. *)
Fixpoint clock_ok (t : Z) (session : list (Z * click)) : Prop :=
  match session with
  | [] => True
  | (now, _) :: rest => t ≤ now ∧ clock_ok now rest
  end.

(** The clock reading at the end of a session that started at [t]. *)
Fixpoint clock_at_end (t : Z) (session : list (Z * click)) : Z :=
  match session with
  | [] => t
  | (now, _) :: rest => clock_at_end now rest
  end.
End nav.

End Nav.

(** ** Notions used in the statements

    Predicates on states and values, the conditions of the specification
    written out, and the concrete states and files of the examples. *)

Module Notions.
Import JS Store.

(** *** States *)

Definition with_completions (st : State) (c : value) : State :=
  {| habits := habits st; completions := c; confirmCallback := confirmCallback st |}.

Definition with_habits (st : State) (hs : list value) : State :=
  {| habits := hs; completions := completions st; confirmCallback := confirmCallback st |}.

Definition is_object (h : value) : Prop := ∃ ps, h = VObj ps.

(** Some habit of the list carries the id. *)
Definition known (st : State) (id : string) : Prop :=
  ∃ h, h ∈ habits st ∧ get h "id" = Ok (VStr id).

(** [h.id], undefined where there is none. *)
Definition id_of (h : value) : value := get_opt h "id".

(** *** Cells of the completion map *)

(** In the completion map [m] the record of habit [id] is missing or is
    an object. *)
Definition object_or_absent (m : props) (id : string) : Prop :=
  assoc_get id m = None ∨ ∃ ps, assoc_get id m = Some (VObj ps).

(** The record of habit [id], empty when there is none. *)
Definition record_of (m : props) (id : string) : props :=
  match assoc_get id m with
  | Some (VObj ps) => ps
  | _ => []
  end.

(** What one toggle of date [d] makes of a record. *)
Definition toggle_record (ps : props) (d : string) : props :=
  let cur := of_option (assoc_get d ps) in
  if negb (truthy cur) then assoc_set d (VStr "done") ps
  else if is_str cur "done" then assoc_set d (VStr "skipped") ps
  else assoc_del d ps.

(** The record held for [id] is an object that has no own property [d]. *)
Definition key_absent (st : State) (id d : string) : Prop :=
  ∃ ps, get (completions st) id = Ok (VObj ps) ∧ d ∉ ps.*1.

(** *** The invariant of the completion map *)

Definition state_value_ok (v : value) : Prop := v = VStr "done" ∨ v = VStr "skipped".

(** A record: an object whose every date key holds done or skipped. *)
Definition record_ok (r : value) : Prop :=
  ∃ ps, r = VObj ps ∧ Forall (λ kv, state_value_ok kv.2) ps.

(** A completion map: an object whose every entry is a record. *)
Definition completions_ok (c : value) : Prop :=
  ∃ m, c = VObj m ∧ Forall (λ kv, record_ok kv.2) m.

(** The invariant in the words of the specification, on a value of any
    shape: whatever a date key of whatever record holds is done or
    skipped. *)
Definition only_done_or_skipped (c : value) : Prop :=
  ∀ es id r rs d v,
    entries c = Ok es → (id, r) ∈ es → entries r = Ok rs → (d, v) ∈ rs →
    state_value_ok v.

(** What storage may hold before the migration: nothing, or an object with
    one entry per habit id, each a record or an array of dates. *)
Definition stored_ok (c : value) : Prop :=
  c = VUndefined ∨
  ∃ m, c = VObj m ∧ NoDup m.*1 ∧ Forall (λ kv, record_ok kv.2 ∨ isArray kv.2 = true) m.

(** What the migration makes of one record. *)
Definition migrate_record (r : value) : value :=
  match r with
  | VArr oldDates _ =>
      VObj (fold_left (λ r date, assoc_set (to_string date) (VStr "done") r) oldDates [])
  | _ => r
  end.

(** [f] applied to the value held under key [k]. *)
Definition map_at (k : string) (f : value → value) (m : props) : props :=
  (λ kv, if String.eqb k kv.1 then (kv.1, f kv.2) else kv) <$> m.

(** *** Import *)

(** Reading property [k] of [o] gives a string that is not empty. *)
Definition nonempty_string_at (o : value) (k : string) : Prop :=
  ∃ s, get o k = Ok (VStr s) ∧ s ≠ "".











(** *** Export followed by import *)

(** A value that JSON can write and read back: no undefined, no NaN, no
    named property on an array. *)
Fixpoint plain (v : value) : bool :=
  match v with
  | VUndefined => false
  | VNum NaN => false
  | VArr items named =>
      forallb plain items && match named with [] => true | _ :: _ => false end
  | VObj ps =>
      (fix go (l : list (string * value)) : bool :=
         match l with
         | [] => true
         | (_, x) :: l' => plain x && go l'
         end) ps
  | _ => true
  end.

Definition valid_habit (h : value) : Prop :=
  nonempty_string_at h "id" ∧ nonempty_string_at h "name".

Definition object_like (v : value) : bool :=
  match v with
  | VArr _ _ | VObj _ => true
  | _ => false
  end.

(** The states the data model describes: every habit is plain data with a
    non-empty string id and name, and the completion map is a plain
    object. *)
Definition exportable (st : State) : Prop :=
  Forall (λ h, valid_habit h ∧ plain h = true) (habits st) ∧
  object_like (completions st) = true ∧
  plain (completions st) = true.

(** *** Reordering *)

(** [habit.order = i] on one habit. *)
Definition with_order (i : nat) (h : value) : value :=
  match set h "order" (VNum (Int (Z.of_nat i))) with
  | Ok h' => h'
  | Throw _ => h
  end.

(** The list after the two splices: the entry at [fromIndex] taken out and
    put back at [toIndex]. *)
Definition moved (hs : list value) (fromIndex toIndex : nat) : list value :=
  take toIndex (delete fromIndex hs)
    ++ of_option (hs !! fromIndex) :: drop toIndex (delete fromIndex hs).

(** Reorder as the specification words it: the move is made in the list
    as sorted by the order field, and every habit then gets its position
    as order. *)
Definition reorder_spec (hs : list value) (fromIndex toIndex : nat) : list value :=
  imap with_order (moved (sortedHabits hs) fromIndex toIndex).

(** *** Streaks, in terms of calendar days *)

(** A key that names a calendar day. *)
Definition canonical (key : string) : Prop := is_Some (DateKey.day_of key).

Definition day_number (key : string) : Z := default 0%Z (DateKey.day_of key).

(** The per-date record of a habit as the data model has it: one entry
    per key, and every key whose state is done is a date key. *)
Definition well_keyed (es : list (string * value)) : Prop :=
  NoDup es.*1 ∧ Forall canonical (doneDates es).

(** Day [d] is a day with state done. *)
Definition done_on (es : list (string * value)) (d : Z) : Prop :=
  ∃ key, key ∈ doneDates es ∧ DateKey.day_of key = Some d.

(** The [n] calendar days that end with day [d] are all done. *)
Definition run_back_to (es : list (string * value)) (d : Z) (n : nat) : Prop :=
  ∀ i : nat, (i < n)%nat → done_on es (d - Z.of_nat i).

(** [key], naming day [d], is the most recent done date. *)
Definition most_recent (es : list (string * value)) (key : string) (d : Z) : Prop :=
  key ∈ doneDates es ∧ DateKey.day_of key = Some d ∧
  ∀ d', done_on es d' → (d' ≤ d)%Z.

(** The comparators calculateStreak sorts with. *)
Definition newest_first (a b : string) : num :=
  sub (DateKey.time_of b) (DateKey.time_of a).

Definition oldest_first (a b : string) : num :=
  sub (DateKey.time_of a) (DateKey.time_of b).

(** *** Navigation *)

(** A run of clicks on the next button, each at the clock reading given. *)
Definition pageForward_repeatedly (tz : Z) (readings : list Z) (viewEndDate : Z) : Z :=
  fold_left (λ v now, Nav.nextWeek_click tz now v) readings viewEndDate.

(** *** The states the handlers build *)

(** The order a habit is sorted by, when its order field is an integer. *)
Definition order_of (h : value) : Z :=
  match order_key h with
  | Int z => z
  | NaN => 0%Z
  end.

(** A habit as addHabit builds it and renameHabit and reorderHabits keep
    it: an object of plain data with a non-empty string id and name and an
    integer order. *)
Definition habit_wf (h : value) : Prop :=
  is_object h ∧ plain h = true ∧ valid_habit h ∧
  ∃ z, get h "order" = Ok (VNum (Int z)).

(** The store as the handlers keep it: well-formed habits, in ascending
    order of their order field, and a completion map of records holding
    done and skipped. *)
Definition store_wf (st : State) : Prop :=
  Forall habit_wf (habits st) ∧
  StronglySorted (λ a b, (order_of a < order_of b)%Z) (habits st) ∧
  completions_ok (completions st).

(** What the page can do to the store.  [id] and [createdAt] of a
    submission stand for generateId() and the clock; generateId never
    returns the empty string.  The indices of a drop are row indices. *)
Inductive action :=
  | Submit (input id createdAt : string)
  | Rename (habitId newName : string)
  | Toggle (habitId dateStr : string)
  | Drop (fromIndex toIndex : nat)
  | AskDelete (habitId : string)
  | Import (file : option text)
  | ConfirmOk
  | ConfirmCancel.

Definition handler (a : action) : M unit :=
  match a with
  | Submit input id createdAt => addHabitForm_submit input id createdAt
  | Rename habitId newName => renameHabit habitId newName
  | Toggle habitId dateStr => toggleCompletion habitId dateStr
  | Drop fromIndex toIndex => reorderHabits fromIndex toIndex
  | AskDelete habitId => deleteHabit habitId
  | Import file => importData file ≫= λ _, mret ()
  | ConfirmOk => confirmOk_click
  | ConfirmCancel => confirmCancel_click
  end.

(** The actions the page can produce in state [st]. *)
Definition possible (st : State) (a : action) : Prop :=
  match a with
  | Submit _ id _ => id ≠ ""
  | Drop fromIndex toIndex =>
      (fromIndex < length (habits st))%nat ∧ (toIndex < length (habits st))%nat
  | _ => True
  end.

(** The states of a session that starts with the empty store. *)
Inductive reachable : State → Prop :=
  | reachable_initial : reachable initial
  | reachable_step st a :
      reachable st → possible st a → reachable (exec (handler a) st).

(** *** States and files of the examples *)

(** One habit with one done cell. *)
Definition st_one_cell : State :=
  {| habits := [VObj [("id", VStr "h1"); ("name", VStr "Read")]];
     completions := VObj [("h1", VObj [("2024-03-01", VStr "done")])];
     confirmCallback := None |}.

(** One habit with a done and a skipped cell. *)
Definition st_two_cells : State :=
  {| habits := [VObj [("id", VStr "h1"); ("name", VStr "Read")]];
     completions := VObj [("h1", VObj [("2024-03-01", VStr "done");
                                       ("2024-03-02", VStr "skipped")])];
     confirmCallback := None |}.

(** One habit, done on 10 March 2024 and on no other day. *)
Definition record_march_10 : list (string * value) :=
  [("2024-03-10", VStr "done")].

Definition st_march_10 : State :=
  {| habits := [VObj [("id", VStr "h1"); ("name", VStr "Read")]];
     completions := VObj [("h1", VObj record_march_10)];
     confirmCallback := None |}.

(** The completion map of the example in the specification. *)
Definition example_record : list (string * value) :=
  [("2024-01-01", VStr "done"); ("2024-01-02", VStr "done");
   ("2024-01-03", VStr "skipped"); ("2024-01-04", VStr "done")].

Definition st_example : State :=
  {| habits := [VObj [("id", VStr "h1"); ("name", VStr "Read")]];
     completions := VObj [("h1", VObj example_record)];
     confirmCallback := None |}.

Definition habit_a (order : Z) : value :=
  VObj [("id", VStr "a"); ("name", VStr "Run"); ("order", VNum (Int order))].

Definition habit_b (order : Z) : value :=
  VObj [("id", VStr "b"); ("name", VStr "Read"); ("order", VNum (Int order))].

(** A habit list whose array order is not its order by the order field. *)
Definition st_unsorted : State :=
  {| habits := [habit_a 5; habit_b 1]; completions := VObj [];
     confirmCallback := None |}.



(** A file that passes the checks of importData and holds a state other
    than done and skipped. *)
Definition data_other_state : value :=
  VObj [("habits", VArr [VObj [("id", VStr "h1"); ("name", VStr "Read")]] []);
        ("completions", VObj [("h1", VObj [("2024-01-01", VStr "maybe")])])].

(** A session of three clicks, with UTC as local time. *)
Definition session_three_clicks : list (Z * Nav.click) :=
  [(1717243200000%Z, Nav.NextWeek); (1717250000000%Z, Nav.PrevWeek);
   (1717336800000%Z, Nav.NextWeek)].

End Notions.

(** ** Calendar dates (formatDate)

    The getters of a Date read its local time: getFullYear, getMonth and
    getDate are YearFromTime, MonthFromTime and DateFromTime of the
    language definition, applied to the local day of the time value. *)

Module Calendar.
Import JS.

Local Open Scope Z_scope.

(** YearFromTime, on a day number: the year [y] with
    [DayFromYear y ≤ day < DayFromYear (y + 1)].  The estimate taken from
    the mean length of a year is off by at most one. *)
Definition YearFromDay (day : Z) : Z :=
  let y := 1970 + (400 * day) `div` 146097 in
  if day <? DateKey.DayFromYear y then y - 1
  else if DateKey.DayFromYear (y + 1) <=? day then y + 1
  else y.

Definition DayWithinYear (day : Z) : Z :=
  day - DateKey.DayFromYear (YearFromDay day).

(** MonthFromTime: 0 for January to 11 for December. *)
Definition MonthFromDay (day : Z) : Z :=
  let w := DayWithinYear day in
  let leap := if DateKey.InLeapYear (YearFromDay day) then 1 else 0 in
  if w <? 31 then 0
  else if w <? 59 + leap then 1
  else if w <? 90 + leap then 2
  else if w <? 120 + leap then 3
  else if w <? 151 + leap then 4
  else if w <? 181 + leap then 5
  else if w <? 212 + leap then 6
  else if w <? 243 + leap then 7
  else if w <? 273 + leap then 8
  else if w <? 304 + leap then 9
  else if w <? 334 + leap then 10
  else 11.

(** DateFromTime: the day of the month, from 1. *)
Definition DateFromDay (day : Z) : Z :=
  let w := DayWithinYear day in
  let leap := if DateKey.InLeapYear (YearFromDay day) then 1 else 0 in
  match MonthFromDay day with
  | 0 => w + 1
  | 1 => w - 30
  | 2 => w - 58 - leap
  | 3 => w - 89 - leap
  | 4 => w - 119 - leap
  | 5 => w - 150 - leap
  | 6 => w - 180 - leap
  | 7 => w - 211 - leap
  | 8 => w - 242 - leap
  | 9 => w - 272 - leap
  | 10 => w - 303 - leap
  | _ => w - 333 - leap
  end.

Fixpoint repeat_char (n : nat) (c : ascii) : string :=
  match n with
  | O => EmptyString
  | S n' => String c (repeat_char n' c)
  end.

(** [s.padStart(n, c)] with a one-character filler. *)
Definition padStart (n : nat) (c : ascii) (s : string) : string :=
  repeat_char (n - String.length s) c +:+ s.

Section local_time.
Variable tz : Z.

Definition getFullYear (t : Z) : Z := YearFromDay (Nav.localDay tz t).
Definition getMonth (t : Z) : Z := MonthFromDay (Nav.localDay tz t).
Definition getDate (t : Z) : Z := DateFromDay (Nav.localDay tz t).

(** formatDate *)
Definition formatDate (date : Z) : string :=
  let year := getFullYear date in
  let month := padStart 2 "0" (pretty (getMonth date + 1)) in
  let day := padStart 2 "0" (pretty (getDate date)) in
  pretty year +:+ "-" +:+ month +:+ "-" +:+ day.

End local_time.

(** The clock of calculateStreak.  [zone t] is the offset of local time
    from UTC, in milliseconds, that is in effect at the time value [t]:
    the getters of [new Date(t)] read [t + zone t].  The offset of a zone
    with daylight saving changes twice a year. *)
Section clock.
Variable zone : Z → Z.

(** [formatDate(new Date(t))] *)
Definition localKey (t : Z) : string := formatDate (zone t) t.

(** The two keys calculateStreak compares the newest done date with:
    [formatDate(new Date())], where the clock reads [now], and
    [formatDate(new Date(Date.now() - 86400000))], where it reads [now']. *)
Definition todayKey (now : Z) : string := localKey now.
Definition yesterdayKey (now' : Z) : string := localKey (now' - 86400000).

(** calculateStreak as the page calls it, reading the clock twice. *)
Definition calculateStreak_at (now now' : Z) (st : Store.State) (habitId : string)
    : res Store.streak :=
  Store.calculateStreak (todayKey now) (yesterdayKey now') st habitId.
End clock.

(** Local time in New York in 2024: five hours behind UTC, and four from
    10 March, 07:00 UTC, until 3 November, 06:00 UTC. *)
Definition new_york_2024 (t : Z) : Z :=
  if (1710054000000 <=? t) && (t <? 1730613600000) then -14400000 else -18000000.

(** The times whose local year has four digits: their key has the shape
    dddd-dd-dd. *)
Definition four_digit_year (tz t : Z) : Prop :=
  1000 ≤ getFullYear tz t ≤ 9999.

(** The number a string of four, or of two, decimal digits spells. *)
Definition four_digits (s : string) : option Z :=
  match s with
  | String a (String b (String c (String e EmptyString))) =>
      a' ← DateKey.digit a; b' ← DateKey.digit b;
      c' ← DateKey.digit c; e' ← DateKey.digit e;
      Some (1000 * a' + 100 * b' + 10 * c' + e')
  | _ => None
  end.

Definition two_digits (s : string) : option Z :=
  match s with
  | String a (String b EmptyString) =>
      a' ← DateKey.digit a; b' ← DateKey.digit b; Some (10 * a' + b')
  | _ => None
  end.

End Calendar.

(** ** The 14-day window (getDisplayDates, renderDayHeaders,
    updateDateRangeLabel) *)

Module View.
Import JS Calendar.

Local Open Scope Z_scope.

Definition DAYS_TO_SHOW : nat := 14.

Section view.
Variable tz : Z.

(** The loop of getDisplayDates, from [i = n - 1] down to 0: a copy of
    viewEndDate moved back [i] days and set to local midnight. *)
Fixpoint dates_from (viewEndDate : Z) (n : nat) : list Z :=
  match n with
  | O => []
  | S i =>
      Nav.startOfDay tz (Nav.addDays viewEndDate (- Z.of_nat i))
        :: dates_from viewEndDate i
  end.

Definition getDisplayDates (viewEndDate : Z) : list Z :=
  dates_from viewEndDate DAYS_TO_SHOW.

(** The keys the cells of a row carry in [data-date], in column order. *)
Definition cellKeys (viewEndDate : Z) : list string :=
  formatDate tz <$> getDisplayDates viewEndDate.

(** renderDayHeaders: for each column its date and whether it gets the
    class is-today. *)
Definition dayHeaders (now viewEndDate : Z) : list (Z * bool) :=
  (λ date, (date, String.eqb (formatDate tz date) (formatDate tz now)))
    <$> getDisplayDates viewEndDate.

(** [toLocaleDateString('en-US', { month: 'short' })] *)
Definition monthShort (date : Z) : string :=
  match getMonth tz date with
  | 0 => "Jan" | 1 => "Feb" | 2 => "Mar" | 3 => "Apr"
  | 4 => "May" | 5 => "Jun" | 6 => "Jul" | 7 => "Aug"
  | 8 => "Sep" | 9 => "Oct" | 10 => "Nov" | _ => "Dec"
  end.

(** updateDateRangeLabel: the text it puts in the label. *)
Definition updateDateRangeLabel (now viewEndDate : Z) : string :=
  let today := Nav.startOfDay tz now in
  let viewEnd := Nav.startOfDay tz viewEndDate in
  if viewEnd =? today then "Last 14 Days"
  else
    let dates := getDisplayDates viewEndDate in
    let startDate := default viewEndDate (head dates) in
    let endDate := default viewEndDate (last dates) in
    let startMonth := monthShort startDate in
    let endMonth := monthShort endDate in
    if String.eqb startMonth endMonth then
      startMonth +:+ " " +:+ pretty (getDate tz startDate) +:+ " - "
        +:+ pretty (getDate tz endDate)
    else
      startMonth +:+ " " +:+ pretty (getDate tz startDate) +:+ " - "
        +:+ endMonth +:+ " " +:+ pretty (getDate tz endDate).
End view.

End View.

(** ** The handlers of the habit list (setupEventListeners) *)

Module Handlers.
Import JS Store Notions.

(** saveEdit, the handler the inline editor of a habit name runs on blur.
    [currentName] is the text the name showed when the editor opened and
    [input] the value of the input field.  Pressing Escape writes
    [currentName] back into the field before the blur. *)
Definition saveEdit (habitId currentName input : string) : M unit :=
  let newName := trim input in
  if truthy (VStr newName) && negb (String.eqb newName currentName)
  then renameHabit habitId newName
  else mret ().

(** A string that does not start with white space. *)
Definition starts_black (s : string) : Prop :=
  match s with
  | EmptyString => True
  | String c _ => is_space c = false
  end.

(** [habit.name = n] on one habit. *)
Definition with_name (n : string) (h : value) : value :=
  match set h "name" (VStr n) with
  | Ok h' => h'
  | Throw _ => h
  end.

(** [h] is the first habit of the list with the id, at position [i]:
    the one [habits.find(h => h.id === habitId)] returns. *)
Definition first_with_id (hs : list value) (habitId : string) (i : nat) (h : value)
    : Prop :=
  hs !! i = Some h ∧ get_opt h "id" = VStr habitId ∧
  ∀ j h', (j < i)%nat → hs !! j = Some h' → get_opt h' "id" ≠ VStr habitId.

(** No habit of the list has the id. *)
Definition no_habit_with_id (hs : list value) (habitId : string) : Prop :=
  ∀ h, h ∈ hs → get_opt h "id" ≠ VStr habitId.

(** A habit object whose order, read as renderHabits and addHabit read it
    ([h.order || 0]), is an integer. *)
Definition numbered (h : value) : Prop :=
  is_object h ∧ ∃ z, order_key h = Int z.

(** A numbered habit whose order is a safe integer, so that the order
    addHabit computes from it is exact. *)
Definition safely_numbered (h : value) : Prop :=
  is_object h ∧ ∃ z, order_key h = Int z ∧ safe_integer z.

(** The habit addHabit builds. *)
Definition new_habit (name id createdAt : string) (order : Z) : value :=
  VObj [("id", VStr id); ("name", VStr (trim name));
        ("order", VNum (Int order)); ("createdAt", VStr createdAt)].


(** The completion map after the migration: every record that was an
    array of dates replaced by an object. *)
Definition migrated (m : props) : props :=
  (λ kv, (kv.1, migrate_record kv.2)) <$> m.

(** A computation that never writes the habit list. *)
Definition keeps_habits {A} (m : M A) : Prop := ∀ st, habits (exec m st) = habits st.

End Handlers.

(** ** New tab mode (newtab-guard.js, setupNewTabToggle)

    [useAsNewTab] is the value chrome.storage holds under that key,
    undefined until the toggle is first clicked. *)

Module NewTab.
Import JS.

(** What a tab that loads the page ends up showing. *)
Inductive shown :=
  | Tracker
  | DefaultNewTab.

(** [params.has(name)], for the names of the query parameters of the
    page url. *)
Definition has (params : list string) (name : string) : bool :=
  bool_decide (name ∈ params).

(** The query of the url background.js opens on a click on the icon,
    habit.html?from=action. *)
Definition icon_params : list string := ["from"].

(** newtab-guard.js *)
Definition guard (params : list string) (useAsNewTab : value) : shown :=
  if has params "from" then Tracker
  else if negb (truthy useAsNewTab) then DefaultNewTab
  else Tracker.

(** The click handler of the toggle: the value it stores, which is also
    the one it hands to updateNewTabButton and picks the toast by. *)
Definition newTabToggle_click (useAsNewTab : value) : value :=
  VBool (negb (truthy useAsNewTab)).

(** updateNewTabButton: whether the button carries the class btn-active. *)
Definition updateNewTabButton (enabled : bool) : bool := enabled.

Definition toggle_toast (newValue : bool) : string :=
  if newValue then "Habits will show on new tabs" else "New tabs back to default".

(** [n] clicks on the toggle. *)
Fixpoint clicks (n : nat) (useAsNewTab : value) : value :=
  match n with
  | O => useAsNewTab
  | S n' => clicks n' (newTabToggle_click useAsNewTab)
  end.

End NewTab.

(** ** Toasts (showToast)

    The toast element, the variable [toastTimeout] and the timers that
    setTimeout has pending.  A timer is an id with the time it is due; the
    browser runs its callback once, not before that time, unless
    clearTimeout removed it first. *)

Module Toast.

Local Open Scope Z_scope.

Record State := mkState {
  textContent : string;
  hidden : bool;
  toastTimeout : option nat;
  timers : list (nat * Z);
  next_id : nat
}.

(** The page as loaded: the toast is hidden and no timer is pending. *)
Definition initial : State :=
  {| textContent := ""; hidden := true; toastTimeout := None;
     timers := []; next_id := 1 |}.

Definition clearTimeout (id : nat) (ts : list (nat * Z)) : list (nat * Z) :=
  filter (λ t, t.1 ≠ id) ts.

(** showToast(message), called when the clock reads [now]. *)
Definition showToast (message : string) (now : Z) (s : State) : State :=
  let pending :=
    match toastTimeout s with
    | Some id => clearTimeout id (timers s)
    | None => timers s
    end in
  {| textContent := message; hidden := false;
     toastTimeout := Some (next_id s);
     timers := pending ++ [(next_id s, now + 2500)];
     next_id := S (next_id s) |}.

(** The callback showToast handed to setTimeout, run for timer [id]. *)
Definition timeout (id : nat) (s : State) : State :=
  {| textContent := textContent s; hidden := true; toastTimeout := None;
     timers := clearTimeout id (timers s); next_id := next_id s |}.

Inductive event :=
  | Show (message : string)
  | Timeout (id : nat).

(** One event at clock reading [now]; a timer can only run when it is
    pending and due. *)
Definition step (now : Z) (e : event) (s : State) : option State :=
  match e with
  | Show message => Some (showToast message now s)
  | Timeout id =>
      match list_find (λ t, t.1 = id) (timers s) with
      | Some (_, (_, due)) => if due <=? now then Some (timeout id s) else None
      | None => None
      end
  end.

Fixpoint run (s : State) (trace : list (Z * event)) : option State :=
  match trace with
  | [] => Some s
  | (now, e) :: rest =>
      match step now e s with
      | Some s' => run s' rest
      | None => None
      end
  end.

(** At most the timer of the latest toast is pending, and the toast is
    visible while it is. *)
Definition one_timer (s : State) : Prop :=
  match toastTimeout s with
  | Some id => ∃ due, timers s = [(id, due)] ∧ hidden s = false
  | None => timers s = [] ∧ hidden s = true
  end.

End Toast.

(** ** Ids (generateId) *)

Module Ids.

Local Open Scope N_scope.

(** The digits of [Number.prototype.toString(36)]: 0-9, then a-z. *)
Definition digit36 (d : N) : ascii :=
  ascii_of_N (if d <? 10 then 48 + d else 87 + d).

(** The digits of [n], most significant first, in front of [acc].  The
    binary size of [n] is fuel enough. *)
Fixpoint toString36_go (fuel : nat) (n : N) (acc : string) : string :=
  match fuel with
  | O => acc
  | S fuel' =>
      if n =? 0 then acc
      else toString36_go fuel' (n `div` 36) (String (digit36 (n `mod` 36)) acc)
  end.

(** [n.toString(36)] for a natural number [n]. *)
Definition toString36 (n : N) : string :=
  if n =? 0 then "0" else toString36_go (N.to_nat (N.size n)) n "".

(** generateId: [now] is Date.now() and [random] the string
    [Math.random().toString(36).substring(2, 11)], at most nine digits. *)
Definition generateId (now : N) (random : string) : string :=
  toString36 now +:+ random.

(** Reading a number in base 36. *)
Definition value36 (c : ascii) : option N :=
  let n := N_of_ascii c in
  if (48 <=? n) && (n <=? 57) then Some (n - 48)
  else if (97 <=? n) && (n <=? 122) then Some (n - 87)
  else None.

Fixpoint parse36_go (acc : N) (s : string) : option N :=
  match s with
  | EmptyString => Some acc
  | String c s' =>
      match value36 c with
      | Some d => parse36_go (acc * 36 + d) s'
      | None => None
      end
  end.

Definition parse36 (s : string) : option N :=
  match s with
  | EmptyString => None
  | _ => parse36_go 0 s
  end.

End Ids.

(** ** Persistence (saveHabits, saveCompletions, loadData)

    The page together with what chrome.storage.local holds under the keys
    habits and completions.  A value is stored in the form JSON gives it,
    which for plain data is the value itself.  chrome.storage carries a
    call out or rejects it; a rejected write changes nothing in the
    storage, and the source catches the rejection and shows a toast.  The
    answer to each call is an input here: [true] when the call is carried
    out.  Calls take effect in the order they are made.  The functions
    below are the functions of the store followed by the calls of
    saveHabits and saveCompletions that the source makes at their end; a
    function that throws does not reach them. *)

Module Persist.
Import JS Store Notions.

Record Storage := mkStorage {
  stored_habits : option (list value);
  stored_completions : value
}.

(** [reported] lists the messages of the toasts by which the page has
    reported a failure, in the order they were shown; the toasts that
    report a success are left out. *)
Record Page := mkPage {
  mem : State;
  storage : Storage;
  reported : list string
}.

(** A fresh install: nothing stored, nothing loaded. *)
Definition fresh : Page :=
  {| mem := initial;
     storage := {| stored_habits := None; stored_completions := VUndefined |};
     reported := [] |}.

Definition P (A : Type) : Type := Page → res A * Page.

Definition pbind {A B} (m : P A) (k : A → P B) : P B :=
  λ p, match m p with
       | (Ok a, p') => k a p'
       | (Throw e, p') => (Throw e, p')
       end.

#[global] Instance P_ret : MRet P := λ A a p, (Ok a, p).
#[global] Instance P_bind : MBind P := λ A B k m, pbind m k.

(** A function of the store, run on the variables of the page. *)
Definition on_mem {A} (m : M A) : P A :=
  λ p, ((m (mem p)).1,
        {| mem := (m (mem p)).2; storage := storage p; reported := reported p |}).

(** [showToast(message)] in a catch clause. *)
Definition report (message : string) : P unit :=
  λ p, (Ok (), {| mem := mem p; storage := storage p;
                  reported := reported p ++ [message] |}).

(** [try { ... } catch (error) { console.error(...); showToast(message) }]:
    what was written before the exception stays, the failure is
    reported, and the function returns. *)
Definition caught (message : string) (m : P unit) : P unit :=
  λ p, match m p with
       | (Ok _, p') => (Ok (), p')
       | (Throw _, p') => report message p'
       end.

(** saveHabits: [chrome.storage.local.set({ habits })], with the answer
    of chrome.storage. *)
Definition saveHabits (accepted : bool) : P unit :=
  λ p, if accepted then
         (Ok (), {| mem := mem p;
                    storage := {| stored_habits :=
                                    Some (items_of (to_json (VArr (habits (mem p)) [])));
                                  stored_completions := stored_completions (storage p) |};
                    reported := reported p |})
       else report "Failed to save habits" p.

(** saveCompletions: [chrome.storage.local.set({ completions })] *)
Definition saveCompletions (accepted : bool) : P unit :=
  λ p, if accepted then
         (Ok (), {| mem := mem p;
                    storage := {| stored_habits := stored_habits (storage p);
                                  stored_completions := to_json (completions (mem p)) |};
                    reported := reported p |})
       else report "Failed to save completions" p.

Definition addHabit (name id createdAt : string) (a1 a2 : bool) : P unit :=
  on_mem (Store.addHabit name id createdAt);; saveHabits a1;; saveCompletions a2.

Definition addHabitForm_submit (input id createdAt : string) (a1 a2 : bool) : P unit :=
  if truthy (VStr (trim input)) then addHabit input id createdAt a1 a2 else mret ().

(** renameHabit returns before saveHabits when no habit has the id or the
    new name is blank. *)
Definition renameHabit (habitId newName : string) (a1 : bool) : P unit :=
  hs ← on_mem read_habits;
  found ← on_mem (lift (find_index habitId hs 0));
  match found with
  | None => mret ()
  | Some _ =>
      if negb (truthy (VStr (trim newName))) then mret ()
      else on_mem (Store.renameHabit habitId newName);; saveHabits a1
  end.

Definition toggleCompletion (habitId dateStr : string) (a1 : bool) : P unit :=
  on_mem (Store.toggleCompletion habitId dateStr);; saveCompletions a1.

Definition reorderHabits (fromIndex toIndex : nat) (a1 : bool) : P unit :=
  on_mem (Store.reorderHabits fromIndex toIndex);; saveHabits a1.

(** Whether the migration loop of loadData finds an array. *)
Definition needsMigration (c : value) : bool :=
  match entries c with
  | Ok es => existsb (λ kv, isArray kv.2) es
  | Throw _ => false
  end.

(** loadData.  [read] is the answer of chrome.storage to the call of
    get: when it is rejected the variables of the page stay as they are.
    The migrated map is saved at once, with the answer [a1]. *)
Definition loadData (read a1 : bool) : P unit :=
  if read then
    caught "Failed to load data" (λ p,
      let sto := storage p in
      (on_mem (Store.loadData (stored_habits sto) (stored_completions sto));;
       if needsMigration (or_else (stored_completions sto) (VObj []))
       then saveCompletions a1 else mret ()) p)
  else report "Failed to load data".

(** The state a reload of the page would start with, when chrome.storage
    answers the read. *)
Definition reload (p : Page) : State :=
  exec (Store.loadData (stored_habits (storage p)) (stored_completions (storage p)))
    initial.

(** A reload would bring back the habit list and the completion map as
    they are now. *)
Definition in_storage (p : Page) : Prop :=
  habits (reload p) = habits (mem p) ∧
  completions (reload p) = completions (mem p).

(** The call finished, left the variables of the page as the function of
    the store leaves them, and what it stored is what a reload brings
    back. *)
Definition persisted (r : res unit * Page) (st' : State) : Prop :=
  r.1 = Ok () ∧ mem r.2 = st' ∧ in_storage r.2.

(** importData, reporting a file it does not accept. *)
Definition importData (file : option text) : P unit :=
  o ← on_mem (Store.importData file);
  match o with
  | ImportFailed => report "Failed to import: Invalid file"
  | _ => mret ()
  end.

(** What the page does on an action, with the answers of chrome.storage
    to the calls it makes, in order.  The dialog and importData write
    nothing to the storage before the callback runs. *)
Definition handler (a : action) (a1 a2 : bool) : P unit :=
  match a with
  | Submit input id createdAt => addHabitForm_submit input id createdAt a1 a2
  | Rename habitId newName => renameHabit habitId newName a1
  | Toggle habitId dateStr => toggleCompletion habitId dateStr a1
  | Drop fromIndex toIndex => reorderHabits fromIndex toIndex a1
  | Import file => importData file
  | a => on_mem (Notions.handler a)
  end.

(** The page after it is loaded anew: the variables start afresh and
    loadData reads the storage. *)
Definition reloaded (read a1 : bool) (p : Page) : Page :=
  (loadData read a1 {| mem := initial; storage := storage p;
                       reported := reported p |}).2.

(** What happens in a session: an action of the page, or a reload, each
    with the answers of chrome.storage. *)
Inductive event :=
  | Act (a : action) (a1 a2 : bool)
  | Reload (read a1 : bool).

Definition step (e : event) (p : Page) : Page :=
  match e with
  | Act a a1 a2 => (handler a a1 a2 p).2
  | Reload read a1 => reloaded read a1 p
  end.

Fixpoint run (p : Page) (session : list event) : Page :=
  match session with
  | [] => p
  | e :: rest => run (step e p) rest
  end.

(** chrome.storage carries out every call of the event. *)
Definition accepted (e : event) : Prop :=
  match e with
  | Act _ a1 a2 => a1 = true ∧ a2 = true
  | Reload read a1 => read = true ∧ a1 = true
  end.

(** The ids and dates an action names are no names of inherited
    members. *)
Definition own_names (a : action) : Prop :=
  match a with
  | Submit _ id _ => own_name id
  | Toggle habitId dateStr => own_name habitId ∧ own_name dateStr
  | _ => True
  end.

(** The page can produce each event of the session in the state the
    events before it lead to. *)
Fixpoint offered (p : Page) (session : list event) : Prop :=
  match session with
  | [] => True
  | e :: rest =>
      match e with
      | Act a _ _ => possible (mem p) a ∧ own_names a
      | Reload _ _ => True
      end ∧ offered (step e p) rest
  end.

(** The storage holds no record in the old format. *)
Definition migrated_storage (p : Page) : Prop :=
  needsMigration (or_else (stored_completions (storage p)) (VObj [])) = false.

End Persist.

(** ** Theorems *)

Import JS Store Notions.

(** *** Property tables *)

Section assoc.
Implicit Types (k : string) (v : value) (ps : props).

Lemma eqb_eq_true k : String.eqb k k = true.
Proof. apply String.eqb_refl. Qed.

Lemma eqb_ne_false k k' : k ≠ k' → String.eqb k k' = false.
Proof. intros. by apply String.eqb_neq. Qed.

Lemma assoc_get_set_eq k v ps : assoc_get k (assoc_set k v ps) = Some v.
Proof.
  induction ps as [|[k' v'] ps IH]; simpl.
  - by rewrite eqb_eq_true.
  - destruct (String.eqb_spec k k') as [->|Hne]; simpl.
    + by rewrite eqb_eq_true.
    + by rewrite eqb_ne_false.
Qed.

Lemma assoc_get_set_ne k k' v ps :
  k ≠ k' → assoc_get k' (assoc_set k v ps) = assoc_get k' ps.
Proof.
  intros Hne. induction ps as [|[k0 v0] ps IH]; simpl.
  - rewrite eqb_ne_false; [done|congruence].
  - destruct (String.eqb_spec k k0) as [->|Hne0]; simpl.
    + rewrite !eqb_ne_false; [done|congruence..].
    + by rewrite IH.
Qed.

Lemma assoc_get_del_eq k ps : assoc_get k (assoc_del k ps) = None.
Proof.
  induction ps as [|[k' v'] ps IH]; simpl; [done|].
  destruct (String.eqb_spec k k') as [->|Hne]; simpl; [done|].
  by rewrite eqb_ne_false.
Qed.

Lemma assoc_get_del_ne k k' ps :
  k ≠ k' → assoc_get k' (assoc_del k ps) = assoc_get k' ps.
Proof.
  intros Hne. induction ps as [|[k0 v0] ps IH]; simpl; [done|].
  destruct (String.eqb_spec k k0) as [->|Hne0]; simpl.
  - rewrite eqb_ne_false; [done|congruence].
  - by rewrite IH.
Qed.

Lemma assoc_set_set k v v' ps :
  assoc_set k v (assoc_set k v' ps) = assoc_set k v ps.
Proof.
  induction ps as [|[k0 v0] ps IH]; simpl.
  - by rewrite eqb_eq_true.
  - destruct (String.eqb_spec k k0) as [->|Hne]; simpl.
    + by rewrite eqb_eq_true.
    + rewrite eqb_ne_false by done. by rewrite IH.
Qed.

Lemma assoc_get_None_keys k ps : assoc_get k ps = None ↔ k ∉ ps.*1.
Proof.
  induction ps as [|[k0 v0] ps IH]; simpl.
  - split; [intros _; apply not_elem_of_nil|done].
  - rewrite not_elem_of_cons. destruct (String.eqb_spec k k0) as [->|Hne].
    + split; [done|intros [? _]; done].
    + rewrite IH. split; [by intros ?; split|by intros [_ ?]].
Qed.
End assoc.

(** *** Toggling a cell *)

Lemma toggle_object st m id d :
  completions st = VObj m → object_or_absent m id →
  toggleCompletion id d st =
    (Ok (), with_completions st
       (VObj (assoc_set id (VObj (toggle_record (record_of m id) d)) m))).
Proof.
  intros Hc Hr. unfold toggleCompletion, record_of, toggle_record.
  unfold mbind, M_bind, bind, lift, read_completions, write_completions, with_completions.
  simpl. rewrite Hc. simpl.
  destruct Hr as [Hn|[ps Hs]].
  - rewrite Hn. simpl. rewrite assoc_get_set_eq. simpl.
    rewrite assoc_set_set. done.
  - rewrite Hs. simpl. rewrite Hc. simpl. rewrite Hs. simpl.
    destruct (truthy (of_option (assoc_get d ps))); simpl; [|done].
    destruct (is_str _ _); done.
Qed.

Lemma toggle_object_keeps st m id d :
  completions st = VObj m → object_or_absent m id →
  ∃ m', completions (exec (toggleCompletion id d) st) = VObj m' ∧
        assoc_get id m' = Some (VObj (toggle_record (record_of m id) d)).
Proof.
  intros Hc Hr. unfold exec. rewrite (toggle_object _ _ _ _ Hc Hr). simpl.
  eexists. split; [done|]. by rewrite assoc_get_set_eq.
Qed.

Lemma getHabitState_object st m id d :
  completions st = VObj m → object_or_absent m id →
  getHabitState st id d =
    Ok (or_else (of_option (assoc_get d (record_of m id))) VNull).
Proof.
  intros Hc Hr. unfold getHabitState, record_of. rewrite Hc. simpl.
  destruct Hr as [->|[ps ->]]; done.
Qed.

Lemma or_else_null_inv v : or_else v VNull = VNull → truthy v = false.
Proof. unfold or_else. destruct (truthy v) eqn:E; [|done]. by intros ->. Qed.

Lemma or_else_str_inv v s : or_else v VNull = VStr s → v = VStr s.
Proof. unfold or_else. by destruct (truthy v). Qed.

Lemma toggle_record_untracked ps d :
  truthy (of_option (assoc_get d ps)) = false →
  assoc_get d (toggle_record ps d) = Some (VStr "done").
Proof. intros H. unfold toggle_record. rewrite H. simpl. apply assoc_get_set_eq. Qed.

Lemma toggle_record_done ps d :
  assoc_get d ps = Some (VStr "done") →
  assoc_get d (toggle_record ps d) = Some (VStr "skipped").
Proof. intros H. unfold toggle_record. rewrite H. simpl. apply assoc_get_set_eq. Qed.

Lemma toggle_record_skipped ps d :
  assoc_get d ps = Some (VStr "skipped") →
  assoc_get d (toggle_record ps d) = None.
Proof. intros H. unfold toggle_record. rewrite H. simpl. apply assoc_get_del_eq. Qed.

Lemma of_option_str o s : of_option o = VStr s → o = Some (VStr s).
Proof. destruct o; simpl; [by intros ->|done]. Qed.

Section toggle_steps.
Context (st : State) (m : props) (id d : string).
Hypothesis Hc : completions st = VObj m.
Hypothesis Hr : object_or_absent m id.

Lemma toggle_step :
  ∃ m1, completions (exec (toggleCompletion id d) st) = VObj m1 ∧
        object_or_absent m1 id ∧
        record_of m1 id = toggle_record (record_of m id) d.
Proof.
  destruct (toggle_object_keeps st m id d Hc Hr) as (m1 & H1 & Hg).
  exists m1. split; [done|]. split; [right; eauto|].
  unfold record_of at 1. by rewrite Hg.
Qed.

Lemma toggle_untracked :
  getHabitState st id d = Ok VNull →
  getHabitState (exec (toggleCompletion id d) st) id d = Ok (VStr "done").
Proof.
  intros Hg. destruct toggle_step as (m1 & H1 & Hr1 & Hrec).
  rewrite (getHabitState_object _ _ _ _ Hc Hr) in Hg.
  rewrite (getHabitState_object _ _ _ _ H1 Hr1), Hrec.
  injection Hg as Hg. apply or_else_null_inv in Hg.
  by rewrite (toggle_record_untracked _ _ Hg).
Qed.

Lemma toggle_done :
  getHabitState st id d = Ok (VStr "done") →
  getHabitState (exec (toggleCompletion id d) st) id d = Ok (VStr "skipped").
Proof.
  intros Hg. destruct toggle_step as (m1 & H1 & Hr1 & Hrec).
  rewrite (getHabitState_object _ _ _ _ Hc Hr) in Hg.
  rewrite (getHabitState_object _ _ _ _ H1 Hr1), Hrec.
  injection Hg as Hg. apply or_else_str_inv, of_option_str in Hg.
  by rewrite (toggle_record_done _ _ Hg).
Qed.

Lemma toggle_skipped :
  getHabitState st id d = Ok (VStr "skipped") →
  getHabitState (exec (toggleCompletion id d) st) id d = Ok VNull ∧
  key_absent (exec (toggleCompletion id d) st) id d.
Proof.
  intros Hg.
  destruct (toggle_object_keeps st m id d Hc Hr) as (m1 & H1 & Hg1).
  assert (Hr1 : object_or_absent m1 id) by (right; eauto).
  rewrite (getHabitState_object _ _ _ _ Hc Hr) in Hg.
  injection Hg as Hg. apply or_else_str_inv, of_option_str in Hg.
  pose proof (toggle_record_skipped _ _ Hg) as Hnone.
  split.
  - rewrite (getHabitState_object _ _ _ _ H1 Hr1).
    unfold record_of at 1. rewrite Hg1. by rewrite Hnone.
  - eexists. rewrite H1. simpl. rewrite Hg1. simpl. split; [done|].
    by apply assoc_get_None_keys.
Qed.
End toggle_steps.

(** C1.  For an id and a date that name no member of Object.prototype,
    on a store whose record for the habit is absent or an object:
    toggleCompletion moves a cell from untracked to done, from done to
    skipped and from skipped back to untracked, removing the key; three
    toggles of an untracked cell show done, skipped, untracked in that
    order; and a habit without a record gets one.  At an id such as
    constructor the source reads the inherited member in place of a
    record and creates none. *)
Theorem toggleCompletion_three_cycle (st : State) (m : props) (id d : string) :
  own_name id → own_name d →
  completions st = VObj m → object_or_absent m id →
  let toggle := exec (toggleCompletion id d) in
  outcome (toggleCompletion id d) st = Ok () ∧
  (getHabitState st id d = Ok VNull →
     getHabitState (toggle st) id d = Ok (VStr "done")) ∧
  (getHabitState st id d = Ok (VStr "done") →
     getHabitState (toggle st) id d = Ok (VStr "skipped")) ∧
  (getHabitState st id d = Ok (VStr "skipped") →
     getHabitState (toggle st) id d = Ok VNull ∧ key_absent (toggle st) id d) ∧
  (getHabitState st id d = Ok VNull →
     getHabitState (toggle st) id d = Ok (VStr "done") ∧
     getHabitState (toggle (toggle st)) id d = Ok (VStr "skipped") ∧
     getHabitState (toggle (toggle (toggle st))) id d = Ok VNull ∧
     key_absent (toggle (toggle (toggle st))) id d) ∧
  (assoc_get id m = None →
     ∃ ps, get (completions (toggle st)) id = Ok (VObj ps)).
Proof.
  intros _ _ Hc Hr toggle. unfold toggle.
  split; [|split; [|split; [|split; [|split]]]].
  - unfold outcome. by rewrite (toggle_object _ _ _ _ Hc Hr).
  - by apply (toggle_untracked st m).
  - by apply (toggle_done st m).
  - by apply (toggle_skipped st m).
  - intros Hg.
    destruct (toggle_step st m id d Hc Hr) as (m1 & H1 & Hr1 & _).
    destruct (toggle_step _ m1 id d H1 Hr1) as (m2 & H2 & Hr2 & _).
    pose proof (toggle_untracked st m id d Hc Hr Hg) as G1.
    pose proof (toggle_done _ m1 id d H1 Hr1 G1) as G2.
    destruct (toggle_skipped _ m2 id d H2 Hr2 G2) as [G3 G4]. done.
  - intros Hn.
    destruct (toggle_object_keeps st m id d Hc Hr) as (m1 & H1 & Hg1).
    eexists. rewrite H1. simpl. by rewrite Hg1.
Qed.

Lemma toggleCompletion_three_cycle_witness :
  getHabitState
    (exec (toggleCompletion "h1" "2024-03-02")
       (exec (toggleCompletion "h1" "2024-03-02")
          (exec (toggleCompletion "h1" "2024-03-02") st_one_cell))) "h1" "2024-03-02" = Ok VNull.
Proof.
  pose proof (toggleCompletion_three_cycle st_one_cell _ "h1" "2024-03-02"
                eq_refl eq_refl eq_refl) as H.
  destruct H as (_ & _ & _ & _ & H & _).
  - right. eexists. reflexivity.
  - destruct H as (_ & _ & H & _); [reflexivity|]. exact H.
Defined.

(** C10.  For an id and a date that name no member of Object.prototype,
    the id having no record in the completion map, whatever the habit
    list holds: getHabitState answers untracked for every date,
    toggleCompletion finishes, creates the record with the one cell set to
    done and leaves the habit list alone, so that an id no habit carries
    ends up with a record.  At an id such as constructor the source reads
    the inherited member in place of the missing record. *)
Theorem toggle_and_state_total_on_unknown_id (st : State) (m : props) (id d : string) :
  own_name id → own_name d →
  completions st = VObj m → assoc_get id m = None →
  let st' := exec (toggleCompletion id d) st in
  (∀ d', getHabitState st id d' = Ok VNull) ∧
  outcome (toggleCompletion id d) st = Ok () ∧
  get (completions st') id = Ok (VObj [(d, VStr "done")]) ∧
  getHabitState st' id d = Ok (VStr "done") ∧
  habits st' = habits st ∧
  (¬ known st id → ¬ known st' id).
Proof.
  intros _ _ Hc Hn st'.
  assert (Hr : object_or_absent m id) by (by left).
  pose proof (toggle_object st m id d Hc Hr) as Ht.
  assert (Hrec : record_of m id = []) by (unfold record_of; by rewrite Hn).
  rewrite Hrec in Ht. unfold toggle_record in Ht. simpl in Ht.
  assert (Hst : st' = with_completions st
                        (VObj (assoc_set id (VObj [(d, VStr "done")]) m))).
  { unfold st', exec. by rewrite Ht. }
  split; [|split; [|split; [|split; [|split]]]].
  - intros d'. rewrite (getHabitState_object _ _ _ _ Hc Hr), Hrec. done.
  - unfold outcome. by rewrite Ht.
  - rewrite Hst. simpl. by rewrite assoc_get_set_eq.
  - rewrite Hst. unfold getHabitState. simpl. rewrite assoc_get_set_eq. simpl.
    unfold get_opt. simpl. by rewrite String.eqb_refl.
  - by rewrite Hst.
  - rewrite Hst. done.
Qed.

Lemma toggle_and_state_total_on_unknown_id_witness :
  getHabitState Store.initial "ghost" "2024-03-02" = Ok VNull ∧
  get (completions (exec (toggleCompletion "ghost" "2024-03-02") Store.initial)) "ghost"
    = Ok (VObj [("2024-03-02", VStr "done")]) ∧
  ¬ known (exec (toggleCompletion "ghost" "2024-03-02") Store.initial) "ghost".
Proof.
  destruct (toggle_and_state_total_on_unknown_id
              Store.initial [] "ghost" "2024-03-02" eq_refl eq_refl eq_refl eq_refl)
    as (H1 & _ & H3 & _ & _ & H6).
  split; [exact (H1 _)|]. split; [exact H3|].
  apply H6. intros (h & Hin & _). simpl in Hin. by apply elem_of_nil in Hin.
Defined.

(** *** Date keys name distinct days *)

Section date_facts.
Import DateKey.
Local Open Scope Z_scope.

Lemma InLeapYear_cases y :
  (InLeapYear y = true ∧ y `mod` 4 = 0 ∧ (y `mod` 100 ≠ 0 ∨ y `mod` 400 = 0)) ∨
  (InLeapYear y = false ∧ (y `mod` 4 ≠ 0 ∨ (y `mod` 100 = 0 ∧ y `mod` 400 ≠ 0))).
Proof.
  unfold InLeapYear.
  destruct (Z.eqb_spec (y `mod` 4) 0), (Z.eqb_spec (y `mod` 100) 0),
    (Z.eqb_spec (y `mod` 400) 0); simpl; lia.
Qed.

Lemma DayFromYear_succ y :
  DayFromYear (y + 1) = DayFromYear y + 365 + (if InLeapYear y then 1 else 0).
Proof.
  destruct (InLeapYear_cases y) as [(-> & H)|(-> & H)];
    unfold DayFromYear; Z.div_mod_to_equations; lia.
Qed.

Lemma DayFromYear_mono y y' : y < y' → DayFromYear (y + 1) ≤ DayFromYear y'.
Proof. intros. unfold DayFromYear. Z.div_mod_to_equations. lia. Qed.

Lemma DaysBeforeMonth_bounds y m d :
  valid_ymd y m d = true →
  0 ≤ DaysBeforeMonth y m + (d - 1) < 365 + (if InLeapYear y then 1 else 0).
Proof.
  unfold valid_ymd, DaysInMonth, DaysBeforeMonth.
  rewrite !andb_true_iff, !Z.leb_le. intros [[[Hm1 Hm2] Hd1] Hd2].
  assert (m = 1 ∨ m = 2 ∨ m = 3 ∨ m = 4 ∨ m = 5 ∨ m = 6 ∨ m = 7 ∨ m = 8 ∨
          m = 9 ∨ m = 10 ∨ m = 11 ∨ m = 12) as Hm by lia.
  destruct (InLeapYear y);
    repeat (destruct Hm as [->|Hm]; [simpl in *; lia|]); subst; simpl in *; lia.
Qed.

Lemma within_year_inj y m d m' d' :
  valid_ymd y m d = true → valid_ymd y m' d' = true →
  DaysBeforeMonth y m + (d - 1) = DaysBeforeMonth y m' + (d' - 1) →
  m = m' ∧ d = d'.
Proof.
  unfold valid_ymd, DaysInMonth, DaysBeforeMonth.
  rewrite !andb_true_iff, !Z.leb_le.
  intros [[[Hm1 Hm2] Hd1] Hd2] [[[Hm1' Hm2'] Hd1'] Hd2'].
  assert (m = 1 ∨ m = 2 ∨ m = 3 ∨ m = 4 ∨ m = 5 ∨ m = 6 ∨ m = 7 ∨ m = 8 ∨
          m = 9 ∨ m = 10 ∨ m = 11 ∨ m = 12) as Hm by lia.
  assert (m' = 1 ∨ m' = 2 ∨ m' = 3 ∨ m' = 4 ∨ m' = 5 ∨ m' = 6 ∨ m' = 7 ∨ m' = 8 ∨
          m' = 9 ∨ m' = 10 ∨ m' = 11 ∨ m' = 12) as Hm' by lia.
  destruct (InLeapYear y);
    repeat (destruct Hm as [->|Hm]); subst;
    repeat (destruct Hm' as [->|Hm']); subst; simpl in *; lia.
Qed.

Lemma MakeDay_inj y m d y' m' d' :
  valid_ymd y m d = true → valid_ymd y' m' d' = true →
  MakeDay y m d = MakeDay y' m' d' → y = y' ∧ m = m' ∧ d = d'.
Proof.
  intros Hv Hv' E. unfold MakeDay in E.
  pose proof (DaysBeforeMonth_bounds y m d Hv) as Hb.
  pose proof (DaysBeforeMonth_bounds y' m' d' Hv') as Hb'.
  pose proof (DayFromYear_succ y) as Hs. pose proof (DayFromYear_succ y') as Hs'.
  assert (y = y') as <-.
  { destruct (Z.lt_total y y') as [Hlt|[?|Hlt]]; [|done|].
    - pose proof (DayFromYear_mono y y' Hlt). lia.
    - pose proof (DayFromYear_mono y' y Hlt). lia. }
  split; [done|]. apply (within_year_inj y); [done..|lia].
Qed.
End date_facts.

Section key_facts.
Import DateKey.
Local Open Scope Z_scope.

Lemma digit_inv c n :
  digit c = Some n → 0 ≤ n ≤ 9 ∧ c = ascii_of_nat (Z.to_nat n + 48).
Proof.
  unfold digit, digit_of. case_bool_decide as Hc; [|done].
  intros [= <-]. split; [lia|].
  rewrite Nat2Z.id. replace (nat_of_ascii c - 48 + 48)%nat with (nat_of_ascii c) by lia.
  by rewrite ascii_nat_embedding.
Qed.

Lemma fields_inj k k' f : fields k = Some f → fields k' = Some f → k = k'.
Proof.
  unfold fields.
  destruct k as [|y1 [|y2 [|y3 [|y4 [|s1 [|m1 [|m2 [|s2 [|d1 [|d2 [|? ?]]]]]]]]]]];
    try done.
  destruct k' as [|y1' [|y2' [|y3' [|y4' [|s1' [|m1' [|m2' [|s2' [|d1' [|d2' [|? ?]]]]]]]]]]];
    try done.
  destruct (Ascii.eqb s1 "-" && Ascii.eqb s2 "-") eqn:Hs; [|done].
  destruct (Ascii.eqb s1' "-" && Ascii.eqb s2' "-") eqn:Hs'; [|done].
  apply andb_true_iff in Hs as [->%Ascii.eqb_eq ->%Ascii.eqb_eq].
  apply andb_true_iff in Hs' as [->%Ascii.eqb_eq ->%Ascii.eqb_eq].
  destruct (digit y1) as [a|] eqn:Ha; [|done].
  destruct (digit y2) as [b|] eqn:Hb; [|done].
  destruct (digit y3) as [c|] eqn:Hc; [|done].
  destruct (digit y4) as [e|] eqn:He; [|done].
  destruct (digit m1) as [f1|] eqn:Hf; [|done].
  destruct (digit m2) as [g|] eqn:Hg; [|done].
  destruct (digit d1) as [h|] eqn:Hh; [|done].
  destruct (digit d2) as [i|] eqn:Hi; [|done].
  destruct (digit y1') as [a'|] eqn:Ha'; [|done].
  destruct (digit y2') as [b'|] eqn:Hb'; [|done].
  destruct (digit y3') as [c'|] eqn:Hc'; [|done].
  destruct (digit y4') as [e'|] eqn:He'; [|done].
  destruct (digit m1') as [f1'|] eqn:Hf'; [|done].
  destruct (digit m2') as [g'|] eqn:Hg'; [|done].
  destruct (digit d1') as [h'|] eqn:Hh'; [|done].
  destruct (digit d2') as [i'|] eqn:Hi'; [|done].
  simpl. intros [= <-] [= Ey Em Ed].
  apply digit_inv in Ha as [? ->], Hb as [? ->], Hc as [? ->], He as [? ->],
    Hf as [? ->], Hg as [? ->], Hh as [? ->], Hi as [? ->].
  apply digit_inv in Ha' as [? ->], Hb' as [? ->], Hc' as [? ->], He' as [? ->],
    Hf' as [? ->], Hg' as [? ->], Hh' as [? ->], Hi' as [? ->].
  assert (a' = a ∧ b' = b ∧ c' = c ∧ e' = e) as (-> & -> & -> & ->) by lia.
  assert (f1' = f1 ∧ g' = g) as (-> & ->) by lia.
  assert (h' = h ∧ i' = i) as (-> & ->) by lia.
  done.
Qed.

(** Two keys that name the same day are the same key. *)
Lemma day_of_inj k k' d : day_of k = Some d → day_of k' = Some d → k = k'.
Proof.
  unfold day_of.
  destruct (fields k) as [[[y m] dd]|] eqn:Hk; [|done].
  destruct (fields k') as [[[y' m'] dd']|] eqn:Hk'; [|done].
  destruct (valid_ymd y m dd) eqn:Hv; [|done].
  destruct (valid_ymd y' m' dd') eqn:Hv'; [|done].
  intros [= <-] [= E].
  destruct (MakeDay_inj _ _ _ _ _ _ Hv' Hv E) as (-> & -> & ->).
  by eapply fields_inj.
Qed.

Lemma round_div_days x : round_div (Int (x * msPerDay)) msPerDay = Int x.
Proof.
  unfold round_div, msPerDay. f_equal.
  symmetry. apply Z.div_unique with (r := 86400000); lia.
Qed.

Lemma diffDays_days a b x y :
  day_of a = Some x → day_of b = Some y → diffDays a b = Int (x - y).
Proof.
  intros Ha Hb. unfold diffDays, time_of. rewrite Ha, Hb. simpl.
  rewrite <- Z.mul_sub_distr_r. apply round_div_days.
Qed.
End key_facts.

(** *** The sort *)

Section sort_facts.
Context {A : Type} (cmp : A → A → num).

Lemma insert_Permutation a l : insert cmp a l ≡ₚ a :: l.
Proof.
  induction l as [|b l IH]; simpl; [done|].
  destruct (after cmp a b); [|done]. by rewrite IH, Permutation_swap.
Qed.

Lemma sort_Permutation l : sort cmp l ≡ₚ l.
Proof.
  induction l as [|a l IH]; simpl; [done|].
  by rewrite insert_Permutation, IH.
Qed.

(** On elements that satisfy [Q], the comparator decides the order [R]. *)
Context (R : relation A) (Q : A → Prop).
Hypothesis R_trans : ∀ a b c, Q a → Q b → Q c → R a b → R b c → R a c.
Hypothesis after_true : ∀ a b, Q a → Q b → after cmp a b = true → R b a.
Hypothesis after_false : ∀ a b, Q a → Q b → after cmp a b = false → R a b.

Lemma insert_sorted a l :
  Q a → Forall Q l → StronglySorted R l → StronglySorted R (insert cmp a l).
Proof.
  intros Ha Hl Hs. induction Hs as [|b l Hs IH Hb]; simpl.
  - by repeat constructor.
  - apply Forall_cons in Hl as [Qb Hl].
    destruct (after cmp a b) eqn:Hab.
    + constructor; [by apply IH|].
      rewrite insert_Permutation. constructor; [by apply after_true|done].
    + constructor; [by constructor|].
      constructor; [by apply after_false|].
      apply Forall_forall. intros c Hc.
      apply (R_trans a b c); try done.
      * by apply (proj1 (Forall_forall _ _) Hl).
      * by apply after_false.
      * by apply (proj1 (Forall_forall _ _) Hb).
Qed.

Lemma sort_sorted l : Forall Q l → StronglySorted R (sort cmp l).
Proof.
  induction 1 as [|a l Ha Hl IH]; simpl; [constructor|].
  apply insert_sorted; [done| |done]. by rewrite sort_Permutation.
Qed.
End sort_facts.

(** *** Streaks *)

Section streak_facts.
Import DateKey.
Local Open Scope Z_scope.
Implicit Types (es : list (string * value)) (ks : list string) (k : string).

Lemma canonical_day k : canonical k → day_of k = Some (day_number k).
Proof. intros [d Hd]. unfold day_number. by rewrite Hd. Qed.

Lemma after_newest_first a b :
  canonical a → canonical b →
  after newest_first a b = bool_decide (day_number a < day_number b).
Proof.
  intros Ha%canonical_day Hb%canonical_day.
  unfold after, newest_first, time_of. rewrite Ha, Hb. simpl.
  unfold msPerDay. case_bool_decide; [apply Z.ltb_lt|apply Z.ltb_ge]; lia.
Qed.

Lemma after_oldest_first a b :
  canonical a → canonical b →
  after oldest_first a b = bool_decide (day_number b < day_number a).
Proof.
  intros Ha%canonical_day Hb%canonical_day.
  unfold after, oldest_first, time_of. rewrite Ha, Hb. simpl.
  unfold msPerDay. case_bool_decide; [apply Z.ltb_lt|apply Z.ltb_ge]; lia.
Qed.

Lemma sort_newest_first_sorted ks :
  Forall canonical ks →
  StronglySorted (λ a b, day_number b ≤ day_number a) (sort newest_first ks).
Proof.
  apply (sort_sorted newest_first _ canonical).
  - intros a b c _ _ _. lia.
  - intros a b Ha Hb. rewrite after_newest_first by done.
    intros ?%bool_decide_eq_true. lia.
  - intros a b Ha Hb. rewrite after_newest_first by done.
    intros ?%bool_decide_eq_false. lia.
Qed.

Lemma sort_oldest_first_sorted ks :
  Forall canonical ks →
  StronglySorted (λ a b, day_number a ≤ day_number b) (sort oldest_first ks).
Proof.
  apply (sort_sorted oldest_first _ canonical).
  - intros a b c _ _ _. lia.
  - intros a b Ha Hb. rewrite after_oldest_first by done.
    intros ?%bool_decide_eq_true. lia.
  - intros a b Ha Hb. rewrite after_oldest_first by done.
    intros ?%bool_decide_eq_false. lia.
Qed.

Lemma day_number_inj a b :
  canonical a → canonical b → day_number a = day_number b → a = b.
Proof.
  intros Ha%canonical_day Hb%canonical_day E. rewrite E in Ha.
  by eapply day_of_inj.
Qed.

(** A sorted list of distinct canonical keys is strictly sorted. *)
Lemma sorted_strict (R : relation Z) ks :
  Forall canonical ks → NoDup ks →
  StronglySorted (λ a b, R (day_number a) (day_number b)) ks →
  StronglySorted (λ a b, R (day_number a) (day_number b)
                         ∧ day_number a ≠ day_number b) ks.
Proof.
  intros Hc Hnd Hs. induction Hs as [|a l Hs IH Ha]; [constructor|].
  apply Forall_cons in Hc as [Ca Hc]. apply NoDup_cons in Hnd as [Hnin Hnd].
  constructor; [by apply IH|].
  apply Forall_forall. intros b Hb. split.
  - by apply (proj1 (Forall_forall _ _) Ha).
  - intros E. apply day_number_inj in E; [by subst| done|].
    by apply (proj1 (Forall_forall _ _) Hc).
Qed.

Lemma doneDates_NoDup es : NoDup es.*1 → NoDup (doneDates es).
Proof.
  unfold doneDates. induction es as [|[k v] es IH]; [done|].
  rewrite fmap_cons, NoDup_cons. intros [Hnin Hnd].
  rewrite filter_cons. case_decide; [|by apply IH].
  rewrite fmap_cons. apply NoDup_cons. split; [|by apply IH].
  intros Hin. apply Hnin. simpl in *.
  apply list_elem_of_fmap in Hin as ([k' v'] & -> & Hin).
  apply list_elem_of_filter in Hin as [_ Hin].
  by apply (list_elem_of_fmap_2 fst es (k', v')).
Qed.
Lemma count_current_S ks : ∀ k c,
  count_current k ks (S c) = S (count_current k ks c).
Proof.
  induction ks as [|k1 ks IH]; intros k c; simpl; [done|].
  destruct (eq_int _ _); [apply IH|done].
Qed.

(** The loop for the current streak, run on keys in strictly descending
    order of day: it counts the days that end with the first key and are
    all in [P], and stops at the first day that is not. *)
Lemma count_current_run (P : Z → Prop) ks : ∀ k,
  Forall canonical (k :: ks) →
  StronglySorted (λ a b, day_number b ≤ day_number a
                         ∧ day_number a ≠ day_number b) (k :: ks) →
  P (day_number k) →
  (∀ x, x < day_number k → (P x ↔ ∃ k', k' ∈ ks ∧ day_number k' = x)) →
  (∀ i : nat, (i < count_current k ks 1)%nat → P (day_number k - Z.of_nat i)) ∧
  ¬ P (day_number k - Z.of_nat (count_current k ks 1)).
Proof.
  induction ks as [|k1 ks IH]; intros k Hc Hs Hk Hbelow.
  - simpl. split.
    + intros i Hi. by replace (day_number k - Z.of_nat i) with (day_number k) by lia.
    + intros HP. apply Hbelow in HP as (k' & Hin & _); [|lia].
      by apply elem_of_nil in Hin.
  - apply Forall_cons in Hc as [Ck Hc]. pose proof Hc as Hc1.
    apply Forall_cons in Hc1 as [Ck1 _].
    apply StronglySorted_cons in Hs as [Hk_all Hs].
    pose proof Hk_all as Hk1. apply Forall_cons in Hk1 as [[Hle Hne] Hk_rest].
    pose proof Hs as Hs1. apply StronglySorted_cons in Hs1 as [Hk1_rest _].
    cbn [count_current].
    rewrite (diffDays_days k k1 _ _ (canonical_day _ Ck) (canonical_day _ Ck1)).
    unfold eq_int. destruct (Z.eqb_spec (day_number k - day_number k1) 1) as [E|E].
    + rewrite count_current_S.
      destruct (IH k1 Hc Hs) as [Hrun Hstop].
      * apply Hbelow; [lia|]. exists k1. split; [by left|done].
      * intros x Hx. rewrite Hbelow by lia. split.
        -- intros (k' & [->|Hin]%elem_of_cons & Hd); [lia|eauto].
        -- intros (k' & Hin & Hd). exists k'. split; [by right|done].
      * split.
        -- intros [|i] Hi.
           ++ by replace (day_number k - Z.of_nat 0) with (day_number k) by lia.
           ++ replace (day_number k - Z.of_nat (S i))
                with (day_number k1 - Z.of_nat i) by lia.
              apply Hrun. lia.
        -- replace (day_number k - Z.of_nat (S (count_current k1 ks 1)))
             with (day_number k1 - Z.of_nat (count_current k1 ks 1)) by lia.
           done.
    + split.
      * intros i Hi. by replace (day_number k - Z.of_nat i) with (day_number k) by lia.
      * intros HP. apply Hbelow in HP as (k' & Hin & Hd); [|lia].
        apply elem_of_cons in Hin as [->|Hin]; [lia|].
        destruct (proj1 (Forall_forall _ _) Hk1_rest k' Hin). lia.
Qed.

(** The loop for the longest streak, run on keys in strictly ascending
    order of day.  [temp] is the length of the run that ends with the key
    just visited, [longest] the length of the longest run up to it; the
    result is the length of the longest run of days in [P]. *)
Lemma scan_longest_max (P : Z → Prop) ks : ∀ k temp longest,
  Forall canonical (k :: ks) →
  StronglySorted (λ a b, day_number a ≤ day_number b
                         ∧ day_number a ≠ day_number b) (k :: ks) →
  (∀ x, day_number k < x → (P x ↔ ∃ k', k' ∈ ks ∧ day_number k' = x)) →
  (∀ i : nat, (i < temp)%nat → P (day_number k - Z.of_nat i)) →
  ¬ P (day_number k - Z.of_nat temp) →
  (1 ≤ temp ≤ longest)%nat →
  (∃ d, ∀ i : nat, (i < longest)%nat → P (d - Z.of_nat i)) →
  (∀ d n, d ≤ day_number k →
     (∀ i : nat, (i < n)%nat → P (d - Z.of_nat i)) → (n ≤ longest)%nat) →
  (∃ d, ∀ i : nat, (i < scan_longest k ks temp longest)%nat → P (d - Z.of_nat i)) ∧
  (∀ d n, (∀ i : nat, (i < n)%nat → P (d - Z.of_nat i)) →
          (n ≤ scan_longest k ks temp longest)%nat) ∧
  (longest ≤ scan_longest k ks temp longest)%nat.
Proof.
  induction ks as [|k1 ks IH]; intros k temp longest Hc Hs Habove Hrun Hstop Ht Hach Hbound.
  - simpl. split; [done|]. split; [|done]. intros d n Hn.
    destruct n as [|n]; [lia|].
    destruct (decide (d ≤ day_number k)) as [Hd|Hd]; [by apply (Hbound d)|].
    specialize (Hn 0%nat ltac:(lia)).
    replace (d - Z.of_nat 0) with d in Hn by lia.
    apply Habove in Hn as (k' & Hin & _); [|lia]. by apply elem_of_nil in Hin.
  - apply Forall_cons in Hc as [Ck Hc]. pose proof Hc as Hc1.
    apply Forall_cons in Hc1 as [Ck1 _].
    apply StronglySorted_cons in Hs as [Hk_all Hs].
    pose proof Hk_all as Hk1. apply Forall_cons in Hk1 as [[Hle Hne] Hk_rest].
    pose proof Hs as Hs1. apply StronglySorted_cons in Hs1 as [Hk1_rest _].
    assert (Hk1 : P (day_number k1)).
    { apply Habove; [lia|]. exists k1. split; [by left|done]. }
    assert (Habove1 : ∀ x, day_number k1 < x →
              (P x ↔ ∃ k', k' ∈ ks ∧ day_number k' = x)).
    { intros x Hx. rewrite Habove by lia. split.
      - intros (k' & [->|Hin]%elem_of_cons & Hd); [lia|eauto].
      - intros (k' & Hin & Hd). exists k'. split; [by right|done]. }
    assert (Hgap : ∀ x, day_number k < x < day_number k1 → ¬ P x).
    { intros x Hx HP. apply Habove in HP as (k' & Hin & Hd); [|lia].
      apply elem_of_cons in Hin as [->|Hin]; [lia|].
      destruct (proj1 (Forall_forall _ _) Hk1_rest k' Hin). lia. }
    assert (Hends : ∀ d n, d ≤ day_number k1 →
              (∀ i : nat, (i < S n)%nat → P (d - Z.of_nat i)) →
              d ≤ day_number k ∨ d = day_number k1).
    { intros d n Hd Hn. specialize (Hn 0%nat ltac:(lia)).
      replace (d - Z.of_nat 0) with d in Hn by lia.
      destruct (decide (d ≤ day_number k)); [by left|right].
      destruct (decide (d = day_number k1)); [done|].
      exfalso. apply (Hgap d); [lia|done]. }
    cbn [scan_longest].
    rewrite (diffDays_days k1 k _ _ (canonical_day _ Ck1) (canonical_day _ Ck)).
    unfold eq_int, gt_int.
    destruct (Z.eqb_spec (day_number k1 - day_number k) 1) as [E|E].
    + cut ((∃ d, ∀ i : nat,
               (i < scan_longest k1 ks (S temp) (Nat.max longest (S temp)))%nat →
               P (d - Z.of_nat i)) ∧
           (∀ d n, (∀ i : nat, (i < n)%nat → P (d - Z.of_nat i)) →
               (n ≤ scan_longest k1 ks (S temp) (Nat.max longest (S temp)))%nat) ∧
           (Nat.max longest (S temp)
              ≤ scan_longest k1 ks (S temp) (Nat.max longest (S temp)))%nat).
      { intros (? & ? & ?). split; [done|]. split; [done|lia]. }
      apply IH; try done.
      * intros [|i] Hi.
        -- by replace (day_number k1 - Z.of_nat 0) with (day_number k1) by lia.
        -- replace (day_number k1 - Z.of_nat (S i))
             with (day_number k - Z.of_nat i) by lia.
           apply Hrun. lia.
      * by replace (day_number k1 - Z.of_nat (S temp))
          with (day_number k - Z.of_nat temp) by lia.
      * lia.
      * destruct (Nat.max_spec longest (S temp)) as [[_ ->]|[_ ->]]; [|done].
        exists (day_number k1). intros [|i] Hi.
        -- by replace (day_number k1 - Z.of_nat 0) with (day_number k1) by lia.
        -- replace (day_number k1 - Z.of_nat (S i))
             with (day_number k - Z.of_nat i) by lia.
           apply Hrun. lia.
      * intros d [|n] Hd Hn; [lia|].
        destruct (Hends d n Hd Hn) as [Hd'| ->].
        -- pose proof (Hbound d (S n) Hd' Hn). lia.
        -- destruct (decide (S n ≤ S temp)%nat); [lia|].
           exfalso. apply Hstop.
           replace (day_number k - Z.of_nat temp)
             with (day_number k1 - Z.of_nat (S temp)) by lia.
           apply Hn. lia.
    + destruct (Z.ltb_spec 1 (day_number k1 - day_number k)) as [G|G]; [|lia].
      apply IH; try done.
      * intros i Hi.
        by replace (day_number k1 - Z.of_nat i) with (day_number k1) by lia.
      * apply Hgap. lia.
      * lia.
      * intros d [|n] Hd Hn; [lia|].
        destruct (Hends d n Hd Hn) as [Hd'| ->].
        -- by apply (Hbound d).
        -- destruct n as [|n]; [lia|]. exfalso.
           apply (Hgap (day_number k1 - 1)); [lia|].
           replace (day_number k1 - 1) with (day_number k1 - Z.of_nat 1) by lia.
           apply Hn. lia.
Qed.

End streak_facts.

Section streak_theorems.
Import DateKey.
Local Open Scope Z_scope.
Implicit Types (es : list (string * value)) (ks : list string) (k : string).

Lemma count_current_ge ks : ∀ k c, (c ≤ count_current k ks c)%nat.
Proof.
  induction ks as [|k1 ks IH]; intros k c; simpl; [done|].
  destruct (eq_int _ _); [|done]. specialize (IH k1 (S c)). lia.
Qed.

Lemma done_on_day_number es x :
  Forall canonical (doneDates es) →
  done_on es x ↔ ∃ k, k ∈ doneDates es ∧ day_number k = x.
Proof.
  intros Hc. split.
  - intros (k & Hin & Hd). exists k. split; [done|].
    unfold day_number. by rewrite Hd.
  - intros (k & Hin & <-). exists k. split; [done|].
    by apply canonical_day, (proj1 (Forall_forall _ _) Hc).
Qed.

(** The done dates, newest first: canonical, strictly descending, and the
    same dates. *)
Lemma newest_first_sorted es :
  well_keyed es →
  let sorted := sort newest_first (doneDates es) in
  sorted ≡ₚ doneDates es ∧ Forall canonical sorted ∧
  StronglySorted (λ a b, day_number b ≤ day_number a
                         ∧ day_number a ≠ day_number b) sorted.
Proof.
  intros [Hnd Hc] sorted.
  assert (Hp : sorted ≡ₚ doneDates es) by apply sort_Permutation.
  assert (Hcs : Forall canonical sorted) by (by rewrite Hp).
  split; [done|]. split; [done|].
  pose proof (sorted_strict (λ x y, y ≤ x) sorted Hcs) as Hstrict.
  cbv beta in Hstrict. apply Hstrict.
  - rewrite Hp. by apply doneDates_NoDup.
  - by apply sort_newest_first_sorted.
Qed.

Lemma oldest_first_sorted es :
  well_keyed es →
  let sorted := sort oldest_first (doneDates es) in
  sorted ≡ₚ doneDates es ∧ Forall canonical sorted ∧
  StronglySorted (λ a b, day_number a ≤ day_number b
                         ∧ day_number a ≠ day_number b) sorted.
Proof.
  intros [Hnd Hc] sorted.
  assert (Hp : sorted ≡ₚ doneDates es) by apply sort_Permutation.
  assert (Hcs : Forall canonical sorted) by (by rewrite Hp).
  split; [done|]. split; [done|].
  pose proof (sorted_strict (λ x y, x ≤ y) sorted Hcs) as Hstrict.
  cbv beta in Hstrict. apply Hstrict.
  - rewrite Hp. by apply doneDates_NoDup.
  - by apply sort_oldest_first_sorted.
Qed.

Lemma streak_of_unfold today yesterday es :
  streak_of today yesterday es =
    match doneDates es with
    | [] => {| current := 0; longest := 0 |}
    | _ =>
        {| current :=
             match sort newest_first (doneDates es) with
             | first :: rest =>
                 if String.eqb first today || String.eqb first yesterday
                 then count_current first rest 1
                 else 0%nat
             | [] => 0%nat
             end;
           longest :=
             match sort oldest_first (doneDates es) with
             | first :: rest => scan_longest first rest 1 1
             | [] => 1%nat
             end |}
    end.
Proof. unfold streak_of. by destruct (doneDates es). Qed.

Lemma calculateStreak_object today yesterday st habitId es :
  get (completions st) habitId = Ok (VObj es) →
  calculateStreak today yesterday st habitId = Ok (streak_of today yesterday es).
Proof. intros H. unfold calculateStreak, mbind, res_mbind, res_bind. by rewrite H. Qed.

Lemma doneDates_skipped es k :
  doneDates (es ++ [(k, VStr "skipped")]) = doneDates es.
Proof.
  unfold doneDates. rewrite filter_app, fmap_app.
  rewrite filter_cons, decide_False by done. by rewrite app_nil_r.
Qed.
End streak_theorems.

Section streak_claims.
Import DateKey.
Local Open Scope Z_scope.

(** C3.  For the per-date record of a habit: longest is the length of the
    longest run of consecutive calendar days that are all done (some run
    has that length and no run is longer), which is at least 1 when there
    is a done date and 0 when there is none; and on the record
    2024-01-01 done, 2024-01-02 done, 2024-01-03 skipped, 2024-01-04 done,
    with today 2024-01-04, calculateStreak returns current 1 and
    longest 2. *)
Theorem longest_streak_is_longest_run
    (today yesterday : string) (es : list (string * value)) :
  well_keyed es →
  let s := streak_of today yesterday es in
  (∀ st habitId, get (completions st) habitId = Ok (VObj es) →
     calculateStreak today yesterday st habitId = Ok s) ∧
  (∃ d, run_back_to es d (longest s)) ∧
  (∀ d n, run_back_to es d n → (n ≤ longest s)%nat) ∧
  (doneDates es ≠ [] → (1 ≤ longest s)%nat) ∧
  (doneDates es = [] → longest s = 0%nat) ∧
  calculateStreak "2024-01-04" "2024-01-03" st_example "h1"
    = Ok {| current := 1; longest := 2 |}.
Proof.
  intros Hwk s.
  split; [intros; by apply calculateStreak_object|].
  cut (((∃ d, run_back_to es d (longest s)) ∧
        (∀ d n, run_back_to es d n → (n ≤ longest s)%nat)) ∧
       (doneDates es ≠ [] → (1 ≤ longest s)%nat) ∧
       (doneDates es = [] → longest s = 0%nat)).
  { intros ([? ?] & ? & ?). repeat split; try done. }
  pose proof (proj2 Hwk) as Hcan.
  destruct (doneDates es) as [|k0 ks0] eqn:Hdates.
  { assert (Hl : longest s = 0%nat)
      by (unfold s; by rewrite streak_of_unfold, Hdates).
    rewrite Hl. split; [|done]. split; [by exists 0; intros i ?; lia|].
    intros d [|n] Hn; [done|].
    destruct (Hn 0%nat ltac:(lia)) as (k & Hin & _).
    rewrite Hdates in Hin. by apply elem_of_nil in Hin. }
  destruct (oldest_first_sorted es Hwk) as (Hp & Hc & Hs).
  destruct (sort oldest_first (doneDates es)) as [|first rest] eqn:Hsort.
  { rewrite Hdates in Hp. by apply Permutation_nil_cons in Hp. }
  assert (Hl : longest s = scan_longest first rest 1 1).
  { unfold s. by rewrite streak_of_unfold, Hdates, <- Hdates, Hsort. }
  rewrite Hl. rewrite <- Hdates in Hcan.
  pose proof Hc as Hc'. apply Forall_cons in Hc' as [Cf _].
  pose proof Hs as Hs'. apply StronglySorted_cons in Hs' as [Hall _].
  assert (Hlow : ∀ x, x < day_number first → ¬ done_on es x).
  { intros x Hx. rewrite done_on_day_number by done.
    intros (k & Hk & Hdk). rewrite <- Hp in Hk.
    apply elem_of_cons in Hk as [->|Hk]; [lia|].
    destruct (proj1 (Forall_forall _ _) Hall k Hk). lia. }
  assert (Hfirst : done_on es (day_number first)).
  { exists first. split; [rewrite <- Hp; by left|by apply canonical_day]. }
  destruct (scan_longest_max (done_on es) rest first 1 1 Hc Hs)
    as (Hach & Hbound & Hge).
  - intros x Hx. rewrite done_on_day_number by done. split.
    + intros (k' & Hk' & Hdk). rewrite <- Hp in Hk'.
      apply elem_of_cons in Hk' as [->|?]; [lia|eauto].
    + intros (k' & Hk' & Hdk). exists k'. split; [|done].
      rewrite <- Hp. by right.
  - intros i Hi. by replace (day_number first - Z.of_nat i) with (day_number first) by lia.
  - apply Hlow. lia.
  - lia.
  - exists (day_number first). intros i Hi.
    by replace (day_number first - Z.of_nat i) with (day_number first) by lia.
  - intros d [|[|n]] Hd Hn; [lia..|]. exfalso.
    apply (Hlow (d - 1)); [lia|].
    replace (d - 1) with (d - Z.of_nat 1) by lia. apply Hn. lia.
  - split; [by split|]. split; [intros _; lia|done].
Qed.
End streak_claims.

Section streak_examples.
Local Open Scope Z_scope.

(** A record with a done date has a most recent one. *)
Lemma most_recent_exists es :
  well_keyed es → doneDates es ≠ [] → ∃ key d, most_recent es key d.
Proof.
  intros Hwk Hne. destruct (newest_first_sorted es Hwk) as (Hp & Hc & Hs).
  destruct (sort newest_first (doneDates es)) as [|first rest].
  { apply Permutation_nil in Hp. done. }
  apply Forall_cons in Hc as [Cf Hc].
  apply StronglySorted_cons in Hs as [Hall _].
  exists first, (day_number first).
  split; [rewrite <- Hp; by left|]. split; [by apply canonical_day|].
  intros d' (k & Hin & Hd). rewrite <- Hp in Hin.
  assert (day_number k = d') as <- by (unfold day_number; by rewrite Hd).
  apply elem_of_cons in Hin as [->|Hin]; [done|].
  by destruct (proj1 (Forall_forall _ _) Hall k Hin).
Qed.

Lemma example_record_well_keyed : well_keyed example_record.
Proof.
  split.
  - apply (bool_decide_unpack _). by vm_compute.
  - repeat constructor; by eexists.
Qed.

Lemma longest_streak_is_longest_run_witness :
  (∃ d, run_back_to example_record d 2) ∧
  (∀ d n, run_back_to example_record d n → (n ≤ 2)%nat).
Proof.
  destruct (longest_streak_is_longest_run
              "2024-01-04" "2024-01-03" example_record example_record_well_keyed)
    as (_ & H1 & H2 & _).
  split; [exact H1|exact H2].
Defined.
End streak_examples.

(** *** Reordering *)

Section reorder.
Implicit Types (hs pre rest : list value) (st : State).

Lemma with_order_object i h : is_object h → is_object (with_order i h).
Proof. intros [ps ->]. unfold with_order. simpl. by eexists. Qed.

Lemma with_order_reads_back i h :
  is_object h → get (with_order i h) "order" = Ok (VNum (Int (Z.of_nat i))).
Proof.
  intros [ps ->]. unfold with_order. simpl. by rewrite assoc_get_set_eq.
Qed.

Lemma with_order_keeps i h k :
  is_object h → k ≠ "order" → get (with_order i h) k = get h k.
Proof.
  intros [ps ->] Hk. unfold with_order. simpl.
  by rewrite assoc_get_set_ne.
Qed.

Lemma set_order_object i h :
  is_object h → set h "order" (VNum (Int (Z.of_nat i))) = Ok (with_order i h).
Proof. intros [ps ->]. done. Qed.

Lemma assign_order_objects rest : ∀ pre st,
  habits st = pre ++ rest → Forall is_object rest →
  assign_order (length pre) rest st =
    (Ok (), with_habits st (pre ++ imap (λ i, with_order (length pre + i)) rest)).
Proof.
  induction rest as [|h rest IH]; intros pre st Hhs Hall.
  - cbn [assign_order imap]. unfold with_habits. rewrite <- Hhs. by destruct st.
  - apply Forall_cons in Hall as [Hh Hall].
    cbn [assign_order]. unfold mbind, M_bind, bind, lift, read_habits, write_habits.
    rewrite (set_order_object _ _ Hh). cbn [fst snd].
    rewrite Hhs, insert_app_r_alt by lia.
    replace (length pre - length pre)%nat with 0%nat by lia.
    change (<[0%nat:=?x]> (h :: rest)) with (x :: rest).
    specialize (IH (pre ++ [with_order (length pre) h])
      {| habits := pre ++ with_order (length pre) h :: rest;
         completions := completions st; confirmCallback := confirmCallback st |}).
    rewrite length_app in IH. cbn [length] in IH.
    replace (length pre + 1)%nat with (S (length pre)) in IH by lia.
    rewrite IH; [|by rewrite <- app_assoc|done].
    unfold with_habits. cbn [habits completions confirmCallback].
    assert (E : (pre ++ [with_order (length pre) h])
                  ++ imap (λ i, with_order (S (length pre) + i)) rest
                = pre ++ imap (λ i, with_order (length pre + i)) (h :: rest)).
    { rewrite <- app_assoc. cbn [app imap]. f_equal.
      f_equal; [f_equal; lia|].
      apply imap_ext. intros i x _. simpl. f_equal. lia. }
    by rewrite E.
Qed.

Lemma moved_Permutation hs fromIndex toIndex x :
  hs !! fromIndex = Some x → moved hs fromIndex toIndex ≡ₚ hs.
Proof.
  intros Hx. unfold moved. rewrite Hx. simpl.
  rewrite <- Permutation_middle, take_drop.
  symmetry. by apply delete_Permutation.
Qed.

(** In range and on habit objects, reorderHabits finishes and leaves
    the moved list with every order set to the position. *)
Lemma reorderHabits_objects st fromIndex toIndex :
  Forall is_object (habits st) → (fromIndex < length (habits st))%nat →
  reorderHabits fromIndex toIndex st =
    (Ok (), with_habits st (imap with_order (moved (habits st) fromIndex toIndex))).
Proof.
  intros Hall Hlt.
  destruct (lookup_lt_is_Some_2 _ _ Hlt) as [x Hx].
  unfold reorderHabits, mbind, M_bind, bind, read_habits, write_habits.
  cbn [fst snd].
  pose proof (assign_order_objects (moved (habits st) fromIndex toIndex) []
    {| habits := moved (habits st) fromIndex toIndex;
       completions := completions st; confirmCallback := confirmCallback st |}
    eq_refl) as Ha.
  cbn [length app] in Ha.
  change (take toIndex (delete fromIndex (habits st))
            ++ of_option (habits st !! fromIndex)
                 :: drop toIndex (delete fromIndex (habits st)))
    with (moved (habits st) fromIndex toIndex).
  rewrite Ha; [done|].
  rewrite <- (moved_Permutation (habits st) fromIndex toIndex x Hx) in Hall.
  exact Hall.
Qed.

(** The result is a rearrangement of the original list, up to the order
    fields, and every order equals the position. *)
Lemma reorderHabits_permutation_and_orders st fromIndex toIndex :
  Forall is_object (habits st) → (fromIndex < length (habits st))%nat →
  let st' := exec (reorderHabits fromIndex toIndex) st in
  outcome (reorderHabits fromIndex toIndex) st = Ok () ∧
  (∃ p, p ≡ₚ habits st ∧ habits st' = imap with_order p) ∧
  length (habits st') = length (habits st) ∧
  (∀ i h, habits st' !! i = Some h →
     get h "order" = Ok (VNum (Int (Z.of_nat i)))) ∧
  (id_of <$> habits st') ≡ₚ (id_of <$> habits st).
Proof.
  intros Hall Hlt st'.
  destruct (lookup_lt_is_Some_2 _ _ Hlt) as [x Hx].
  pose proof (moved_Permutation (habits st) fromIndex toIndex x Hx) as Hp.
  assert (Hobj : Forall is_object (moved (habits st) fromIndex toIndex))
    by (by rewrite Hp).
  assert (Hst : habits st' = imap with_order (moved (habits st) fromIndex toIndex)).
  { unfold st', exec. by rewrite (reorderHabits_objects st _ _ Hall Hlt). }
  split; [unfold outcome; by rewrite (reorderHabits_objects st _ _ Hall Hlt)|].
  split; [by eexists|].
  split; [by rewrite Hst, length_imap, Hp|].
  split.
  - intros i h. rewrite Hst, list_lookup_imap.
    destruct (moved (habits st) fromIndex toIndex !! i) as [y|] eqn:Hy; [|done].
    intros [= <-]. apply with_order_reads_back.
    by apply (proj1 (Forall_forall _ _) Hobj), list_elem_of_lookup_2 with i.
  - rewrite Hst. etransitivity; [|by apply fmap_Permutation, Hp].
    assert (E : ∀ (l : list value) (f : nat → nat), Forall is_object l →
      id_of <$> imap (λ i, with_order (f i)) l = id_of <$> l).
    { induction l as [|y l IH]; intros f Hl; [done|].
      apply Forall_cons in Hl as [Hy Hl]. cbn [imap fmap list_fmap].
      f_equal; [|by apply (IH (f ∘ S))].
      unfold id_of, get_opt. by rewrite with_order_keeps. }
    pose proof (E _ (λ i, i) Hobj) as E'. cbv beta in E'.
    change (λ i : nat, with_order i) with with_order in E'. by rewrite E'.
Qed.

(** When the array is already in the order renderHabits shows, the move is
    the one the specification describes. *)
Lemma reorderHabits_agrees_when_sorted st fromIndex toIndex :
  Forall is_object (habits st) → (fromIndex < length (habits st))%nat →
  sortedHabits (habits st) = habits st →
  habits (exec (reorderHabits fromIndex toIndex) st)
    = reorder_spec (habits st) fromIndex toIndex.
Proof.
  intros Hall Hlt Hs. unfold exec, reorder_spec.
  rewrite (reorderHabits_objects st _ _ Hall Hlt), Hs. done.
Qed.
End reorder.

(** C4.  The habit list [a (order 5); b (order 1)] is shown as b, a.
    reorderHabits 0 1 takes out entry 0 of the array, which is a, and
    leaves b, a with orders 0 and 1; moving the habit at position 0 of the
    list as sorted by order, which is b, to position 1 gives a, b. *)
Theorem reorderHabits_moves_array_entry :
  sortedHabits (habits st_unsorted) = [habit_b 1; habit_a 5] ∧
  reorderHabits 0 1 st_unsorted
    = (Ok (), with_habits st_unsorted [habit_b 0; habit_a 1]) ∧
  reorder_spec (habits st_unsorted) 0 1 = [habit_a 0; habit_b 1] ∧
  habits (exec (reorderHabits 0 1) st_unsorted)
    ≠ reorder_spec (habits st_unsorted) 0 1.
Proof. repeat split; done. Qed.

(** *** The checks of importData *)


Lemma nonempty_string_test v :
  negb (truthy v) || negb (String.eqb (typeof v) "string") = false ↔
  ∃ s, v = VStr s ∧ s ≠ "".
Proof.
  destruct v as [| |b|n|s|items named|ps]; simpl;
    try (split; [try done; by destruct b|intros (s' & ? & _); done]).
  - destruct n; simpl; [split; [done|intros (s' & ? & _); done]|].
    rewrite orb_true_r. split; [done|intros (s' & ? & _); done].
  - rewrite orb_false_r, negb_false_iff, negb_true_iff.
    split.
    + intros H. exists s. split; [done|]. by apply String.eqb_neq.
    + intros (s' & [= <-] & Hne). by apply String.eqb_neq.
Qed.

Lemma check_habit_ok h :
  check_habit h = Ok () ↔ nonempty_string_at h "id" ∧ nonempty_string_at h "name".
Proof.
  unfold check_habit, nonempty_string_at. unfold mbind, res_mbind, res_bind.
  destruct (get h "id") as [i|e] eqn:Hi.
  2:{ split; [done|]. intros [(s & ? & _) _]. done. }
  destruct (negb (truthy i) || negb (String.eqb (typeof i) "string")) eqn:Ti.
  { split; [done|]. intros [(s & [= ->] & Hs) _].
    assert (negb (truthy (VStr s)) || negb (String.eqb (typeof (VStr s)) "string") = false)
      by (apply nonempty_string_test; eauto).
    congruence. }
  apply nonempty_string_test in Ti as (s & -> & Hs).
  destruct (get h "name") as [n|e] eqn:Hn.
  2:{ split; [done|]. intros [_ (s' & ? & _)]. done. }
  destruct (negb (truthy n) || negb (String.eqb (typeof n) "string")) eqn:Tn.
  { split; [done|]. intros [_ (s' & [= ->] & Hs')].
    assert (negb (truthy (VStr s')) || negb (String.eqb (typeof (VStr s')) "string") = false)
      by (apply nonempty_string_test; eauto).
    congruence. }
  apply nonempty_string_test in Tn as (s' & -> & Hs').
  split; [|done]. intros _. split; eauto.
Qed.

Lemma check_habits_ok items :
  check_habits items = Ok () ↔
  ∀ h, h ∈ items → nonempty_string_at h "id" ∧ nonempty_string_at h "name".
Proof.
  induction items as [|h items IH]; simpl.
  - split; [intros _ h Hin; by apply elem_of_nil in Hin|done].
  - unfold mbind, res_mbind, res_bind.
    destruct (check_habit h) as [[]|e] eqn:Hh.
    + rewrite IH. split.
      * intros Hall h' [->|Hin]%elem_of_cons; [by apply check_habit_ok|by apply Hall].
      * intros Hall h' Hin. apply Hall. by right.
    + split; [done|]. intros Hall.
      assert (check_habit h = Ok ()) by (apply check_habit_ok, Hall; by left).
      congruence.
Qed.




(** *** Import: when it fails, and what a failure leaves behind *)






(** *** The window never ends after today *)

Section nav_facts.
Local Open Scope Z_scope.
Variable tz : Z.

Lemma msPerDay_pos : 0 < DateKey.msPerDay.
Proof. done. Qed.

Lemma startOfDay_le t : Nav.startOfDay tz t ≤ t.
Proof.
  unfold Nav.startOfDay.
  pose proof (Z.mul_div_le (t + tz) DateKey.msPerDay msPerDay_pos). lia.
Qed.

Lemma localDay_startOfDay t :
  Nav.localDay tz (Nav.startOfDay tz t) = Nav.localDay tz t.
Proof.
  unfold Nav.localDay, Nav.startOfDay.
  replace (_ - tz + tz) with ((t + tz) `div` DateKey.msPerDay * DateKey.msPerDay) by lia.
  by rewrite Z.div_mul.
Qed.

Lemma localDay_mono a b : a ≤ b → Nav.localDay tz a ≤ Nav.localDay tz b.
Proof. intros. unfold Nav.localDay. apply Z.div_le_mono; [done|lia]. Qed.

Lemma startOfDay_le_same_day v t :
  Nav.localDay tz v = Nav.localDay tz t → Nav.startOfDay tz t ≤ v.
Proof.
  unfold Nav.localDay, Nav.startOfDay. intros <-.
  pose proof (Z.mul_div_le (v + tz) DateKey.msPerDay msPerDay_pos). lia.
Qed.

Lemma nextWeek_click_cases now v :
  (Nav.addDays v 14 ≤ Nav.startOfDay tz now →
     Nav.nextWeek_click tz now v = Nav.addDays v 14) ∧
  (Nav.startOfDay tz now < Nav.addDays v 14 →
     Nav.nextWeek_click tz now v = Nav.startOfDay tz now) ∧
  Nav.nextWeek_click tz now v ≤ Nav.startOfDay tz now.
Proof.
  unfold Nav.nextWeek_click.
  destruct (Z.leb_spec (Nav.addDays v 14) (Nav.startOfDay tz now)); lia.
Qed.

Lemma step_le now c v : v ≤ now → Nav.step tz now c v ≤ now.
Proof.
  intros Hv. destruct c; simpl.
  - unfold Nav.prevWeek_click, Nav.addDays. pose proof msPerDay_pos. lia.
  - pose proof (nextWeek_click_cases now v) as (_ & _ & ?).
    pose proof (startOfDay_le now). lia.
  - unfold Nav.todayBtn_click. lia.
Qed.

Lemma run_le session : ∀ t v,
  v ≤ t → Nav.clock_ok t session →
  Nav.run tz v session ≤ Nav.clock_at_end t session.
Proof.
  induction session as [|[now c] rest IH]; intros t v Hv Hck; [done|].
  destruct Hck as [Ht Hck]. simpl. apply IH; [|done]. apply step_le. lia.
Qed.

Lemma nextWeek_click_today now v :
  Nav.localDay tz v = Nav.localDay tz now →
  Nav.nextWeek_click tz now v = Nav.startOfDay tz now.
Proof.
  intros Hd. apply startOfDay_le_same_day in Hd.
  apply nextWeek_click_cases. unfold Nav.addDays. pose proof msPerDay_pos. lia.
Qed.

Lemma localDay_addDays v n : Nav.localDay tz (Nav.addDays v n) = Nav.localDay tz v + n.
Proof.
  unfold Nav.localDay, Nav.addDays.
  replace (v + n * DateKey.msPerDay + tz) with (v + tz + n * DateKey.msPerDay) by lia.
  by rewrite Z.div_add.
Qed.

(** In days: a click on next shows the day 14 days on, or today if that
    comes first. *)
Lemma nextWeek_click_day now v :
  Nav.localDay tz (Nav.nextWeek_click tz now v)
    = Z.min (Nav.localDay tz v + 14) (Nav.localDay tz now).
Proof.
  rewrite <- localDay_addDays, <- (localDay_startOfDay now).
  destruct (nextWeek_click_cases now v) as (Hadd & Hclamp & _).
  destruct (Z.le_gt_cases (Nav.addDays v 14) (Nav.startOfDay tz now)) as [Hle|Hgt].
  - rewrite (Hadd Hle). pose proof (localDay_mono _ _ Hle). lia.
  - rewrite (Hclamp Hgt).
    pose proof (localDay_mono (Nav.startOfDay tz now) (Nav.addDays v 14)). lia.
Qed.

Lemma pageForward_repeatedly_today (readings : list Z) : ∀ v day,
  Nav.localDay tz v = day →
  Forall (λ now, Nav.localDay tz now = day) readings →
  Nav.localDay tz (pageForward_repeatedly tz readings v) = day.
Proof.
  induction readings as [|now readings IH]; intros v day Hv Hall; [done|].
  apply Forall_cons in Hall as [Hnow Hall]. simpl. apply IH; [|done].
  rewrite nextWeek_click_today by congruence. by rewrite localDay_startOfDay.
Qed.
End nav_facts.

(** C6.  Through a session of clicks on the previous, next and today
    buttons, begun at load and read off a clock that does not run backward,
    viewEndDate is never after the current time, and so its day is never
    after today.  A click on next adds 14 days when that does not pass
    today's midnight and sets today's midnight otherwise, so the day shown
    is the day 14 days on or today, whichever comes first; from a
    viewEndDate that is today, any number of clicks on next made today
    leave it today. *)
Theorem viewEndDate_never_past_today (tz t0 : Z) (session : list (Z * Nav.click)) :
  Nav.clock_ok t0 session →
  let now := Nav.clock_at_end t0 session in
  let viewEndDate := Nav.run tz (Nav.init t0) session in
  (viewEndDate ≤ now)%Z ∧
  (Nav.localDay tz viewEndDate ≤ Nav.localDay tz now)%Z ∧
  (∀ now' v,
     (Nav.addDays v 14 ≤ Nav.startOfDay tz now' →
        Nav.nextWeek_click tz now' v = Nav.addDays v 14)%Z ∧
     (Nav.startOfDay tz now' < Nav.addDays v 14 →
        Nav.nextWeek_click tz now' v = Nav.startOfDay tz now')%Z ∧
     (Nav.nextWeek_click tz now' v ≤ Nav.startOfDay tz now')%Z ∧
     Nav.localDay tz (Nav.nextWeek_click tz now' v)
       = Z.min (Nav.localDay tz v + 14) (Nav.localDay tz now')) ∧
  (∀ readings v day,
     Nav.localDay tz v = day →
     Forall (λ now', Nav.localDay tz now' = day) readings →
     Nav.localDay tz (pageForward_repeatedly tz readings v) = day).
Proof.
  intros Hck now v.
  assert (v ≤ now)%Z by (apply run_le; [unfold Nav.init; lia|done]).
  split; [done|]. split; [by apply localDay_mono|].
  split.
  - intros now' v'. destruct (nextWeek_click_cases tz now' v') as (? & ? & ?).
    repeat split; try done. apply nextWeek_click_day.
  - intros. by apply pageForward_repeatedly_today.
Qed.

Lemma viewEndDate_never_past_today_witness :
  (Nav.run 0 (Nav.init 1717236000000) session_three_clicks ≤ 1717336800000)%Z.
Proof.
  apply (viewEndDate_never_past_today 0 1717236000000 session_three_clicks).
  simpl. lia.
Defined.

(** *** What the operations keep of the completion map *)

Section table_facts.
Context (P : value → Prop).
Implicit Types (k : string) (v : value) (ps : props).

Lemma Forall_assoc_set k v ps :
  P v → Forall (λ kv, P kv.2) ps → Forall (λ kv, P kv.2) (assoc_set k v ps).
Proof.
  intros Hv. induction 1 as [|[k' v'] ps Hx Hps IH]; simpl.
  - by repeat constructor.
  - destruct (String.eqb k k'); constructor; done.
Qed.

Lemma Forall_assoc_del k ps :
  Forall (λ kv, P kv.2) ps → Forall (λ kv, P kv.2) (assoc_del k ps).
Proof.
  induction 1 as [|[k' v'] ps Hx Hps IH]; simpl; [done|].
  destruct (String.eqb k k'); [done|by constructor].
Qed.

Lemma Forall_assoc_get k v ps :
  Forall (λ kv, P kv.2) ps → assoc_get k ps = Some v → P v.
Proof.
  induction 1 as [|[k' v'] ps Hx Hps IH]; simpl; [done|].
  destruct (String.eqb k k'); [by intros [= <-]|done].
Qed.
End table_facts.

Lemma completions_ok_only_done_or_skipped c :
  completions_ok c → only_done_or_skipped c.
Proof.
  intros (m & -> & Hm) es id r rs d v [= <-] Hin Hr Hd.
  eapply Forall_forall in Hm; [|done]. simpl in Hm. destruct Hm as (ps & -> & Hps).
  injection Hr as <-. eapply Forall_forall in Hps; [|done]. done.
Qed.

Lemma toggle_record_ok ps d :
  Forall (λ kv, state_value_ok kv.2) ps →
  Forall (λ kv, state_value_ok kv.2) (toggle_record ps d).
Proof.
  intros Hps. unfold toggle_record.
  destruct (negb _); [apply Forall_assoc_set; [by left|done]|].
  destruct (is_str _ _); [apply Forall_assoc_set; [by right|done]|].
  by apply Forall_assoc_del.
Qed.

Lemma completions_ok_object_or_absent m id :
  Forall (λ kv, record_ok kv.2) m → object_or_absent m id.
Proof.
  intros Hm. destruct (assoc_get id m) as [r|] eqn:Hg; [|by left].
  right. destruct (Forall_assoc_get record_ok _ _ _ Hm Hg) as (ps & -> & _). eauto.
Qed.

Lemma record_of_ok m id :
  Forall (λ kv, record_ok kv.2) m →
  Forall (λ kv, state_value_ok kv.2) (record_of m id).
Proof.
  intros Hm. unfold record_of. destruct (assoc_get id m) as [r|] eqn:Hg; [|done].
  by destruct (Forall_assoc_get record_ok _ _ _ Hm Hg) as (ps & -> & ?).
Qed.

Lemma toggleCompletion_keeps_ok st id d :
  completions_ok (completions st) →
  outcome (toggleCompletion id d) st = Ok () ∧
  completions_ok (completions (exec (toggleCompletion id d) st)).
Proof.
  intros (m & Hc & Hm).
  pose proof (completions_ok_object_or_absent m id Hm) as Hr.
  unfold outcome, exec. rewrite (toggle_object st m id d Hc Hr). simpl.
  split; [done|]. eexists. split; [done|].
  apply Forall_assoc_set; [|done].
  eexists. split; [done|]. by apply toggle_record_ok, record_of_ok.
Qed.

Lemma addHabit_keeps_ok st name id createdAt :
  completions_ok (completions st) →
  completions_ok (completions (exec (addHabit name id createdAt) st)).
Proof.
  intros (m & Hc & Hm). unfold exec, addHabit.
  unfold mbind, M_bind, bind, lift, read_habits, read_completions,
    write_habits, write_completions. simpl.
  destruct (maxOrder (habits st) (Int 0)) as [n|e]; simpl.
  - rewrite Hc. simpl. eexists. split; [done|].
    apply Forall_assoc_set; [|done]. eexists. split; [done|]. constructor.
  - rewrite Hc. by exists m.
Qed.

Lemma onConfirmDelete_keeps_ok st id :
  completions_ok (completions st) →
  completions_ok (completions (exec (onConfirm (OnConfirmDelete id)) st)).
Proof.
  intros (m & Hc & Hm). unfold exec, onConfirm.
  unfold mbind, M_bind, bind, lift, read_habits, read_completions,
    write_habits, write_completions. simpl.
  destruct (filter_out id (habits st)) as [hs|e]; simpl.
  - rewrite Hc. simpl. eexists. split; [done|]. by apply Forall_assoc_del.
  - rewrite Hc. by exists m.
Qed.

Section migration.
Implicit Types (k : string) (v : value) (m : props).

Lemma map_at_keys k f m : (map_at k f m).*1 = m.*1.
Proof.
  unfold map_at. rewrite <- list_fmap_compose. apply list_fmap_ext.
  intros i [k' v'] _. simpl. by destruct (String.eqb k k').
Qed.

Lemma map_at_absent k f m : k ∉ m.*1 → map_at k f m = m.
Proof.
  unfold map_at. induction m as [|[k' v'] m IH]; [done|].
  rewrite !fmap_cons, not_elem_of_cons. simpl. intros [Hne Hnin].
  rewrite eqb_ne_false by done. by rewrite IH.
Qed.

Lemma assoc_set_map_at k f m r :
  NoDup m.*1 → assoc_get k m = Some r → assoc_set k (f r) m = map_at k f m.
Proof.
  induction m as [|[k' v'] m IH]; [done|].
  unfold map_at. rewrite !fmap_cons, NoDup_cons. simpl. intros [Hnin Hnd].
  destruct (String.eqb_spec k k') as [->|Hne].
  - intros [= ->]. f_equal. symmetry. by apply (map_at_absent k' f).
  - intros Hg. f_equal. by apply IH.
Qed.

Lemma assoc_set_id k r m : assoc_get k m = Some r → assoc_set k r m = m.
Proof.
  induction m as [|[k' v'] m IH]; simpl; [done|].
  destruct (String.eqb_spec k k') as [->|Hne]; [by intros [= ->]|].
  intros Hg. by rewrite IH.
Qed.

Lemma migrate_key_object k m :
  NoDup m.*1 → migrate_key (VObj m) k = VObj (map_at k migrate_record m).
Proof.
  intros Hnd. unfold migrate_key, get_opt. simpl.
  destruct (assoc_get k m) as [r|] eqn:Hg; simpl.
  - rewrite <- (assoc_set_map_at k migrate_record m r Hnd Hg).
    destruct r; simpl; try done; by rewrite assoc_set_id.
  - rewrite map_at_absent; [done|]. by apply assoc_get_None_keys.
Qed.

Lemma migrated_dates_ok (oldDates : list value) (acc : props) :
  Forall (λ kv, state_value_ok kv.2) acc →
  Forall (λ kv, state_value_ok kv.2)
    (fold_left (λ r date, assoc_set (to_string date) (VStr "done") r) oldDates acc).
Proof.
  revert acc. induction oldDates as [|date l IH]; intros acc Hacc; simpl; [done|].
  apply IH. apply (Forall_assoc_set state_value_ok); [by left|done].
Qed.

Lemma migrate_record_ok r :
  record_ok r ∨ isArray r = true → record_ok (migrate_record r).
Proof.
  intros [(ps & -> & Hps)|Harr].
  - by exists ps.
  - destruct r; try done. simpl. eexists. split; [done|].
    by apply migrated_dates_ok.
Qed.

Lemma migration_fold_ok (ks : list string) : ∀ m,
  NoDup m.*1 →
  Forall (λ kv, record_ok kv.2 ∨ (isArray kv.2 = true ∧ kv.1 ∈ ks)) m →
  ∃ m', fold_left migrate_key ks (VObj m) = VObj m' ∧
        Forall (λ kv, record_ok kv.2) m'.
Proof.
  induction ks as [|k ks IH]; intros m Hnd Hm; simpl.
  - exists m. split; [done|]. eapply Forall_impl; [done|].
    intros kv [?|[_ Hin]]; [done|]. by apply elem_of_nil in Hin.
  - rewrite migrate_key_object by done. apply IH.
    + by rewrite map_at_keys.
    + unfold map_at. apply Forall_fmap. eapply Forall_impl; [done|].
      intros [k' r] Hkv. simpl in *.
      destruct (String.eqb_spec k k') as [->|Hne]; simpl.
      * left. apply migrate_record_ok. destruct Hkv as [?|[? _]]; [by left|by right].
      * destruct Hkv as [?|[? Hin]]; [by left|right].
        split; [done|]. apply elem_of_cons in Hin as [->|?]; done.
Qed.

Lemma loadData_establishes_ok stored_habits stored_completions st :
  stored_ok stored_completions →
  outcome (loadData stored_habits stored_completions) st = Ok () ∧
  completions_ok (completions (exec (loadData stored_habits stored_completions) st)).
Proof.
  intros Hs. unfold outcome, exec, loadData.
  unfold mbind, M_bind, bind, lift, write_habits, write_completions. simpl.
  destruct Hs as [->|(m & -> & Hnd & Hm)]; simpl.
  - split; [done|]. by exists [].
  - change (or_else (VObj m) (VObj [])) with (VObj m).
    destruct (migration_fold_ok m.*1 m Hnd) as (m' & -> & Hm').
    + apply Forall_forall. intros [k r] Hin.
      destruct (proj1 (Forall_forall _ _) Hm _ Hin) as [?|?]; [by left|right].
      split; [done|]. simpl. by apply (list_elem_of_fmap_2 fst m (k, r)).
    + split; [done|]. by exists m'.
Qed.
End migration.

(** *** The invariant of the completion map *)

Lemma validate_ok_fields t data :
  validate t = Ok data →
  ∃ items named c,
    get data "habits" = Ok (VArr items named) ∧ get data "completions" = Ok c.
Proof.
  unfold validate, mbind, res_mbind, res_bind.
  destruct (parse t) as [data'|]; [|done].
  destruct (get data' "habits") as [hs|] eqn:Hh; [|done].
  destruct hs as [| |b|n|s|items named|ps]; simpl;
    try (by rewrite ?orb_true_r).
  destruct (check_habits items); [|done].
  destruct (get data' "completions") as [c|] eqn:Hc; [|done].
  destruct (truthy c && _); [done|]. intros [= <-]. eauto.
Qed.

Lemma onConfirmImport_stores data items named c st :
  get data "habits" = Ok (VArr items named) → get data "completions" = Ok c →
  onConfirm (OnConfirmImport data) st =
    (Ok (), {| habits := items; completions := or_else c (VObj []);
               confirmCallback := confirmCallback st |}).
Proof.
  intros Hh Hc. unfold onConfirm.
  unfold mbind, M_bind, bind, lift, write_habits, write_completions.
  by rewrite Hh, Hc.
Qed.

(** C7, as amended.  From a completion map whose records are objects
    holding only done and skipped: toggleCompletion, addHabit, the delete
    callback and the migration in loadData keep it so, and a cleared cell
    loses its key.  The import callback stores the completions of the file
    as they are, so after it the invariant holds exactly when it holds of
    the file. *)
Theorem completions_invariant_preserved (st : State) :
  completions_ok (completions st) →
  only_done_or_skipped (completions st) ∧
  (∀ id d, outcome (toggleCompletion id d) st = Ok () ∧
           completions_ok (completions (exec (toggleCompletion id d) st))) ∧
  (∀ id d, getHabitState st id d = Ok (VStr "skipped") →
           key_absent (exec (toggleCompletion id d) st) id d) ∧
  (∀ name id createdAt,
     completions_ok (completions (exec (addHabit name id createdAt) st))) ∧
  (∀ id, completions_ok (completions (exec (onConfirm (OnConfirmDelete id)) st))) ∧
  (∀ stored_habits stored_completions, stored_ok stored_completions →
     completions_ok
       (completions (exec (loadData stored_habits stored_completions) st))) ∧
  (∀ t data, validate t = Ok data →
     ∃ c, get data "completions" = Ok c ∧
       completions (exec (onConfirm (OnConfirmImport data)) st) = or_else c (VObj []) ∧
       (completions_ok (completions (exec (onConfirm (OnConfirmImport data)) st))
          ↔ completions_ok (or_else c (VObj [])))).
Proof.
  intros Hok.
  split; [by apply completions_ok_only_done_or_skipped|].
  split; [intros; by apply toggleCompletion_keeps_ok|].
  split.
  { intros id d Hg. destruct Hok as (m & Hc & Hm).
    by apply (toggle_skipped st m id d Hc (completions_ok_object_or_absent m id Hm)). }
  split; [intros; by apply addHabit_keeps_ok|].
  split; [intros; by apply onConfirmDelete_keeps_ok|].
  split; [intros; by apply loadData_establishes_ok|].
  intros t data Hv.
  destruct (validate_ok_fields t data Hv) as (items & named & c & Hh & Hc).
  exists c. split; [done|]. unfold exec.
  rewrite (onConfirmImport_stores data items named c st Hh Hc). done.
Qed.

Lemma completions_invariant_preserved_witness :
  completions_ok (completions (exec (toggleCompletion "h1" "2024-03-02") st_two_cells)) ∧
  key_absent (exec (toggleCompletion "h1" "2024-03-02") st_two_cells) "h1" "2024-03-02".
Proof.
  assert (Hok : completions_ok (completions st_two_cells)).
  { eexists. split; [reflexivity|]. constructor; [|constructor].
    eexists. split; [reflexivity|].
    constructor; [by left|]. constructor; [by right|]. constructor. }
  destruct (completions_invariant_preserved st_two_cells Hok)
    as (_ & Htoggle & Hclear & _).
  split; [apply Htoggle|]. by apply Hclear.
Defined.

(** C7 as stated fails at the import callback: a file that passes the
    checks of importData carries the state "maybe", and the callback
    built over it writes that state into a completion map that satisfied
    the invariant. *)
Lemma import_callback_breaks_invariant :
  completions_ok (completions initial) ∧
  importData (Some (Denotes data_other_state)) initial =
    (Ok ConfirmRequested,
     {| habits := []; completions := VObj [];
        confirmCallback := Some (OnConfirmImport data_other_state) |}) ∧
  getHabitState (exec (onConfirm (OnConfirmImport data_other_state)) initial)
    "h1" "2024-01-01" = Ok (VStr "maybe") ∧
  ¬ only_done_or_skipped
      (completions (exec (onConfirm (OnConfirmImport data_other_state)) initial)).
Proof.
  split; [by exists []|]. split; [reflexivity|]. split; [reflexivity|].
  intros H.
  destruct (H [("h1", VObj [("2024-01-01", VStr "maybe")])] "h1"
              (VObj [("2024-01-01", VStr "maybe")])
              [("2024-01-01", VStr "maybe")] "2024-01-01" (VStr "maybe"))
    as [?|?]; try done; apply list_elem_of_singleton; done.
Qed.

(** *** Adding a habit with a blank name *)

(** C8.  When the trimmed name is empty the submit handler of the add
    form, behind which addHabit is called, finishes without an error and
    leaves the habit list and the completion map as they were. *)
Theorem add_blank_name_is_noop (st : State) (input id createdAt : string) :
  trim input = "" →
  addHabitForm_submit input id createdAt st = (Ok (), st).
Proof. intros H. unfold addHabitForm_submit. by rewrite H. Qed.

Lemma add_blank_name_is_noop_witness :
  addHabitForm_submit "   " "k3x9" "2024-03-02T10:00:00.000Z" st_two_cells
    = (Ok (), st_two_cells).
Proof. apply add_blank_name_is_noop. reflexivity. Defined.

(** With a name that is not blank the handler is addHabit itself, so
    addHabit only ever sees names that are not blank. *)
Lemma addHabitForm_submit_calls_addHabit (input id createdAt : string) :
  trim input ≠ "" →
  addHabitForm_submit input id createdAt = addHabit input id createdAt.
Proof.
  intros H. unfold addHabitForm_submit. simpl.
  apply String.eqb_neq in H. by rewrite H.
Qed.

(** The test is the handler's: addHabit itself, were it called with a
    blank name, would append a habit whose name is empty. *)
Lemma addHabit_does_not_test_name :
  habits (exec (addHabit "   " "k3x9" "2024-03-02T10:00:00.000Z") initial)
    = [VObj [("id", VStr "k3x9"); ("name", VStr ""); ("order", VNum (Int 1));
             ("createdAt", VStr "2024-03-02T10:00:00.000Z")]].
Proof. reflexivity. Qed.

(** *** Export followed by import *)

Section value_induction.
Variable P : value → Prop.
Hypothesis Hundefined : P VUndefined.
Hypothesis Hnull : P VNull.
Hypothesis Hbool : ∀ b, P (VBool b).
Hypothesis Hnum : ∀ n, P (VNum n).
Hypothesis Hstr : ∀ s, P (VStr s).
Hypothesis Harr : ∀ items named,
  Forall P items → Forall (λ kv, P kv.2) named → P (VArr items named).
Hypothesis Hobj : ∀ ps, Forall (λ kv, P kv.2) ps → P (VObj ps).

Lemma value_induction : ∀ v, P v.
Proof.
  fix IH 1. intros [| |b|n|s|items named|ps].
  - apply Hundefined.
  - apply Hnull.
  - apply Hbool.
  - apply Hnum.
  - apply Hstr.
  - apply Harr.
    + induction items as [|x items IHitems]; constructor; [apply IH|apply IHitems].
    + induction named as [|[k x] named IHnamed]; constructor; [apply IH|apply IHnamed].
  - apply Hobj.
    induction ps as [|[k x] ps IHps]; constructor; [apply IH|apply IHps].
Qed.
End value_induction.

Lemma plain_not_undefined v : plain v = true → v ≠ VUndefined.
Proof. by destruct v. Qed.

Lemma to_json_plain : ∀ v, plain v = true → to_json v = v.
Proof.
  apply (value_induction (λ v, plain v = true → to_json v = v)); try done.
  - by intros [|z].
  - intros items named Hitems _. simpl.
    intros [Hpl Hnamed]%andb_true_iff. destruct named; [|done]. f_equal.
    induction Hitems as [|x items Hx Hitems IH]; [done|].
    simpl in Hpl. apply andb_true_iff in Hpl as [Hpx Hpl].
    rewrite IH by done. rewrite Hx by done. by destruct x.
  - intros ps Hps. simpl. intros Hpl. f_equal.
    induction Hps as [|[k x] ps Hx Hps IH]; [done|].
    apply andb_true_iff in Hpl as [Hpx Hpl].
    rewrite IH by done. simpl in Hx. rewrite Hx by done. by destruct x.
Qed.

Lemma to_json_plain_items (hs : list value) :
  Forall (λ h, plain h = true) hs → to_json (VArr hs []) = VArr hs [].
Proof.
  intros Hall. apply to_json_plain. simpl. rewrite andb_true_r.
  induction Hall as [|h hs Hh Hall IH]; [done|].
  simpl. by rewrite Hh, IH.
Qed.

Lemma exportData_denotes exportedAt st :
  exportable st →
  exportData exportedAt st =
    Denotes (VObj [("version", VNum (Int 1)); ("exportedAt", VStr exportedAt);
                   ("habits", VArr (habits st) []);
                   ("completions", completions st)]).
Proof.
  intros (Hhs & Hobj & Hpl). unfold exportData, stringify. f_equal.
  pose proof (to_json_plain_items (habits st)) as Hj.
  pose proof (to_json_plain _ Hpl) as Hc.
  pose proof (plain_not_undefined _ Hpl) as Hu.
  cbn [to_json] in *. rewrite Hc.
  injection Hj as ->.
  - by destruct (completions st).
  - eapply Forall_impl; [done|]. by intros h [_ ?].
Qed.

(** The callback importData builds over an exported file: for a state of
    the data model (habits that are plain data with a non-empty string id
    and name, a completion map that is a plain object), importData accepts
    the text exportData wrote and asks for confirmation, and the callback
    it built, were it run, would install a habit list and a completion
    map equal to the exported ones. *)
Lemma onConfirmImport_of_export (st current : State) (exportedAt : string) :
  exportable st →
  ∃ data,
    importData (Some (exportData exportedAt st)) current =
      (Ok ConfirmRequested,
       {| habits := habits current; completions := completions current;
          confirmCallback := Some (OnConfirmImport data) |}) ∧
    ∀ st0,
      outcome (onConfirm (OnConfirmImport data)) st0 = Ok () ∧
      habits (exec (onConfirm (OnConfirmImport data)) st0) = habits st ∧
      completions (exec (onConfirm (OnConfirmImport data)) st0) = completions st.
Proof.
  intros Hex. rewrite (exportData_denotes _ _ Hex).
  destruct Hex as (Hhs & Hobj & Hpl).
  set (data := VObj [("version", VNum (Int 1)); ("exportedAt", VStr exportedAt);
                     ("habits", VArr (habits st) []);
                     ("completions", completions st)]).
  assert (Hh : get data "habits" = Ok (VArr (habits st) [])) by reflexivity.
  assert (Hc : get data "completions" = Ok (completions st)) by reflexivity.
  assert (Hck : check_habits (habits st) = Ok ()).
  { apply check_habits_ok. intros h Hin.
    by destruct (proj1 (Forall_forall _ _) Hhs h Hin) as [? _]. }
  assert (Hv : validate (Denotes data) = Ok data).
  { unfold validate, mbind, res_mbind, res_bind. cbn [parse]. rewrite Hh.
    cbn [truthy isArray negb orb items_of]. rewrite Hck, Hc.
    by destruct (completions st). }
  exists data. split.
  - unfold importData. by rewrite Hv.
  - intros st0. unfold outcome, exec.
    rewrite (onConfirmImport_stores data _ _ _ st0 Hh Hc). simpl.
    split; [done|]. split; [done|]. by destruct (completions st).
Qed.

(** *** The OK button of the confirmation dialog *)

(** As written, the handler clears confirmCallback before it tests it:
    whatever callback showConfirm stored, a click on OK leaves the habit
    list and the completion map as they were. *)
Lemma confirmOk_click_runs_nothing (st : State) :
  confirmOk_click st =
    (Ok (), {| habits := habits st; completions := completions st;
               confirmCallback := None |}).
Proof. reflexivity. Qed.

(** C9.  The text exportData wrote for a state of the data model is
    accepted by importData, which asks for confirmation, and the callback
    it hands to the dialog is the one that would install the exported
    habit list and completion map.  The click on OK that confirms the
    import clears that callback before it tests it: after export, import
    and OK the page holds the habit list and the completion map it held
    before the import, so that a file exported elsewhere is not
    installed. *)
Theorem import_of_export_installs_nothing (st current : State) (exportedAt : string) :
  exportable st →
  let file := Some (exportData exportedAt st) in
  let asked := exec (importData file) current in
  let after := exec confirmOk_click asked in
  outcome (importData file) current = Ok ConfirmRequested ∧
  (∃ data, confirmCallback asked = Some (OnConfirmImport data) ∧
     habits (exec (onConfirm (OnConfirmImport data)) asked) = habits st ∧
     completions (exec (onConfirm (OnConfirmImport data)) asked) = completions st) ∧
  outcome confirmOk_click asked = Ok () ∧
  habits after = habits current ∧
  completions after = completions current ∧
  confirmCallback after = None ∧
  (habits current ≠ habits st → habits after ≠ habits st).
Proof.
  intros Hex file asked after.
  destruct (onConfirmImport_of_export st current exportedAt Hex) as (data & Hrun & Hcb).
  assert (Ha : asked = {| habits := habits current; completions := completions current;
                          confirmCallback := Some (OnConfirmImport data) |}).
  { unfold asked, exec, file. by rewrite Hrun. }
  split; [unfold outcome, file; by rewrite Hrun|]. split.
  { exists data. split; [by rewrite Ha|]. by destruct (Hcb asked) as (_ & ? & ?). }
  unfold after, outcome, exec. rewrite confirmOk_click_runs_nothing, Ha. cbn.
  by repeat split.
Qed.

Lemma import_of_export_installs_nothing_witness :
  habits (exec confirmOk_click
            (exec (importData (Some (exportData "2024-03-02T10:00:00.000Z" st_two_cells)))
               initial)) = [].
Proof.
  apply (import_of_export_installs_nothing st_two_cells initial "2024-03-02T10:00:00.000Z").
  split; [|by split].
  constructor; [|constructor].
  split; [|reflexivity]. split; eexists; (split; [reflexivity|done]).
Defined.

(** *** Every state the handlers reach is well formed *)

Section store_invariant.
Local Open Scope Z_scope.
Implicit Types (h : value) (hs : list value) (st : State).

Lemma habit_wf_order_key h :
  habit_wf h → order_key h = Int (order_of h).
Proof.
  intros (_ & _ & _ & z & Hz). unfold order_of, order_key, get_opt. rewrite Hz.
  unfold or_else. simpl. by destruct (negb (z =? 0)).
Qed.

Lemma after_order hs a b :
  habit_wf a → habit_wf b →
  after (λ a b, sub (order_key a) (order_key b)) a b
    = bool_decide (order_of b < order_of a).
Proof.
  intros Ha%habit_wf_order_key Hb%habit_wf_order_key.
  unfold after. rewrite Ha, Hb. simpl.
  case_bool_decide; [apply Z.ltb_lt|apply Z.ltb_ge]; lia.
Qed.

(** The insertion sort leaves a sorted list as it is. *)
Lemma sort_sorted_id {A} (cmp : A → A → num) (l : list A) :
  StronglySorted (λ a b, after cmp a b = false) l → sort cmp l = l.
Proof.
  induction 1 as [|a l Hs IH Ha]; simpl; [done|].
  rewrite IH. destruct l as [|b l]; simpl; [done|].
  apply Forall_cons in Ha as [-> _]. done.
Qed.

Lemma store_wf_sorted st : store_wf st → sortedHabits (habits st) = habits st.
Proof.
  intros (Hwf & Hs & _). unfold sortedHabits. apply sort_sorted_id.
  induction Hs as [|a l Hs IH Ha]; [constructor|].
  apply Forall_cons in Hwf as [Wa Wl].
  constructor; [by apply IH|].
  apply Forall_forall. intros b Hb.
  rewrite (after_order l a b); [|done|by apply (proj1 (Forall_forall _ _) Wl)].
  apply bool_decide_eq_false.
  pose proof (proj1 (Forall_forall _ _) Ha b Hb) as Hlt. cbv beta in Hlt. lia.
Qed.

Lemma plain_assoc_set k v (ps : props) :
  plain v = true → plain (VObj ps) = true → plain (VObj (assoc_set k v ps)) = true.
Proof.
  intros Hv. induction ps as [|[k' v'] ps IH]; simpl.
  - by rewrite Hv.
  - intros [Hv' Hps]%andb_true_iff. destruct (String.eqb k k'); simpl.
    + by rewrite Hv.
    + rewrite Hv'. by apply IH.
Qed.

Lemma plain_records (m : props) :
  Forall (λ kv, record_ok kv.2) m → plain (VObj m) = true.
Proof.
  induction 1 as [|[k r] m Hr Hm IH]; [done|].
  simpl in Hr. destruct Hr as (ps & -> & Hps).
  cbn [plain] in *. rewrite IH, andb_true_r. clear IH Hm.
  induction Hps as [|[d v] ps Hv Hps IH]; [done|].
  simpl in Hv. by destruct Hv as [-> | ->].
Qed.

Lemma store_wf_exportable st : store_wf st → exportable st.
Proof.
  intros (Hwf & _ & (m & Hc & Hm)). split; [|split].
  - eapply Forall_impl; [done|]. by intros h (_ & ? & ? & _).
  - by rewrite Hc.
  - rewrite Hc. by apply plain_records.
Qed.

Lemma maxOrder_wf hs : ∀ a,
  Forall habit_wf hs →
  ∃ m, maxOrder hs (Int a) = Ok (Int m) ∧ a ≤ m ∧
       Forall (λ h, order_of h ≤ m) hs.
Proof.
  induction hs as [|h hs IH]; intros a Hwf; simpl.
  - exists a. split; [done|]. split; [lia|constructor].
  - apply Forall_cons in Hwf as [Wh Wl].
    pose proof (habit_wf_order_key h Wh) as Hk.
    destruct Wh as (_ & _ & _ & z & Hz).
    unfold mbind, res_mbind, res_bind. rewrite Hz.
    unfold order_key, get_opt in Hk. rewrite Hz in Hk. rewrite Hk. simpl.
    destruct (IH (Z.max a (order_of h)) Wl) as (m & -> & Hle & Hall).
    exists m. split; [done|]. split; [lia|].
    constructor; [lia|done].
Qed.

Lemma set_name_wf h name :
  habit_wf h → name ≠ "" →
  ∃ h', set h "name" (VStr name) = Ok h' ∧ habit_wf h' ∧ order_of h' = order_of h.
Proof.
  intros ([ps ->] & Hpl & [(i & Hi & Hine) _] & z & Hz) Hname.
  simpl in *. eexists. split; [done|].
  assert (Hord : get (VObj (assoc_set "name" (VStr name) ps)) "order"
                 = Ok (VNum (Int z))).
  { simpl. by rewrite assoc_get_set_ne. }
  split.
  - split; [by eexists|]. split; [by apply plain_assoc_set|].
    split; [|by exists z].
    split.
    + exists i. split; [|done]. simpl. by rewrite assoc_get_set_ne.
    + exists name. split; [|done]. simpl. by rewrite assoc_get_set_eq.
  - unfold order_of, order_key, get_opt. rewrite Hord.
    change (get (VObj ps) "order") with (Ok (of_option (assoc_get "order" ps))).
    by rewrite Hz.
Qed.

Lemma with_order_wf i h :
  habit_wf h → habit_wf (with_order i h) ∧ order_of (with_order i h) = Z.of_nat i.
Proof.
  intros ([ps ->] & Hpl & [(a & Ha & Hane) (n & Hn & Hnne)] & _).
  unfold with_order. simpl in *.
  assert (Hord : get (VObj (assoc_set "order" (VNum (Int (Z.of_nat i))) ps)) "order"
                 = Ok (VNum (Int (Z.of_nat i)))).
  { simpl. by rewrite assoc_get_set_eq. }
  split.
  - split; [by eexists|]. split; [by apply plain_assoc_set|].
    split; [|by eexists].
    split.
    + exists a. split; [|done]. simpl. by rewrite assoc_get_set_ne.
    + exists n. split; [|done]. simpl. by rewrite assoc_get_set_ne.
  - unfold order_of, order_key, get_opt. rewrite Hord.
    unfold or_else. simpl. destruct (Z.eqb_spec (Z.of_nat i) 0); simpl; lia.
Qed.

Lemma imap_with_order_sorted hs : ∀ (f : nat → nat),
  (∀ i j, (i < j)%nat → (f i < f j)%nat) →
  Forall habit_wf hs →
  Forall habit_wf (imap (λ i, with_order (f i)) hs) ∧
  Forall (λ h, ∃ i, order_of h = Z.of_nat (f i)) (imap (λ i, with_order (f i)) hs) ∧
  StronglySorted (λ a b, order_of a < order_of b) (imap (λ i, with_order (f i)) hs).
Proof.
  induction hs as [|h hs IH]; intros f Hf Hwf; simpl.
  - split; [constructor|]. split; constructor.
  - apply Forall_cons in Hwf as [Wh Wl].
    destruct (with_order_wf (f 0%nat) h Wh) as [Wh' Oh].
    destruct (IH (f ∘ S)) as (Hwf' & Hord & Hs); [|done|].
    { intros i j Hij. simpl. apply Hf. lia. }
    split; [by constructor|]. split.
    + constructor; [by exists 0%nat|].
      eapply Forall_impl; [done|]. intros x [i Hi]. by exists (S i).
    + constructor; [done|].
      eapply Forall_impl; [exact Hord|]. intros x [i Hi]. rewrite Oh, Hi. simpl.
      specialize (Hf 0%nat (S i)). lia.
Qed.
End store_invariant.

Section store_steps.
Local Open Scope Z_scope.
Implicit Types (h : value) (hs : list value) (st : State).

Lemma store_wf_same st st' :
  habits st' = habits st → completions st' = completions st →
  store_wf st → store_wf st'.
Proof. unfold store_wf. by intros -> ->. Qed.

Lemma has_id_wf habitId h : habit_wf h → ∃ b, has_id habitId h = Ok b.
Proof.
  intros (_ & _ & [(i & Hi & _) _] & _). unfold has_id, mbind, res_mbind, res_bind.
  rewrite Hi. eauto.
Qed.

Lemma find_index_wf habitId hs : ∀ n,
  Forall habit_wf hs →
  ∃ found, find_index habitId hs n = Ok found ∧
    ∀ i, found = Some i → (n ≤ i < n + length hs)%nat.
Proof.
  induction hs as [|h hs IH]; intros n Hwf; simpl.
  - exists None. by split.
  - apply Forall_cons in Hwf as [Wh Wl].
    destruct (has_id_wf habitId h Wh) as [b Hb].
    unfold mbind, res_mbind, res_bind. rewrite Hb. destruct b.
    + exists (Some n). split; [done|]. intros i [= <-]. lia.
    + destruct (IH (S n) Wl) as (found & -> & Hrange).
      exists found. split; [done|]. intros i Hi. specialize (Hrange i Hi). lia.
Qed.

Lemma deleteHabit_writes_callback_only habitId st :
  habits (exec (deleteHabit habitId) st) = habits st ∧
  completions (exec (deleteHabit habitId) st) = completions st.
Proof.
  unfold exec, deleteHabit, mbind, M_bind, bind, lift, read_habits.
  cbn [fst snd]. by destruct (find_index habitId (habits st) 0) as [[i|]|e].
Qed.

Lemma importData_writes_callback_only file st :
  habits (exec (importData file) st) = habits st ∧
  completions (exec (importData file) st) = completions st.
Proof.
  unfold exec, importData. destruct file as [t|]; [|done].
  by destruct (validate t).
Qed.

Lemma addHabit_wf st input id createdAt :
  store_wf st → id ≠ "" → trim input ≠ "" →
  store_wf (exec (addHabit input id createdAt) st).
Proof.
  intros (Hwf & Hs & Hok) Hid Hname.
  destruct (maxOrder_wf (habits st) 0 Hwf) as (m & Hm & Hm0 & Hall).
  pose proof (addHabit_keeps_ok st input id createdAt Hok) as Hok'.
  destruct Hok as (cm & Hc & Hcm).
  revert Hok'. unfold exec, addHabit.
  unfold mbind, M_bind, bind, lift, read_habits, read_completions,
    write_habits, write_completions. cbn [fst snd]. rewrite Hm. cbn [fst snd habits completions].
  rewrite Hc. cbn [set fst snd]. intros Hok'.
  set (h := VObj [("id", VStr id); ("name", VStr (trim input));
                  ("order", VNum (add (Int m) (Int 1))); ("createdAt", VStr createdAt)]).
  assert (Wh : habit_wf h).
  { split; [by eexists|]. split; [done|].
    split; [split; eexists; (split; [reflexivity|done])|].
    by exists (m + 1). }
  assert (Oh : order_of h = m + 1).
  { unfold order_of, order_key, get_opt, or_else. simpl.
    destruct (Z.eqb_spec (m + 1) 0); simpl; lia. }
  split; [|split; [|exact Hok']]; cbn [habits].
  - apply Forall_app. split; [done|by constructor].
  - apply StronglySorted_app_2; [|done|by repeat constructor].
    intros x y Hx ->%list_elem_of_singleton. rewrite Oh.
    pose proof (proj1 (Forall_forall _ _) Hall x Hx) as Hle. cbv beta in Hle. lia.
Qed.

Lemma sorted_by_order hs :
  StronglySorted (λ a b, order_of a < order_of b) hs ↔
  StronglySorted Z.lt (order_of <$> hs).
Proof.
  induction hs as [|h hs IH]; [split; constructor|].
  rewrite fmap_cons, !StronglySorted_cons, Forall_fmap, IH. done.
Qed.

Lemma renameHabit_wf st habitId newName :
  store_wf st → store_wf (exec (renameHabit habitId newName) st).
Proof.
  intros (Hwf & Hs & Hok).
  destruct (find_index_wf habitId (habits st) 0 Hwf) as (found & Hf & Hrange).
  unfold exec, renameHabit, mbind, M_bind, bind, lift, read_habits, write_habits.
  cbn [fst snd]. rewrite Hf. cbn [fst snd].
  destruct found as [i|]; [|done].
  destruct (String.eqb_spec (trim newName) "") as [E|E].
  { simpl. rewrite E. done. }
  simpl. rewrite (proj2 (String.eqb_neq _ _) E). simpl.
  destruct (lookup_lt_is_Some_2 (habits st) i) as [h Hh];
    [specialize (Hrange i eq_refl); lia|].
  rewrite Hh. simpl.
  destruct (set_name_wf h (trim newName)) as (h' & Hset & Wh' & Oh'); [|done|].
  { by apply (proj1 (Forall_forall _ _) Hwf), list_elem_of_lookup_2 with i. }
  rewrite Hset. cbn [fst snd]. split; [|split; [|done]]; cbn [habits].
  - by apply Forall_insert.
  - apply sorted_by_order. rewrite list_fmap_insert, list_insert_id.
    + by apply sorted_by_order.
    + by rewrite list_lookup_fmap, Hh, Oh'.
Qed.

Lemma reorderHabits_wf st fromIndex toIndex :
  store_wf st → (fromIndex < length (habits st))%nat →
  store_wf (exec (reorderHabits fromIndex toIndex) st).
Proof.
  intros (Hwf & Hs & Hok) Hlt.
  assert (Hobj : Forall is_object (habits st)).
  { eapply Forall_impl; [done|]. by intros h [? _]. }
  unfold exec. rewrite (reorderHabits_objects st _ _ Hobj Hlt). cbn [snd].
  destruct (lookup_lt_is_Some_2 _ _ Hlt) as [x Hx].
  pose proof (moved_Permutation (habits st) fromIndex toIndex x Hx) as Hp.
  destruct (imap_with_order_sorted (moved (habits st) fromIndex toIndex) (λ i, i))
    as (H1 & _ & H3); [done|by rewrite Hp|].
  split; [done|]. split; done.
Qed.

(** Every state the page reaches from the empty store is well formed:
    it can be exported and imported back, and its habit array is in the
    order the rows are shown in. *)
Lemma reachable_store_wf st : reachable st → store_wf st.
Proof.
  induction 1 as [|st a Hr IH Hp].
  - split; [constructor|]. split; [constructor|]. by exists [].
  - destruct a as [input id createdAt|habitId newName|habitId dateStr
                   |fromIndex toIndex|habitId|file| |]; cbn [handler possible] in *.
    + unfold addHabitForm_submit.
      destruct (String.eqb_spec (trim input) "") as [E|E]; simpl.
      * by rewrite E.
      * rewrite (proj2 (String.eqb_neq _ _) E). simpl. by apply addHabit_wf.
    + by apply renameHabit_wf.
    + destruct IH as (Hwf & Hs & Hok).
      destruct (toggleCompletion_keeps_ok st habitId dateStr Hok) as [_ Hok'].
      pose proof Hok as (m & Hc & Hm).
      pose proof (toggle_object st m habitId dateStr Hc
                    (completions_ok_object_or_absent m habitId Hm)) as Ht.
      split; [|split; [|done]]; unfold exec; by rewrite Ht.
    + destruct Hp as [Hfrom _]. by apply reorderHabits_wf.
    + eapply store_wf_same; [apply deleteHabit_writes_callback_only..|done].
    + eapply store_wf_same; [..|exact IH].
      * unfold exec, mbind, M_bind, bind.
        pose proof (importData_writes_callback_only file st) as [H1 _].
        unfold exec in H1. by destruct (importData file st) as [[o|e] st'].
      * unfold exec, mbind, M_bind, bind.
        pose proof (importData_writes_callback_only file st) as [_ H2].
        unfold exec in H2. by destruct (importData file st) as [[o|e] st'].
    + eapply store_wf_same; [..|exact IH]; done.
    + eapply store_wf_same; [..|exact IH]; done.
Qed.

Lemma reachable_exportable st : reachable st → exportable st.
Proof. intros. by apply store_wf_exportable, reachable_store_wf. Qed.

(** On every state the page reaches, a drop moves the row that was
    dragged: the array is in the order of the rows. *)
Lemma reachable_reorder_as_specified st fromIndex toIndex :
  reachable st → (fromIndex < length (habits st))%nat →
  habits (exec (reorderHabits fromIndex toIndex) st)
    = reorder_spec (habits st) fromIndex toIndex.
Proof.
  intros Hr%reachable_store_wf Hlt.
  apply reorderHabits_agrees_when_sorted; [|done|by apply store_wf_sorted].
  destruct Hr as (Hwf & _). eapply Forall_impl; [done|]. by intros h [? _].
Qed.
End store_steps.

(** ** The rest of the page

    What follows covers the parts of habit.js and newtab-guard.js that the
    theorems above do not reach. *)

Import Calendar.

(** *** formatDate writes the key of the local day *)

Section calendar_facts.
Import DateKey.
Local Open Scope Z_scope.

(** YearFromDay is YearFromTime: the year the day falls in. *)
Lemma YearFromDay_spec day :
  DayFromYear (YearFromDay day) ≤ day < DayFromYear (YearFromDay day + 1).
Proof.
  unfold YearFromDay.
  set (y := 1970 + (400 * day) `div` 146097).
  assert (Hy : 146097 * (y - 1970) ≤ 400 * day < 146097 * (y - 1969)).
  { unfold y. Z.div_mod_to_equations. lia. }
  assert (Hlo : DayFromYear (y - 1) ≤ day).
  { unfold DayFromYear. Z.div_mod_to_equations. lia. }
  assert (Hhi : day < DayFromYear (y + 2)).
  { unfold DayFromYear. Z.div_mod_to_equations. lia. }
  clearbody y.
  destruct (Z.ltb_spec day (DayFromYear y)).
  - replace (y - 1 + 1) with y by lia. lia.
  - destruct (Z.leb_spec (DayFromYear (y + 1)) day).
    + replace (y + 1 + 1) with (y + 2) by lia. lia.
    + lia.
Qed.

Lemma YearFromDay_unique day y :
  DayFromYear y ≤ day < DayFromYear (y + 1) → YearFromDay day = y.
Proof.
  intros Hy. pose proof (YearFromDay_spec day) as Hs.
  destruct (Z.lt_total (YearFromDay day) y) as [Hlt|[?|Hlt]]; [|done|].
  - pose proof (DayFromYear_mono _ _ Hlt). lia.
  - pose proof (DayFromYear_mono _ _ Hlt). lia.
Qed.

Lemma DayWithinYear_bounds day :
  0 ≤ DayWithinYear day
    < 365 + (if InLeapYear (YearFromDay day) then 1 else 0).
Proof.
  unfold DayWithinYear. pose proof (YearFromDay_spec day) as Hs.
  rewrite DayFromYear_succ in Hs. lia.
Qed.

Local Ltac month_case :=
  repeat match goal with
         | |- context [?a + 1] =>
             lazymatch a with
             | Z0 => idtac
             | Zpos _ => idtac
             end;
             let v := eval vm_compute in (a + 1) in change (a + 1) with v
         end;
  cbn; rewrite ?andb_true_iff, ?Z.leb_le; lia.

(** The year, month and date of a day make that day. *)
Lemma MakeDay_of_day day :
  valid_ymd (YearFromDay day) (MonthFromDay day + 1) (DateFromDay day) = true ∧
  MakeDay (YearFromDay day) (MonthFromDay day + 1) (DateFromDay day) = day.
Proof.
  pose proof (DayWithinYear_bounds day) as Hw.
  unfold valid_ymd, MakeDay, DateFromDay, MonthFromDay, DaysInMonth, DaysBeforeMonth.
  assert (E : day = DayFromYear (YearFromDay day) + DayWithinYear day)
    by (unfold DayWithinYear; lia).
  revert E Hw. generalize (DayWithinYear day) as w. intros w E Hw.
  destruct (InLeapYear (YearFromDay day));
    repeat (match goal with
            | |- context [if ?a <? ?b then _ else _] => destruct (Z.ltb_spec a b)
            end; [month_case|]);
    month_case.
Qed.
Lemma pretty_four_digits y : 1000 ≤ y ≤ 9999 → four_digits (pretty y) = Some y.
Proof.
  intros Hy.
  assert (H : Forall (λ y, four_digits (pretty y) = Some y) (seqZ 1000 9000)).
  { apply (bool_decide_unpack _). by vm_compute. }
  apply (proj1 (Forall_forall _ _) H), elem_of_seqZ. lia.
Qed.

Lemma padStart_two_digits n :
  0 ≤ n ≤ 99 → two_digits (padStart 2 "0" (pretty n)) = Some n.
Proof.
  intros Hn.
  assert (H : Forall (λ n, two_digits (padStart 2 "0" (pretty n)) = Some n) (seqZ 0 100)).
  { apply (bool_decide_unpack _). by vm_compute. }
  apply (proj1 (Forall_forall _ _) H), elem_of_seqZ. lia.
Qed.

Lemma fields_of_parts ys ms ds y m d :
  four_digits ys = Some y → two_digits ms = Some m → two_digits ds = Some d →
  fields (ys +:+ "-" +:+ ms +:+ "-" +:+ ds) = Some (y, m, d).
Proof.
  destruct ys as [|a [|b [|c [|e [|? ?]]]]]; try done.
  destruct ms as [|f [|g [|? ?]]]; try done.
  destruct ds as [|h [|i [|? ?]]]; try done.
  simpl.
  destruct (digit a), (digit b), (digit c), (digit e); try done.
  destruct (digit f), (digit g); try done.
  destruct (digit h), (digit i); try done.
  simpl. by intros [= <-] [= <-] [= <-].
Qed.

Lemma month_date_bounds day :
  0 ≤ MonthFromDay day ≤ 11 ∧ 1 ≤ DateFromDay day ≤ 31.
Proof.
  destruct (MakeDay_of_day day) as [Hv _]. revert Hv.
  unfold valid_ymd, DaysInMonth. rewrite !andb_true_iff, !Z.leb_le.
  intros [[[? ?] ?] Hd].
  split; [lia|]. split; [done|].
  destruct (_ =? 2); [destruct (InLeapYear _); lia|].
  destruct (_ || _); lia.
Qed.

Lemma day_of_formatDate tz t :
  four_digit_year tz t → day_of (formatDate tz t) = Some (Nav.localDay tz t).
Proof.
  intros Hy. unfold day_of, formatDate, getFullYear, getMonth, getDate.
  pose proof (month_date_bounds (Nav.localDay tz t)) as [Hm Hd].
  destruct (MakeDay_of_day (Nav.localDay tz t)) as [Hv Hday].
  rewrite (fields_of_parts _ _ _ (YearFromDay (Nav.localDay tz t))
             (MonthFromDay (Nav.localDay tz t) + 1) (DateFromDay (Nav.localDay tz t))).
  - by rewrite Hv, Hday.
  - by apply pretty_four_digits.
  - apply padStart_two_digits. lia.
  - apply padStart_two_digits. lia.
Qed.
End calendar_facts.

Section calendar_theorems.
Import DateKey.
Local Open Scope Z_scope.

(** X1.  For a time whose local year has four digits, new Date reads the
    key formatDate wrote as midnight UTC of the local day: the key names
    that day, and of the keys formatDate writes, under whatever offset,
    it is the only one that does. *)
Theorem formatDate_names_local_day (tz t : Z) :
  four_digit_year tz t →
  day_of (formatDate tz t) = Some (Nav.localDay tz t) ∧
  time_of (formatDate tz t) = Int (Nav.localDay tz t * msPerDay) ∧
  canonical (formatDate tz t) ∧
  (∀ tz' t', four_digit_year tz' t' →
     Nav.localDay tz' t' = Nav.localDay tz t → formatDate tz' t' = formatDate tz t).
Proof.
  intros Hy. pose proof (day_of_formatDate tz t Hy) as Hd.
  split; [done|]. split; [unfold time_of; by rewrite Hd|].
  split; [by eexists|].
  intros tz' t' Hy' E. pose proof (day_of_formatDate tz' t' Hy') as Hd'.
  rewrite E in Hd'. by apply (day_of_inj _ _ _ Hd').
Qed.

Lemma formatDate_names_local_day_witness :
  day_of (formatDate 7200000 1717236000000) = Some 19875.
Proof.
  apply (formatDate_names_local_day 7200000 1717236000000).
  unfold four_digit_year. vm_compute. split; discriminate.
Defined.

(** X2.  Two times in four-digit years get the same key exactly when they
    fall on the same local day. *)
Theorem formatDate_same_key_iff_same_day (tz t1 t2 : Z) :
  four_digit_year tz t1 → four_digit_year tz t2 →
  (formatDate tz t1 = formatDate tz t2 ↔ Nav.localDay tz t1 = Nav.localDay tz t2).
Proof.
  intros H1%day_of_formatDate H2%day_of_formatDate. split.
  - intros E. rewrite E in H1. congruence.
  - intros E. unfold formatDate, getFullYear, getMonth, getDate. by rewrite E.
Qed.

Lemma formatDate_same_key_iff_same_day_witness :
  formatDate 0 1717236000000 = formatDate 0 1717200000000.
Proof.
  apply (formatDate_same_key_iff_same_day 0 1717236000000 1717200000000).
  - unfold four_digit_year. vm_compute. split; discriminate.
  - unfold four_digit_year. vm_compute. split; discriminate.
  - reflexivity.
Defined.

(** X3.  The key calculateStreak takes for yesterday names the local day
    of the time 24 hours before the clock reading.  That is the day
    before the day of the key it takes for today exactly when the
    reading, taken with the offset of local time that was in effect 24
    hours before, falls on today: always when the offset has not changed
    and both readings are one; after a change of the offset the key can
    name the day before yesterday, or today, in which case the two keys
    are equal.  The difference calculateStreak computes between the keys
    of two times is the number of local days between them. *)
Theorem yesterdayKey_is_the_day_before (zone : Z → Z) (now now' t1 t2 : Z) :
  let before := now' - 86400000 in
  let today := Nav.localDay (zone now) now in
  four_digit_year (zone now) now → four_digit_year (zone before) before →
  four_digit_year (zone t1) t1 → four_digit_year (zone t2) t2 →
  day_of (todayKey zone now) = Some today ∧
  day_of (yesterdayKey zone now') = Some (Nav.localDay (zone before) now' - 1) ∧
  (day_of (yesterdayKey zone now') = Some (today - 1)
     ↔ Nav.localDay (zone before) now' = today) ∧
  (now' = now → zone before = zone now →
     day_of (yesterdayKey zone now') = Some (today - 1) ∧
     todayKey zone now ≠ yesterdayKey zone now') ∧
  (todayKey zone now = yesterdayKey zone now'
     ↔ Nav.localDay (zone before) now' = today + 1) ∧
  diffDays (localKey zone t1) (localKey zone t2)
    = Int (Nav.localDay (zone t1) t1 - Nav.localDay (zone t2) t2).
Proof.
  intros before today Hn Hy H1 H2. unfold todayKey, yesterdayKey, localKey.
  fold before.
  pose proof (day_of_formatDate _ now Hn) as Dn. fold today in Dn.
  pose proof (day_of_formatDate _ _ Hy) as Dy.
  assert (E : Nav.localDay (zone before) before = Nav.localDay (zone before) now' - 1).
  { unfold before, Nav.localDay, msPerDay.
    replace (now' - 86400000 + zone (now' - 86400000))
      with (now' + zone (now' - 86400000) + (-1) * 86400000) by lia.
    rewrite Z.div_add by done. lia. }
  rewrite E in Dy.
  assert (Hsame : formatDate (zone now) now = formatDate (zone before) before
                  ↔ Nav.localDay (zone before) now' = today + 1).
  { split.
    - intros Heq. rewrite Heq in Dn. rewrite Dn in Dy. injection Dy. lia.
    - intros Heq. apply (day_of_inj _ _ today); [done|]. rewrite Dy, Heq. f_equal. lia. }
  split; [done|]. split; [done|]. split; [|split; [|split]].
  - rewrite Dy. split; [intros [= Heq]; lia|intros ->; done].
  - intros Hnow Hz.
    assert (Hd : Nav.localDay (zone before) now' = today).
    { rewrite Hz, Hnow. done. }
    split; [rewrite Dy, Hd; done|]. intros Heq. apply Hsame in Heq. lia.
  - done.
  - apply diffDays_days; by apply day_of_formatDate.
Qed.

Lemma yesterdayKey_is_the_day_before_witness :
  day_of (yesterdayKey new_york_2024 1710131400000)
    = Some (Nav.localDay (new_york_2024 1710131400000) 1710131400000 - 2).
Proof.
  destruct (yesterdayKey_is_the_day_before new_york_2024
              1710131400000 1710131400000 1710131400000 1710131400000)
    as (_ & -> & _); [unfold four_digit_year; vm_compute; split; discriminate..|].
  reflexivity.
Defined.
End calendar_theorems.

(** *** The window of 14 days *)

Import View.

Section window_facts.
Local Open Scope Z_scope.
Variable tz : Z.

Lemma localDay_shift t n :
  Nav.localDay tz (t + n * DateKey.msPerDay) = Nav.localDay tz t + n.
Proof.
  unfold Nav.localDay.
  replace (t + n * DateKey.msPerDay + tz) with (t + tz + n * DateKey.msPerDay) by lia.
  by rewrite Z.div_add.
Qed.

Lemma startOfDay_idemp t :
  Nav.startOfDay tz (Nav.startOfDay tz t) = Nav.startOfDay tz t.
Proof.
  unfold Nav.startOfDay.
  replace (_ - tz + tz) with ((t + tz) `div` DateKey.msPerDay * DateKey.msPerDay) by lia.
  by rewrite Z.div_mul.
Qed.

Lemma localDay_of_startOfDay t :
  Nav.localDay tz (Nav.startOfDay tz t) = Nav.localDay tz t.
Proof.
  unfold Nav.localDay, Nav.startOfDay.
  replace (_ - tz + tz) with ((t + tz) `div` DateKey.msPerDay * DateKey.msPerDay) by lia.
  by rewrite Z.div_mul.
Qed.

Lemma startOfDay_below t : Nav.startOfDay tz t ≤ t.
Proof.
  unfold Nav.startOfDay.
  pose proof (Z.mul_div_le (t + tz) DateKey.msPerDay eq_refl). lia.
Qed.

Lemma startOfDay_same_day a b :
  Nav.startOfDay tz a = Nav.startOfDay tz b ↔ Nav.localDay tz a = Nav.localDay tz b.
Proof.
  unfold Nav.startOfDay, Nav.localDay, DateKey.msPerDay. split; [|by intros ->].
  intros E. lia.
Qed.

Lemma dates_from_days v n :
  Nav.localDay tz <$> dates_from tz v n
    = (λ i : nat, Nav.localDay tz v - Z.of_nat i) <$> rev (seq 0 n).
Proof.
  induction n as [|n IH]; [done|].
  rewrite seq_S, rev_app_distr. cbn [dates_from fmap list_fmap rev app plus].
  rewrite <- IH. f_equal.
  rewrite localDay_of_startOfDay. unfold Nav.addDays.
  rewrite localDay_shift. lia.
Qed.

Lemma dates_from_midnight v n :
  Forall (λ d, Nav.startOfDay tz d = d ∧ d ≤ v) (dates_from tz v n).
Proof.
  induction n as [|n IH]; constructor; [|done].
  split; [apply startOfDay_idemp|].
  etransitivity; [apply startOfDay_below|].
  unfold Nav.addDays, DateKey.msPerDay. lia.
Qed.
Lemma dates_from_seqZ v (n : nat) :
  Nav.localDay tz <$> dates_from tz v n
    = seqZ (Nav.localDay tz v - Z.of_nat n + 1) (Z.of_nat n).
Proof.
  induction n as [|n IH]; [done|].
  rewrite seqZ_cons by lia. cbn [dates_from fmap list_fmap]. f_equal.
  - rewrite localDay_of_startOfDay. unfold Nav.addDays.
    rewrite localDay_shift. lia.
  - change (list_fmap Z Z (Nav.localDay tz)) with (fmap (M:=list) (Nav.localDay tz)).
    rewrite IH. f_equal; lia.
Qed.

Lemma dates_from_length v n : length (dates_from tz v n) = n.
Proof. induction n as [|n IH]; simpl; [done|]. by rewrite IH. Qed.

Lemma dates_from_last v n :
  last (dates_from tz v (S n)) = Some (Nav.startOfDay tz v).
Proof.
  induction n as [|n IH].
  - simpl. unfold Nav.addDays. do 2 f_equal. lia.
  - change (dates_from tz v (S (S n)))
      with (Nav.startOfDay tz (Nav.addDays v (- Z.of_nat (S n))) :: dates_from tz v (S n)).
    by rewrite last_cons, IH.
Qed.

Lemma dates_from_ascending v n : StronglySorted Z.lt (dates_from tz v n).
Proof.
  induction n as [|n IH]; [constructor|].
  constructor; [done|]. clear IH.
  assert (H : ∀ m, (m ≤ n)%nat →
    Forall (Z.lt (Nav.startOfDay tz (Nav.addDays v (- Z.of_nat n)))) (dates_from tz v m)).
  { induction m as [|m IH]; intros Hm; constructor; [|apply IH; lia].
    unfold Nav.startOfDay, Nav.addDays, DateKey.msPerDay.
    replace (v + - Z.of_nat n * 86400000 + tz)
      with (v + tz + (- Z.of_nat n) * 86400000) by lia.
    replace (v + - Z.of_nat m * 86400000 + tz)
      with (v + tz + (- Z.of_nat m) * 86400000) by lia.
    rewrite !Z.div_add by done. lia. }
  by apply H.
Qed.
End window_facts.

Section window_theorems.
Local Open Scope Z_scope.

Lemma getDisplayDates_days tz v :
  length (getDisplayDates tz v) = 14%nat ∧
  Nav.localDay tz <$> getDisplayDates tz v = seqZ (Nav.localDay tz v - 13) 14.
Proof.
  unfold getDisplayDates, DAYS_TO_SHOW.
  split; [apply dates_from_length|]. rewrite dates_from_seqZ. f_equal; lia.
Qed.

Lemma formatDate_of_day tz t1 t2 :
  Nav.localDay tz t1 = Nav.localDay tz t2 → formatDate tz t1 = formatDate tz t2.
Proof. intros E. unfold formatDate, getFullYear, getMonth, getDate. by rewrite E. Qed.

(** X4.  getDisplayDates returns 14 dates in ascending order: the local
    midnights of the 14 consecutive days that end with the day of
    viewEndDate, none of them after viewEndDate. *)
Theorem getDisplayDates_last_14_days (tz viewEndDate : Z) :
  let dates := getDisplayDates tz viewEndDate in
  length dates = 14%nat ∧
  Nav.localDay tz <$> dates = seqZ (Nav.localDay tz viewEndDate - 13) 14 ∧
  Forall (λ d, Nav.startOfDay tz d = d ∧ d ≤ viewEndDate) dates ∧
  StronglySorted Z.lt dates ∧
  last dates = Some (Nav.startOfDay tz viewEndDate).
Proof.
  intros dates. unfold dates, getDisplayDates, DAYS_TO_SHOW.
  split; [apply dates_from_length|].
  split; [rewrite dates_from_seqZ; f_equal; lia|].
  split; [apply dates_from_midnight|].
  split; [apply dates_from_ascending|apply dates_from_last].
Qed.
Lemma YearFromDay_mono d d' : d ≤ d' → YearFromDay d ≤ YearFromDay d'.
Proof.
  intros Hd. pose proof (YearFromDay_spec d) as Hs. pose proof (YearFromDay_spec d') as Hs'.
  destruct (Z.le_gt_cases (YearFromDay d) (YearFromDay d')) as [?|Hlt]; [done|].
  pose proof (DayFromYear_mono _ _ Hlt). lia.
Qed.

Lemma window_four_digit_years tz v :
  four_digit_year tz (Nav.addDays v (-13)) → four_digit_year tz v →
  Forall (four_digit_year tz) (getDisplayDates tz v).
Proof.
  intros Hlo Hhi. apply Forall_forall. intros d Hd.
  assert (Hin : Nav.localDay tz d ∈ Nav.localDay tz <$> getDisplayDates tz v)
    by (by apply list_elem_of_fmap_2).
  unfold getDisplayDates, DAYS_TO_SHOW in Hin. rewrite dates_from_seqZ in Hin.
  apply elem_of_seqZ in Hin.
  unfold four_digit_year, getFullYear in *.
  unfold Nav.addDays in Hlo. rewrite localDay_shift in Hlo.
  pose proof (YearFromDay_mono (Nav.localDay tz v + -13) (Nav.localDay tz d)).
  pose proof (YearFromDay_mono (Nav.localDay tz d) (Nav.localDay tz v)).
  lia.
Qed.

(** X5.  When the window lies in four-digit years, the keys its 14 columns
    carry name the 14 consecutive days that end with the day of
    viewEndDate, in that order, so that no two columns share a key. *)
Theorem cellKeys_name_the_window (tz viewEndDate : Z) :
  four_digit_year tz (Nav.addDays viewEndDate (-13)) →
  four_digit_year tz viewEndDate →
  DateKey.day_of <$> cellKeys tz viewEndDate
    = Some <$> seqZ (Nav.localDay tz viewEndDate - 13) 14 ∧
  Forall canonical (cellKeys tz viewEndDate) ∧
  NoDup (cellKeys tz viewEndDate).
Proof.
  intros Hlo Hhi.
  pose proof (window_four_digit_years tz viewEndDate Hlo Hhi) as Hall.
  assert (E : DateKey.day_of <$> cellKeys tz viewEndDate
              = Some <$> seqZ (Nav.localDay tz viewEndDate - 13) 14).
  { destruct (getDisplayDates_days tz viewEndDate) as [_ <-].
    unfold cellKeys. rewrite <- !list_fmap_compose.
    apply Forall_fmap_ext. eapply Forall_impl; [exact Hall|].
    intros d Hd. simpl. by apply day_of_formatDate. }
  split; [done|]. split.
  - apply Forall_fmap. eapply Forall_impl; [exact Hall|].
    intros d Hd. simpl. exists (Nav.localDay tz d). by apply day_of_formatDate.
  - apply (NoDup_fmap_1 DateKey.day_of). rewrite E.
    apply NoDup_fmap_2; [intros ?? [=]; done|apply NoDup_seqZ].
Qed.

Lemma cellKeys_name_the_window_witness :
  NoDup (cellKeys 0 1717236000000).
Proof.
  apply (cellKeys_name_the_window 0 1717236000000);
    unfold four_digit_year; vm_compute; split; discriminate.
Defined.

(** X6.  renderDayHeaders marks a column as today exactly when the day of
    the column is the local day of the clock. *)
Theorem dayHeaders_mark_today (tz now viewEndDate : Z) :
  four_digit_year tz (Nav.addDays viewEndDate (-13)) →
  four_digit_year tz viewEndDate → four_digit_year tz now →
  dayHeaders tz now viewEndDate
    = (λ date, (date, bool_decide (Nav.localDay tz date = Nav.localDay tz now)))
        <$> getDisplayDates tz viewEndDate.
Proof.
  intros Hlo Hhi Hnow. unfold dayHeaders.
  apply Forall_fmap_ext.
  eapply Forall_impl; [exact (window_four_digit_years tz viewEndDate Hlo Hhi)|].
  intros d Hd. simpl. f_equal.
  pose proof (day_of_formatDate tz d Hd) as H1.
  pose proof (day_of_formatDate tz now Hnow) as H2.
  destruct (String.eqb_spec (formatDate tz d) (formatDate tz now)) as [E|E];
    symmetry; [apply bool_decide_eq_true|apply bool_decide_eq_false].
  - rewrite E in H1. congruence.
  - intros Hday. by apply E, formatDate_of_day.
Qed.

Lemma dayHeaders_mark_today_witness :
  dayHeaders 0 1717236000000 1717236000000
    = (λ date, (date, bool_decide (Nav.localDay 0 date = Nav.localDay 0 1717236000000)))
        <$> getDisplayDates 0 1717236000000.
Proof.
  apply (dayHeaders_mark_today 0 1717236000000 1717236000000);
    unfold four_digit_year; vm_compute; split; discriminate.
Defined.

(** X7.  Through a session of clicks on the navigation buttons, read off a
    clock that does not run backward, no date of the window is after the
    current time: the grid never shows a day after today. *)
Theorem window_never_shows_a_future_day (tz t0 : Z) (session : list (Z * Nav.click)) :
  Nav.clock_ok t0 session →
  let now := Nav.clock_at_end t0 session in
  Forall (λ d, d ≤ now ∧ Nav.localDay tz d ≤ Nav.localDay tz now)
    (getDisplayDates tz (Nav.run tz (Nav.init t0) session)).
Proof.
  intros Hck now.
  assert (Hv : Nav.run tz (Nav.init t0) session ≤ now)
    by (apply run_le; [unfold Nav.init; lia|done]).
  eapply Forall_impl; [apply dates_from_midnight|].
  intros d [_ Hd]. simpl in Hd.
  assert (d ≤ now) by lia. split; [done|]. by apply localDay_mono.
Qed.

Lemma window_never_shows_a_future_day_witness :
  Forall (λ d, d ≤ 1717336800000 ∧ Nav.localDay 0 d ≤ Nav.localDay 0 1717336800000)
    (getDisplayDates 0 (Nav.run 0 (Nav.init 1717236000000) session_three_clicks)).
Proof.
  apply (window_never_shows_a_future_day 0 1717236000000 session_three_clicks).
  simpl. lia.
Defined.

(** X8.  A click on previous shows the 14 days just before the window: no
    day is skipped and none is shown twice.  A click on next that does not
    reach past today shows the 14 days just after it.  A click on previous
    followed by a click on next brings back the day the window ended
    with, when that day was not after today. *)
Theorem paging_moves_by_whole_windows (tz now viewEndDate : Z) :
  let day := Nav.localDay tz viewEndDate in
  Nav.localDay tz <$> getDisplayDates tz viewEndDate = seqZ (day - 13) 14 ∧
  Nav.localDay tz <$> getDisplayDates tz (Nav.prevWeek_click viewEndDate)
    = seqZ (day - 27) 14 ∧
  (Nav.addDays viewEndDate 14 ≤ Nav.startOfDay tz now →
     Nav.localDay tz <$> getDisplayDates tz (Nav.nextWeek_click tz now viewEndDate)
       = seqZ (day + 1) 14) ∧
  (day ≤ Nav.localDay tz now →
     Nav.localDay tz (Nav.nextWeek_click tz now (Nav.prevWeek_click viewEndDate)) = day).
Proof.
  intros day. unfold day.
  split; [apply getDisplayDates_days|].
  split; [|split].
  - destruct (getDisplayDates_days tz (Nav.prevWeek_click viewEndDate)) as [_ ->].
    unfold Nav.prevWeek_click, Nav.addDays. rewrite localDay_shift. f_equal; lia.
  - intros Hle.
    destruct (nextWeek_click_cases tz now viewEndDate) as (Hadd & _ & _).
    rewrite (Hadd Hle).
    destruct (getDisplayDates_days tz (Nav.addDays viewEndDate 14)) as [_ ->].
    unfold Nav.addDays. rewrite localDay_shift. f_equal; lia.
  - intros Hle. rewrite nextWeek_click_day.
    unfold Nav.prevWeek_click, Nav.addDays. rewrite localDay_shift. lia.
Qed.
Lemma monthShort_not_L tz date rest :
  monthShort tz date +:+ rest ≠ "Last 14 Days".
Proof.
  unfold monthShort, getMonth.
  pose proof (month_date_bounds (Nav.localDay tz date)) as [Hm _].
  destruct (MonthFromDay (Nav.localDay tz date)) as [|p|p]; [done| |lia].
  assert (Hp : (p = 1 ∨ p = 2 ∨ p = 3 ∨ p = 4 ∨ p = 5 ∨ p = 6 ∨ p = 7 ∨ p = 8 ∨
                p = 9 ∨ p = 10 ∨ p = 11)%positive) by lia.
  repeat (destruct Hp as [->|Hp]; [done|]). by subst.
Qed.

(** X9.  The label of the window reads Last 14 Days exactly when the
    window ends today, and so after every click on today; any other
    window is labelled with the month and day of its first day and the
    day of its last day, with the month of the last day when the two
    months differ. *)
Theorem updateDateRangeLabel_last_14_days (tz now viewEndDate : Z) :
  let first := Nav.startOfDay tz (Nav.addDays viewEndDate (-13)) in
  let last := Nav.startOfDay tz viewEndDate in
  (updateDateRangeLabel tz now viewEndDate = "Last 14 Days"
     ↔ Nav.localDay tz viewEndDate = Nav.localDay tz now) ∧
  updateDateRangeLabel tz now (Nav.todayBtn_click now) = "Last 14 Days" ∧
  (Nav.localDay tz viewEndDate ≠ Nav.localDay tz now →
     updateDateRangeLabel tz now viewEndDate =
       monthShort tz first +:+ " " +:+ pretty (getDate tz first) +:+ " - " +:+
         (if String.eqb (monthShort tz first) (monthShort tz last)
          then pretty (getDate tz last)
          else monthShort tz last +:+ " " +:+ pretty (getDate tz last))).
Proof.
  intros first last.
  assert (Hsame : ∀ v, Nav.localDay tz v = Nav.localDay tz now →
                       updateDateRangeLabel tz now v = "Last 14 Days").
  { intros v E%startOfDay_same_day. unfold updateDateRangeLabel.
    by rewrite E, Z.eqb_refl. }
  assert (Hrange : Nav.startOfDay tz viewEndDate ≠ Nav.startOfDay tz now →
    updateDateRangeLabel tz now viewEndDate =
       monthShort tz first +:+ " " +:+ pretty (getDate tz first) +:+ " - " +:+
         (if String.eqb (monthShort tz first) (monthShort tz last)
          then pretty (getDate tz last)
          else monthShort tz last +:+ " " +:+ pretty (getDate tz last))).
  { intros E%Z.eqb_neq. unfold updateDateRangeLabel. rewrite E.
    unfold getDisplayDates, DAYS_TO_SHOW. rewrite dates_from_last.
    change (head (dates_from tz viewEndDate 14)) with (Some first).
    cbn [default]. fold last. by destruct (String.eqb _ _). }
  split; [|split; [by apply Hsame|]].
  - split; [|apply Hsame].
    destruct (Z.eq_dec (Nav.startOfDay tz viewEndDate) (Nav.startOfDay tz now)) as [E|E].
    { intros _. by apply startOfDay_same_day. }
    rewrite (Hrange E). intros H. by apply monthShort_not_L in H.
  - intros Hne. apply Hrange. intros E. by apply Hne, startOfDay_same_day.
Qed.
End window_theorems.

(** *** One toggle, one cell *)

Section toggle_frame.
Implicit Types (ps : props) (d : string).

Lemma toggle_record_other ps d d' :
  d ≠ d' → assoc_get d' (toggle_record ps d) = assoc_get d' ps.
Proof.
  intros Hne. unfold toggle_record.
  destruct (negb _); [by apply assoc_get_set_ne|].
  destruct (is_str _ _); [by apply assoc_get_set_ne|by apply assoc_get_del_ne].
Qed.

Lemma toggle_record_cell ps d :
  let v := of_option (assoc_get d ps) in
  of_option (assoc_get d (toggle_record ps d)) =
    if negb (truthy v) then VStr "done"
    else if is_str v "done" then VStr "skipped" else VUndefined.
Proof.
  intros v. unfold toggle_record. fold v.
  destruct (negb (truthy v)); [by rewrite assoc_get_set_eq|].
  destruct (is_str v "done"); [by rewrite assoc_get_set_eq|by rewrite assoc_get_del_eq].
Qed.

Lemma record_of_absent_or_object m id :
  object_or_absent m id →
  get_opt (of_option (assoc_get id m)) = λ d, of_option (assoc_get d (record_of m id)).
Proof. unfold record_of. by intros [->|[ps ->]]. Qed.
End toggle_frame.

(** X10.  For an id and a date that name no member of Object.prototype,
    on a completion map whose record for the habit is absent or an
    object, toggleCompletion writes one cell: afterwards that cell is
    done, skipped or untracked whatever it held before (a value other
    than done is cleared), every other cell of every habit reads as
    before (a cell being a date that names no inherited member), and the
    habit list is not touched. *)
Theorem toggleCompletion_touches_one_cell (st : State) (m : props) (id d : string) :
  own_name id → own_name d →
  completions st = VObj m → object_or_absent m id →
  let st' := exec (toggleCompletion id d) st in
  (∃ s, getHabitState st' id d = Ok s ∧
        (s = VStr "done" ∨ s = VStr "skipped" ∨ s = VNull)) ∧
  (∀ v, getHabitState st id d = Ok v → v ≠ VNull → v ≠ VStr "done" →
        getHabitState st' id d = Ok VNull) ∧
  (∀ id' d', own_name d' → (id', d') ≠ (id, d) →
        getHabitState st' id' d' = getHabitState st id' d') ∧
  (∀ id', id' ≠ id → get (completions st') id' = get (completions st) id') ∧
  habits st' = habits st ∧
  confirmCallback st' = confirmCallback st.
Proof.
  intros _ _ Hc Hr st'.
  assert (Hst : st' = with_completions st
    (VObj (assoc_set id (VObj (toggle_record (record_of m id) d)) m))).
  { unfold st', exec. by rewrite (toggle_object st m id d Hc Hr). }
  assert (Hcell : getHabitState st' id d =
    Ok (or_else (of_option (assoc_get d (toggle_record (record_of m id) d))) VNull)).
  { rewrite Hst. unfold getHabitState. simpl. by rewrite assoc_get_set_eq. }
  pose proof (toggle_record_cell (record_of m id) d) as Hv. cbv zeta in Hv.
  split; [|split; [|split; [|split; [|split]]]].
  - rewrite Hcell, Hv. eexists. split; [done|].
    destruct (negb _); [by left|]. destruct (is_str _ _); [by right; left|by right; right].
  - intros v Hg Hnull Hdone. rewrite Hcell, Hv.
    rewrite (getHabitState_object st m id d Hc Hr) in Hg. injection Hg as Hg.
    unfold or_else in Hg.
    destruct (truthy (of_option (assoc_get d (record_of m id)))) eqn:Ht; [|done].
    simpl. subst v.
    destruct (of_option (assoc_get d (record_of m id))) as [| |b|n|s|its nm|ps];
      try done.
    simpl. destruct (String.eqb_spec s "done") as [->|?]; done.
  - intros id' d' _ Hne. rewrite Hst. unfold getHabitState. rewrite Hc. simpl.
    destruct (decide (id' = id)) as [->|Hid].
    + rewrite assoc_get_set_eq. simpl.
      rewrite (record_of_absent_or_object m id Hr). unfold get_opt. simpl.
      rewrite toggle_record_other; [done|congruence].
    + by rewrite assoc_get_set_ne.
  - intros id' Hne. rewrite Hst, Hc. simpl. by rewrite assoc_get_set_ne.
  - by rewrite Hst.
  - by rewrite Hst.
Qed.

Lemma toggleCompletion_touches_one_cell_witness :
  getHabitState (exec (toggleCompletion "h1" "2024-03-02") st_two_cells) "h1" "2024-03-01"
    = getHabitState st_two_cells "h1" "2024-03-01".
Proof.
  destruct (toggleCompletion_touches_one_cell st_two_cells _ "h1" "2024-03-02"
              eq_refl eq_refl eq_refl)
    as (_ & _ & H & _).
  - right. eexists. reflexivity.
  - apply H; [reflexivity|congruence].
Defined.

(** *** Renaming *)

Import Handlers.

Section trim_facts.

Lemma trim_end_idemp s : trim_end (trim_end s) = trim_end s.
Proof.
  induction s as [|c s IH]; [done|]. simpl.
  destruct (trim_end s) as [|c' t] eqn:Ht.
  - destruct (is_space c) eqn:Hc; [done|]. simpl. by rewrite Hc.
  - change (trim_end (String c (String c' t)))
      with (match trim_end (String c' t) with
            | EmptyString => if is_space c then EmptyString else String c EmptyString
            | t2 => String c t2
            end).
    by rewrite IH.
Qed.

Lemma trim_start_black s : starts_black (trim_start s).
Proof.
  induction s as [|c s IH]; [done|]. simpl.
  destruct (is_space c) eqn:Hc; [done|]. simpl. done.
Qed.

Lemma trim_start_of_black s : starts_black s → trim_start s = s.
Proof. destruct s as [|c s]; [done|]. simpl. by intros ->. Qed.

Lemma trim_end_black s : starts_black s → starts_black (trim_end s).
Proof.
  destruct s as [|c s]; [done|]. simpl. intros Hc.
  destruct (trim_end s); [by rewrite Hc|done].
Qed.

Lemma trim_idemp s : trim (trim s) = trim s.
Proof.
  unfold trim.
  rewrite (trim_start_of_black (trim_end (trim_start s))).
  - apply trim_end_idemp.
  - apply trim_end_black, trim_start_black.
Qed.
End trim_facts.

Section rename_facts.
Implicit Types (h : value) (hs : list value) (st : State).

Lemma is_str_spec v s : is_str v s = true ↔ v = VStr s.
Proof.
  destruct v as [| |b|n|s'|its nm|ps]; simpl; try (split; [done|by intros]).
  rewrite String.eqb_eq. split; [by intros ->|by intros [= ->]].
Qed.

Lemma has_id_object habitId h :
  is_object h → has_id habitId h = Ok (is_str (get_opt h "id") habitId).
Proof. by intros [ps ->]. Qed.

(** What habits.find returns on a list of objects. *)
Lemma find_index_objects habitId hs : ∀ n,
  Forall is_object hs →
  (find_index habitId hs n = Ok None ∧ no_habit_with_id hs habitId) ∨
  (∃ i h, find_index habitId hs n = Ok (Some (n + i)%nat) ∧
          first_with_id hs habitId i h).
Proof.
  induction hs as [|h hs IH]; intros n Hall; simpl.
  - left. split; [done|]. intros h Hin. by apply elem_of_nil in Hin.
  - apply Forall_cons in Hall as [Hh Hall].
    unfold mbind, res_mbind, res_bind. rewrite (has_id_object habitId h Hh).
    simpl. destruct (is_str (get_opt h "id") habitId) eqn:Hid.
    + apply is_str_spec in Hid. right. exists 0%nat, h. rewrite Nat.add_0_r. split; [done|].
      split; [done|]. split; [done|]. intros j h' Hj. lia.
    + assert (Hne : get_opt h "id" ≠ VStr habitId).
      { intros E%is_str_spec. congruence. }
      destruct (IH (S n) Hall) as [[-> Hno]|(i & h0 & -> & Hl & Hi & Hfirst)].
      * left. split; [done|]. intros h' [->|Hin]%elem_of_cons; [done|by apply Hno].
      * right. exists (S i), h0. split; [do 2 f_equal; lia|].
        split; [done|]. split; [done|].
        intros [|j] h' Hj; simpl; [by intros [= <-]|].
        apply Hfirst. lia.
Qed.

Lemma first_with_id_unique hs habitId i h i' h' :
  first_with_id hs habitId i h → first_with_id hs habitId i' h' → i = i' ∧ h = h'.
Proof.
  intros (Hl & Hi & Hf) (Hl' & Hi' & Hf').
  destruct (Nat.lt_total i i') as [Hlt|[->|Hlt]].
  - by destruct (Hf' i h Hlt Hl).
  - split; [done|]. congruence.
  - by destruct (Hf i' h' Hlt Hl').
Qed.

Lemma with_name_object n h :
  is_object h →
  set h "name" (VStr n) = Ok (with_name n h) ∧
  is_object (with_name n h) ∧
  get (with_name n h) "name" = Ok (VStr n) ∧
  ∀ k, k ≠ "name" → get (with_name n h) k = get h k.
Proof.
  intros [ps ->]. unfold with_name. simpl. split; [done|].
  split; [by eexists|]. split; [by rewrite assoc_get_set_eq|].
  intros k Hk. by rewrite assoc_get_set_ne.
Qed.

Lemma state_eta st :
  {| habits := habits st; completions := completions st;
     confirmCallback := confirmCallback st |} = st.
Proof. by destruct st. Qed.

Lemma renameHabit_cases st habitId newName :
  Forall is_object (habits st) →
  (renameHabit habitId newName st = (Ok (), st) ∧
     (trim newName = "" ∨ no_habit_with_id (habits st) habitId)) ∨
  (∃ i h, first_with_id (habits st) habitId i h ∧ trim newName ≠ "" ∧
     renameHabit habitId newName st =
       (Ok (), with_habits st (<[i:=with_name (trim newName) h]> (habits st)))).
Proof.
  intros Hall.
  unfold renameHabit, mbind, M_bind, bind, lift, read_habits, write_habits.
  cbn [fst snd].
  destruct (find_index_objects habitId (habits st) 0 Hall)
    as [[-> Hno]|(i & h & -> & Hfirst)]; cbn [fst snd].
  { left. split; [done|by right]. }
  simpl (0 + i)%nat.
  destruct (String.eqb_spec (trim newName) "") as [E|E].
  { left. simpl. rewrite E. simpl. split; [done|by left]. }
  right. exists i, h. split; [done|]. split; [done|].
  simpl. rewrite (proj2 (String.eqb_neq _ _) E). simpl.
  destruct Hfirst as (Hl & _). rewrite Hl. simpl.
  assert (Hh : is_object h).
  { by apply (proj1 (Forall_forall _ _) Hall), list_elem_of_lookup_2 with i. }
  destruct (with_name_object (trim newName) h Hh) as (-> & _). done.
Qed.
End rename_facts.

(** X11.  On a list of habit objects renameHabit finishes and writes
    nothing but one name: with a blank new name, or an id no habit has,
    the state stays as it was; otherwise the first habit with the id gets
    the trimmed name, keeps its place and every other property, and all
    other habits and the completion map stay as they were. *)
Theorem renameHabit_renames_the_first_match (st : State) (habitId newName : string) :
  Forall is_object (habits st) →
  let st' := exec (renameHabit habitId newName) st in
  outcome (renameHabit habitId newName) st = Ok () ∧
  completions st' = completions st ∧
  confirmCallback st' = confirmCallback st ∧
  length (habits st') = length (habits st) ∧
  (trim newName = "" → st' = st) ∧
  (no_habit_with_id (habits st) habitId → st' = st) ∧
  (∀ i h, first_with_id (habits st) habitId i h → trim newName ≠ "" →
     habits st' = <[i:=with_name (trim newName) h]> (habits st) ∧
     get (with_name (trim newName) h) "name" = Ok (VStr (trim newName)) ∧
     (∀ k, k ≠ "name" → get (with_name (trim newName) h) k = get h k)).
Proof.
  intros Hall st'. unfold st', outcome, exec.
  destruct (renameHabit_cases st habitId newName Hall)
    as [[-> Hwhy]|(i & h & Hfirst & Hname & ->)]; cbn [fst snd].
  - do 6 (split; [done|]).
    intros i h Hfirst Hname. destruct Hwhy as [?|Hno]; [done|].
    destruct Hfirst as (Hl & Hi & _).
    destruct (Hno h); [by apply list_elem_of_lookup_2 with i|done].
  - split; [done|]. split; [done|]. split; [done|].
    split; [simpl; by rewrite length_insert|].
    split; [done|]. split.
    + intros Hno. destruct Hfirst as (Hl & Hi & _).
      destruct (Hno h); [by apply list_elem_of_lookup_2 with i|done].
    + intros i' h' Hfirst' _.
      destruct (first_with_id_unique _ _ _ _ _ _ Hfirst Hfirst') as [<- <-].
      split; [done|].
      assert (Hh : is_object h).
      { destruct Hfirst as (Hl & _).
        by apply (proj1 (Forall_forall _ _) Hall), list_elem_of_lookup_2 with i. }
      by destruct (with_name_object (trim newName) h Hh) as (_ & _ & ? & ?).
Qed.

Lemma renameHabit_renames_the_first_match_witness :
  habits (exec (renameHabit "b" "  Write ") st_unsorted)
    = [habit_a 5; with_name "Write" (habit_b 1)].
Proof.
  assert (Hall : Forall is_object (habits st_unsorted)).
  { repeat constructor; by eexists. }
  destruct (renameHabit_renames_the_first_match st_unsorted "b" "  Write " Hall)
    as (_ & _ & _ & _ & _ & _ & H).
  destruct (H 1%nat (habit_b 1)) as (-> & _); [|done|done].
  split; [done|]. split; [done|].
  intros [|[|j]] h' Hj; [|lia..]. by intros [= <-].
Defined.

(** X12.  The inline editor saves through saveEdit: a name that is blank,
    or the same as the one shown once trimmed, changes nothing, which
    covers Escape on a name without outer white space; any other input is
    passed to renameHabit, which stores it trimmed. *)
Theorem saveEdit_renames_only_on_change (st : State) (habitId currentName input : string) :
  (trim input = "" ∨ trim input = currentName →
     saveEdit habitId currentName input st = (Ok (), st)) ∧
  (trim currentName = currentName →
     saveEdit habitId currentName currentName st = (Ok (), st)) ∧
  (trim input ≠ "" → trim input ≠ currentName →
     saveEdit habitId currentName input st = renameHabit habitId input st).
Proof.
  unfold saveEdit. split; [|split].
  - intros [->| ->]; [done|]. simpl. by rewrite String.eqb_refl, andb_false_r.
  - intros ->. simpl. by rewrite String.eqb_refl, andb_false_r.
  - intros H1%String.eqb_neq H2%String.eqb_neq. simpl. rewrite H1, H2. simpl.
    unfold renameHabit. by rewrite trim_idemp.
Qed.

(** *** Adding a habit *)

Section add_facts.
Local Open Scope Z_scope.
Implicit Types (h : value) (hs : list value) (st : State).

Lemma numbered_order h : numbered h → order_key h = Int (order_of h).
Proof. intros [_ [z Hz]]. unfold order_of. by rewrite Hz. Qed.

Lemma maxOrder_numbered hs : ∀ a,
  Forall numbered hs →
  ∃ m, maxOrder hs (Int a) = Ok (Int m) ∧ a ≤ m ∧ Forall (λ h, order_of h ≤ m) hs.
Proof.
  induction hs as [|h hs IH]; intros a Hall; simpl.
  - exists a. split; [done|]. split; [lia|constructor].
  - apply Forall_cons in Hall as [Hh Hall].
    pose proof (numbered_order h Hh) as Hk. destruct Hh as [[ps ->] _].
    unfold mbind, res_mbind, res_bind. simpl.
    unfold order_key, get_opt in Hk. simpl in Hk. rewrite Hk. simpl.
    destruct (IH (Z.max a (order_of (VObj ps))) Hall) as (m & -> & Hle & Hm).
    exists m. split; [done|]. split; [lia|]. constructor; [lia|done].
Qed.

Lemma insert_before_last {A} (cmp : A → A → num) a x (s : list A) :
  after cmp a x = false → insert cmp a (s ++ [x]) = insert cmp a s ++ [x].
Proof.
  intros Hax. induction s as [|b s IH]; simpl; [by rewrite Hax|].
  destruct (after cmp a b); [by rewrite IH|done].
Qed.

Lemma sort_snoc {A} (cmp : A → A → num) x (l : list A) :
  Forall (λ a, after cmp a x = false) l → sort cmp (l ++ [x]) = sort cmp l ++ [x].
Proof.
  induction 1 as [|a l Ha Hl IH]; [done|]. simpl.
  rewrite IH. by apply insert_before_last.
Qed.

Lemma addHabit_run st m name id createdAt :
  Forall numbered (habits st) → completions st = VObj m →
  ∃ mx, 0 ≤ mx ∧ Forall (λ h, order_of h ≤ mx) (habits st) ∧
    addHabit name id createdAt st =
      (Ok (), {| habits := habits st ++ [new_habit name id createdAt (mx + 1)];
                 completions := VObj (assoc_set id (VObj []) m);
                 confirmCallback := confirmCallback st |}).
Proof.
  intros Hall Hc.
  destruct (maxOrder_numbered (habits st) 0 Hall) as (mx & Hmx & Hm0 & Hle).
  exists mx. split; [done|]. split; [done|].
  unfold addHabit, mbind, M_bind, bind, lift, read_habits, read_completions,
    write_habits, write_completions. cbn [fst snd]. rewrite Hmx.
  cbn [fst snd habits completions]. by rewrite Hc.
Qed.

(** With safe orders the largest order is safe too, and one more than it
    is an integer a number holds exactly. *)
Lemma addHabit_run_safe st m name id createdAt :
  Forall safely_numbered (habits st) → completions st = VObj m →
  ∃ mx, (0 ≤ mx ∧ safe_integer mx) ∧ Forall (λ h, order_of h ≤ mx) (habits st) ∧
    addHabit name id createdAt st =
      (Ok (), {| habits := habits st ++ [new_habit name id createdAt (mx + 1)];
                 completions := VObj (assoc_set id (VObj []) m);
                 confirmCallback := confirmCallback st |}).
Proof.
  intros Hsafe Hc.
  assert (Hall : Forall numbered (habits st)).
  { eapply Forall_impl; [exact Hsafe|]. intros h [Ho (z & Hz & _)]. split; [done|by exists z]. }
  destruct (addHabit_run st m name id createdAt Hall Hc) as (mx & Hm0 & Hle & Hrun).
  exists mx. split; [|done]. split; [done|].
  destruct (maxOrder_numbered (habits st) 0 Hall) as (mx' & Hmx & _ & _).
  assert (Hb : ∀ hs a, Forall safely_numbered hs → safe_integer a →
                 ∀ r, maxOrder hs (Int a) = Ok (Int r) → safe_integer r).
  { clear. induction hs as [|h hs IH]; intros a Hs Ha r; simpl.
    - by intros [= <-].
    - apply Forall_cons in Hs as [([ps ->] & z & Hz & Hsz) Hs].
      unfold mbind, res_mbind, res_bind. simpl.
      unfold order_key, get_opt in Hz. simpl in Hz. rewrite Hz. simpl.
      apply IH; [done|]. unfold safe_integer in *. lia. }
  revert Hrun. unfold addHabit, mbind, M_bind, bind, lift, read_habits. cbn [fst snd].
  rewrite Hmx. cbn [fst snd]. unfold write_habits, read_completions. cbn [fst snd].
  rewrite Hc. cbn [set mbind res_mbind res_bind fst snd]. unfold write_completions.
  cbn [fst snd habits]. intros [= Heq]. apply app_inj_tail in Heq as [_ Heq].
  injection Heq as Heq. assert (mx' = mx) as -> by lia.
  apply (Hb (habits st) 0); [done|unfold safe_integer; lia|done].
Qed.

Lemma new_habit_order name id createdAt order :
  1 ≤ order → order_key (new_habit name id createdAt order) = Int order.
Proof.
  intros Ho. unfold order_key, get_opt, or_else. simpl.
  destruct (Z.eqb_spec order 0); [lia|done].
Qed.
End add_facts.

(** X13.  On a list of habit objects whose orders are safe integers and
    a completion map that is an object, with an id that names no
    inherited member: addHabit finishes and appends one habit with the
    trimmed name and an order that is at least 1 and above every order in
    the list, and still exact as a number, so that it is shown as the
    last row; it gives the id an empty record, so that every cell of the
    new habit is untracked, and leaves the cells of the other ids alone.
    With an id and a trimmed name that are not empty the new habit passes
    the check importData makes on a habit. *)
Theorem addHabit_appends_the_last_row (st : State) (m : props) (name id createdAt : string) :
  Forall safely_numbered (habits st) → completions st = VObj m → own_name id →
  let st' := exec (addHabit name id createdAt) st in
  ∃ order,
    outcome (addHabit name id createdAt) st = Ok () ∧
    habits st' = habits st ++ [new_habit name id createdAt order] ∧
    (1 ≤ order ≤ 9007199254740992)%Z ∧
    Forall (λ h, (order_of h < order)%Z) (habits st) ∧
    sortedHabits (habits st')
      = sortedHabits (habits st) ++ [new_habit name id createdAt order] ∧
    completions st' = VObj (assoc_set id (VObj []) m) ∧
    (∀ d, own_name d → getHabitState st' id d = Ok VNull) ∧
    (∀ id' d, id' ≠ id → getHabitState st' id' d = getHabitState st id' d) ∧
    (id ≠ "" → trim name ≠ "" →
       check_habit (new_habit name id createdAt order) = Ok ()).
Proof.
  intros Hsafe Hc _ st'.
  assert (Hall : Forall numbered (habits st)).
  { eapply Forall_impl; [exact Hsafe|]. intros h [Ho (z & Hz & _)]. split; [done|by exists z]. }
  destruct (addHabit_run_safe st m name id createdAt Hsafe Hc) as (mx & Hm0 & Hle & Hrun).
  exists (mx + 1)%Z. unfold st', outcome, exec. rewrite Hrun. cbn [fst snd habits completions].
  split; [done|]. split; [done|]. split; [unfold safe_integer in Hm0; lia|].
  assert (Hlt : Forall (λ h, (order_of h < mx + 1)%Z) (habits st)).
  { eapply Forall_impl; [exact Hle|]. intros h Hh. simpl in Hh. lia. }
  split; [done|]. split.
  { unfold sortedHabits. apply sort_snoc.
    apply Forall_forall. intros h Hin.
    pose proof (proj1 (Forall_forall _ _) Hall h Hin) as Hn.
    pose proof (proj1 (Forall_forall _ _) Hlt h Hin) as Ho. simpl in Ho.
    unfold after. rewrite (numbered_order h Hn), new_habit_order by lia.
    simpl. apply Z.ltb_ge. lia. }
  split; [done|]. split.
  { intros d _. unfold getHabitState. simpl. by rewrite assoc_get_set_eq. }
  split.
  { intros id' d Hne. unfold getHabitState. rewrite Hc. simpl.
    by rewrite assoc_get_set_ne. }
  intros Hid Hname. unfold check_habit, new_habit. simpl.
  apply String.eqb_neq in Hid, Hname. by rewrite Hid, Hname.
Qed.

Lemma addHabit_appends_the_last_row_witness :
  ∃ order,
    sortedHabits (habits (exec (addHabit " Walk " "k3x9" "2024-03-02T10:00:00.000Z") st_unsorted))
      = sortedHabits (habits st_unsorted)
          ++ [new_habit " Walk " "k3x9" "2024-03-02T10:00:00.000Z" order].
Proof.
  assert (Hall : Forall safely_numbered (habits st_unsorted)).
  { repeat constructor; try (by eexists); eexists; (split; [reflexivity|]);
      unfold safe_integer; lia. }
  destruct (addHabit_appends_the_last_row st_unsorted [] " Walk " "k3x9"
              "2024-03-02T10:00:00.000Z" Hall eq_refl eq_refl)
    as (order & _ & _ & _ & _ & H & _).
  by exists order.
Defined.

(** *** Deleting a habit *)

Section delete_facts.
Implicit Types (h : value) (hs : list value) (st : State).





End delete_facts.



(** *** The dialog *)

(** X15.  deleteHabit only opens the dialog: with an id that no habit of
    a list of objects has it does nothing at all, and otherwise it stores
    its callback and leaves the data alone.  The OK button of the dialog
    then closes it without running the callback, because hideConfirm has
    cleared confirmCallback before the handler tests it: after deleteHabit
    or importData followed by a click on OK the habit list and the
    completion map are what they were before. *)
Theorem confirming_runs_no_callback (st : State) (habitId : string) (file : option text) :
  (Forall is_object (habits st) → no_habit_with_id (habits st) habitId →
     deleteHabit habitId st = (Ok (), st)) ∧
  (∀ i h, Forall is_object (habits st) → first_with_id (habits st) habitId i h →
     deleteHabit habitId st =
       (Ok (), {| habits := habits st; completions := completions st;
                  confirmCallback := Some (OnConfirmDelete habitId) |})) ∧
  (∀ asked, asked = exec (deleteHabit habitId) st ∨ asked = exec (importData file) st →
     outcome confirmOk_click asked = Ok () ∧
     habits (exec confirmOk_click asked) = habits st ∧
     completions (exec confirmOk_click asked) = completions st ∧
     confirmCallback (exec confirmOk_click asked) = None) ∧
  (∀ st0, habits (exec confirmOk_click st0) = habits st0 ∧
          completions (exec confirmOk_click st0) = completions st0 ∧
          exec confirmCancel_click st0 = exec confirmOk_click st0).
Proof.
  split; [|split; [|split]].
  - intros Hall Hno. unfold deleteHabit, mbind, M_bind, bind, lift, read_habits.
    cbn [fst snd].
    destruct (find_index_objects habitId (habits st) 0 Hall)
      as [[-> _]|(i & h & _ & Hl & Hi & _)]; [done|].
    destruct (Hno h); [by apply list_elem_of_lookup_2 with i|done].
  - intros i h Hall Hfirst. unfold deleteHabit, mbind, M_bind, bind, lift, read_habits.
    cbn [fst snd].
    destruct (find_index_objects habitId (habits st) 0 Hall)
      as [[_ Hno]|(i' & h' & -> & _)]; [|done].
    destruct Hfirst as (Hl & Hi & _).
    destruct (Hno h); [by apply list_elem_of_lookup_2 with i|done].
  - intros asked Hasked. unfold outcome, exec. rewrite confirmOk_click_runs_nothing.
    cbn [fst snd habits completions confirmCallback].
    destruct Hasked as [-> | ->].
    + by destruct (deleteHabit_writes_callback_only habitId st) as [-> ->].
    + by destruct (importData_writes_callback_only file st) as [-> ->].
  - intros st0. unfold exec. by rewrite confirmOk_click_runs_nothing.
Qed.

(** *** No action removes a habit *)

Section keeps_habits.
Implicit Types (st : State).

Lemma keeps_habits_bind {A B} (m : M A) (k : A → M B) :
  keeps_habits m → (∀ a, keeps_habits (k a)) → keeps_habits (m ≫= k).
Proof.
  intros Hm Hk st. specialize (Hm st). unfold exec, mbind, M_bind, bind in *.
  destruct (m st) as [[a|e] st1]; simpl in *; [|done].
  by rewrite <- Hm, <- (Hk a st1).
Qed.

Lemma keeps_habits_lift {A} (r : res A) : keeps_habits (lift r).
Proof. done. Qed.

Lemma keeps_habits_ret {A} (a : A) : keeps_habits (mret a).
Proof. done. Qed.

Lemma keeps_habits_write_completions c : keeps_habits (write_completions c).
Proof. done. Qed.

Lemma keeps_habits_read_completions : keeps_habits read_completions.
Proof. done. Qed.

Lemma toggleCompletion_keeps_habits habitId dateStr :
  keeps_habits (toggleCompletion habitId dateStr).
Proof.
  unfold toggleCompletion.
  repeat first
    [ apply keeps_habits_bind; [|intros ?]
    | apply keeps_habits_lift
    | apply keeps_habits_ret
    | apply keeps_habits_write_completions
    | apply keeps_habits_read_completions
    | match goal with |- keeps_habits (if ?b then _ else _) => destruct b end ].
Qed.

Lemma maxOrder_objects hs : ∀ acc,
  Forall is_object hs → ∃ n, maxOrder hs acc = Ok n.
Proof.
  induction hs as [|h hs IH]; intros acc Hall; simpl; [by eexists|].
  apply Forall_cons in Hall as [[ps ->] Hall]. simpl. apply IH, Hall.
Qed.

Lemma addHabit_habits st name id createdAt :
  Forall is_object (habits st) →
  ∃ h, is_object h ∧ get h "id" = Ok (VStr id) ∧
       habits (exec (addHabit name id createdAt) st) = habits st ++ [h].
Proof.
  intros Hall. destruct (maxOrder_objects (habits st) (Int 0) Hall) as [n Hn].
  eexists. split; [|split]; [| |
    unfold exec, addHabit, mbind, M_bind, bind, lift, read_habits, read_completions,
      write_habits, write_completions; cbn [fst snd]; rewrite Hn;
      cbn [fst snd habits completions];
      destruct (set (completions st) id (VObj [])); reflexivity].
  - by eexists.
  - done.
Qed.

Lemma known_object st id :
  known st id ↔ ∃ h, h ∈ habits st ∧ get h "id" = Ok (VStr id).
Proof. done. Qed.
End keeps_habits.

(** X16.  Whatever the page does to a list of habit objects, a
    submission, a rename, a toggle, a drop, a request to delete or to
    import, a click on OK or on Cancel, the list does not get shorter and
    every id that a habit carried is still carried by one: as the dialog
    never runs its callback, nothing removes a habit. *)
Theorem no_action_removes_a_habit (st : State) (a : action) :
  Forall is_object (habits st) → possible st a →
  let st' := exec (handler a) st in
  Forall is_object (habits st') ∧
  (length (habits st) ≤ length (habits st'))%nat ∧
  (∀ id, known st id → known st' id).
Proof.
  intros Hall Hp st'.
  assert (Hsame : ∀ st1, habits st1 = habits st →
    Forall is_object (habits st1) ∧
    (length (habits st) ≤ length (habits st1))%nat ∧
    (∀ id, known st id → known st1 id)).
  { intros st1 E. unfold known. rewrite E. done. }
  destruct a as [input id createdAt|habitId newName|habitId dateStr
                 |fromIndex toIndex|habitId|file| |];
    unfold st' in *; cbn [handler possible] in *.
  - unfold addHabitForm_submit.
    destruct (truthy (VStr (trim input))); [|by apply Hsame].
    destruct (addHabit_habits st input id createdAt Hall) as (h & Hh & Hid & E).
    unfold known. rewrite E. split; [|split].
    + apply Forall_app. split; [done|by constructor].
    + rewrite length_app. lia.
    + intros id' (h' & Hin & Hg). exists h'. split; [|done].
      apply elem_of_app. by left.
  - destruct (renameHabit_cases st habitId newName Hall)
      as [[E _]|(i & h & (Hl & Hi & _) & Hname & E)].
    + apply Hsame. unfold exec. by rewrite E.
    + assert (Hh : is_object h).
      { by apply (proj1 (Forall_forall _ _) Hall), list_elem_of_lookup_2 with i. }
      destruct (with_name_object (trim newName) h Hh) as (_ & Hobj & _ & Hkeep).
      unfold exec, known. rewrite E. cbn [snd with_habits habits].
      split; [by apply Forall_insert|]. split; [by rewrite length_insert|].
      intros id (h' & Hin & Hg).
      apply list_elem_of_lookup_1 in Hin as [j Hj].
      destruct (decide (j = i)) as [->|Hne].
      * exists (with_name (trim newName) h). split.
        -- apply list_elem_of_lookup_2 with i. apply list_lookup_insert_eq.
           by apply lookup_lt_Some with h.
        -- rewrite Hkeep by done. congruence.
      * exists h'. split; [|done]. apply list_elem_of_lookup_2 with j.
        by rewrite list_lookup_insert_ne.
  - apply Hsame, toggleCompletion_keeps_habits.
  - destruct Hp as [Hfrom _].
    destruct (reorderHabits_permutation_and_orders st fromIndex toIndex Hall Hfrom)
      as (_ & (p & Hp & E) & Hlen & _ & Hids).
    assert (Hobj : Forall is_object (habits (exec (reorderHabits fromIndex toIndex) st))).
    { rewrite E. apply Forall_forall. intros h Hin.
      apply list_elem_of_lookup_1 in Hin as [j Hj].
      rewrite list_lookup_imap in Hj.
      destruct (p !! j) as [y|] eqn:Hy; [|done]. injection Hj as <-.
      apply with_order_object.
      apply (proj1 (Forall_forall _ _) Hall). rewrite <- Hp.
      by apply list_elem_of_lookup_2 with j. }
    split; [done|]. split; [lia|].
    intros id (h & Hin & Hg).
    assert (Hh : is_object h) by (by apply (proj1 (Forall_forall _ _) Hall)).
    assert (Hid : id_of h = VStr id).
    { destruct Hh as [ps ->]. unfold id_of, get_opt. by rewrite Hg. }
    assert (Hmem : VStr id ∈ id_of <$> habits (exec (reorderHabits fromIndex toIndex) st)).
    { rewrite Hids, <- Hid. by apply list_elem_of_fmap_2. }
    apply list_elem_of_fmap in Hmem as (h' & Hid' & Hin').
    exists h'. split; [done|].
    destruct (proj1 (Forall_forall _ _) Hobj h' Hin') as [ps' ->].
    unfold id_of, get_opt in Hid'. simpl in *. by rewrite <- Hid'.
  - apply Hsame, deleteHabit_writes_callback_only.
  - apply Hsame. unfold exec, mbind, M_bind, bind.
    pose proof (importData_writes_callback_only file st) as [H1 _].
    unfold exec in H1. by destruct (importData file st) as [[o|e] st1].
  - by apply Hsame.
  - by apply Hsame.
Qed.

Lemma no_action_removes_a_habit_witness :
  known (exec (handler ConfirmOk) (exec (handler (AskDelete "a")) st_unsorted)) "a".
Proof.
  assert (Hall : Forall is_object (habits st_unsorted)).
  { repeat constructor; by eexists. }
  destruct (no_action_removes_a_habit st_unsorted (AskDelete "a") Hall I)
    as (Hall1 & _ & Hk1).
  destruct (no_action_removes_a_habit _ ConfirmOk Hall1 I) as (_ & _ & Hk2).
  apply Hk2, Hk1. exists (habit_a 5). split; [by left|done].
Defined.

(** *** The states of a session *)

(** X17.  In every state the page reaches from the empty store, by
    submissions with ids that are not empty, renames, toggles, drops and
    the dialog, each habit is an object of plain data with a string id and
    name that are not empty and an integer order; the array is in strictly
    ascending order of the orders, so that no two habits share an order
    and the rows are shown in array order; the completion map holds only
    done and skipped; and exportData writes the state as it is. *)
Theorem reachable_states_are_well_formed (st : State) :
  reachable st →
  Forall habit_wf (habits st) ∧
  StronglySorted (λ a b, (order_of a < order_of b)%Z) (habits st) ∧
  NoDup (order_of <$> habits st) ∧
  sortedHabits (habits st) = habits st ∧
  completions_ok (completions st) ∧
  only_done_or_skipped (completions st) ∧
  exportable st.
Proof.
  intros Hr. pose proof (reachable_store_wf st Hr) as Hwf.
  pose proof Hwf as (Hall & Hs & Hok).
  split; [done|]. split; [done|]. split.
  { apply sorted_by_order in Hs. clear -Hs.
    induction Hs as [|z zs Hs IH Hz]; constructor; [|done].
    intros Hin. pose proof (proj1 (Forall_forall _ _) Hz z Hin). lia. }
  split; [by apply store_wf_sorted|]. split; [done|].
  split; [by apply completions_ok_only_done_or_skipped|by apply store_wf_exportable].
Qed.

Lemma reachable_states_are_well_formed_witness :
  NoDup (order_of <$> habits
    (exec (handler (Submit "Walk" "k3x9" "2024-03-02T10:00:00.000Z")) initial)).
Proof.
  apply (reachable_states_are_well_formed
           (exec (handler (Submit "Walk" "k3x9" "2024-03-02T10:00:00.000Z")) initial)).
  apply reachable_step; [apply reachable_initial|done].
Defined.

(** *** The order of the rows *)

Section stable_sort.
Local Open Scope Z_scope.
Context {A : Type} (cmp : A → A → num) (key : A → Z) (Q : A → Prop).
Hypothesis after_key : ∀ a b, Q a → Q b → after cmp a b = bool_decide (key b < key a).

Lemma filter_key_insert z a (s : list A) :
  Q a → Forall Q s →
  filter (λ x, key x = z) (insert cmp a s)
    = filter (λ x, key x = z) (a :: s).
Proof.
  intros Qa Hs. induction Hs as [|b s Qb Hs IH]; [done|]. cbn [insert].
  rewrite (after_key a b Qa Qb). case_bool_decide as Hlt; [|done].
  rewrite filter_cons, IH, !filter_cons.
  destruct (decide (key b = z)), (decide (key a = z)); try done. lia.
Qed.

Lemma sort_stable z (l : list A) :
  Forall Q l →
  filter (λ x, key x = z) (sort cmp l) = filter (λ x, key x = z) l.
Proof.
  induction 1 as [|a l Qa Hl IH]; [done|]. cbn [sort].
  rewrite filter_key_insert; [|done|by rewrite sort_Permutation].
  by rewrite !filter_cons, IH.
Qed.

Lemma sort_by_key (l : list A) :
  Forall Q l → StronglySorted (λ a b, key a ≤ key b) (sort cmp l).
Proof.
  apply (sort_sorted cmp _ Q).
  - intros a b c _ _ _. lia.
  - intros a b Qa Qb. rewrite after_key by done. intros ?%bool_decide_eq_true. lia.
  - intros a b Qa Qb. rewrite after_key by done. intros ?%bool_decide_eq_false. lia.
Qed.
End stable_sort.

Lemma after_numbered a b :
  numbered a → numbered b →
  after (λ a b, sub (order_key a) (order_key b)) a b
    = bool_decide (order_of b < order_of a)%Z.
Proof.
  intros Ha%numbered_order Hb%numbered_order.
  unfold after. rewrite Ha, Hb. simpl.
  case_bool_decide; [apply Z.ltb_lt|apply Z.ltb_ge]; lia.
Qed.

(** X18.  On habit objects whose orders are integers, a missing order
    counting as 0, the rows renderHabits lays out are the habits of the
    array, each once, in ascending order of the orders, and habits with
    the same order stay in the order the array has them in. *)
Theorem sortedHabits_sorts_stably (hs : list value) :
  Forall numbered hs →
  sortedHabits hs ≡ₚ hs ∧
  StronglySorted (λ a b, (order_of a ≤ order_of b)%Z) (sortedHabits hs) ∧
  (∀ z, filter (λ h, order_of h = z) (sortedHabits hs)
        = filter (λ h, order_of h = z) hs) ∧
  (∀ h, h ∈ hs → get_opt h "order" = VUndefined → order_of h = 0%Z).
Proof.
  intros Hall. unfold sortedHabits.
  split; [apply sort_Permutation|]. split; [|split].
  - by apply (sort_by_key _ order_of numbered after_numbered).
  - intros z. by apply (sort_stable _ order_of numbered after_numbered).
  - intros h _ Hu. unfold order_of, order_key. by rewrite Hu.
Qed.

Lemma sortedHabits_sorts_stably_witness :
  sortedHabits [habit_a 5; habit_b 1] ≡ₚ [habit_a 5; habit_b 1].
Proof.
  apply (sortedHabits_sorts_stably [habit_a 5; habit_b 1]).
  repeat constructor; try (by eexists); by eexists.
Defined.

(** *** The bounds of reorderHabits *)

Section reorder_bounds.
Implicit Types (hs pre objs rest : list value) (st : State).

Lemma assign_order_throws objs : ∀ pre rest st,
  habits st = pre ++ objs ++ VUndefined :: rest → Forall is_object objs →
  assign_order (length pre) (objs ++ VUndefined :: rest) st =
    (Throw TypeError,
     with_habits st (pre ++ imap (λ i, with_order (length pre + i)) objs
                         ++ VUndefined :: rest)).
Proof.
  induction objs as [|h objs IH]; intros pre rest st Hhs Hall.
  - cbn [app assign_order imap]. unfold mbind, M_bind, bind, lift. cbn [set fst snd].
    unfold with_habits. simpl in Hhs. rewrite <- Hhs. by destruct st.
  - apply Forall_cons in Hall as [Hh Hall].
    cbn [app assign_order]. unfold mbind, M_bind, bind, lift, read_habits, write_habits.
    rewrite (set_order_object _ _ Hh). cbn [fst snd].
    rewrite Hhs. cbn [app]. rewrite insert_app_r_alt by lia.
    replace (length pre - length pre)%nat with 0%nat by lia.
    change (<[0%nat:=?x]> (h :: ?l)) with (x :: l).
    specialize (IH (pre ++ [with_order (length pre) h]) rest
      {| habits := pre ++ with_order (length pre) h :: objs ++ VUndefined :: rest;
         completions := completions st; confirmCallback := confirmCallback st |}).
    rewrite length_app in IH. cbn [length] in IH.
    replace (length pre + 1)%nat with (S (length pre)) in IH by lia.
    rewrite IH; [|by rewrite <- app_assoc|done].
    unfold with_habits. cbn [habits completions confirmCallback].
    do 2 f_equal. rewrite <- app_assoc. cbn [app imap]. do 2 f_equal.
    + f_equal. lia.
    + f_equal. apply imap_ext. intros i x _. simpl. f_equal. lia.
Qed.

Lemma moved_same hs i x : hs !! i = Some x → moved hs i i = hs.
Proof.
  intros Hx. pose proof (take_drop_middle hs i x Hx) as E.
  assert (Hi : i = length (take i hs)).
  { rewrite length_take. apply lookup_lt_Some in Hx. lia. }
  clear Hx. revert E Hi. generalize (take i hs) (drop (S i) hs).
  intros l1 l2 E Hi. subst hs i. unfold moved.
  rewrite list_lookup_middle by done. simpl.
  by rewrite delete_middle, take_app_length, drop_app_length.
Qed.
End reorder_bounds.

(** X19.  On a list of habit objects: with fromIndex in range
    reorderHabits finishes, whatever toIndex is; the entry taken out ends
    up at toIndex, or at the end when toIndex is past it, and the other
    entries keep their order; every habit has its position as order and
    is otherwise unchanged, and the completion map is not touched; moving
    an entry to its own place only renumbers.  With fromIndex past the end
    nothing is taken out, an undefined entry is put in at toIndex, the
    array is one longer, and the renumbering stops at that entry with a
    TypeError. *)
Theorem reorderHabits_in_and_out_of_range (st : State) (fromIndex toIndex : nat) :
  Forall is_object (habits st) →
  let st' := exec (reorderHabits fromIndex toIndex) st in
  ((fromIndex < length (habits st))%nat →
     outcome (reorderHabits fromIndex toIndex) st = Ok () ∧
     habits st' = imap with_order (moved (habits st) fromIndex toIndex) ∧
     moved (habits st) fromIndex toIndex ≡ₚ habits st ∧
     (∀ i h, habits st' !! i = Some h →
        get h "order" = Ok (VNum (Int (Z.of_nat i))) ∧
        ∃ h0, h0 ∈ habits st ∧ ∀ k, k ≠ "order" → get h k = get h0 k) ∧
     completions st' = completions st ∧
     (fromIndex = toIndex → habits st' = imap with_order (habits st)) ∧
     (let pos := (toIndex `min` (length (habits st) - 1))%nat in
      habits st' !! pos = with_order pos <$> (habits st !! fromIndex) ∧
      delete pos (moved (habits st) fromIndex toIndex) = delete fromIndex (habits st))) ∧
  ((length (habits st) ≤ fromIndex)%nat →
     outcome (reorderHabits fromIndex toIndex) st = Throw TypeError ∧
     length (habits st') = S (length (habits st)) ∧
     habits st' !! (toIndex `min` length (habits st))%nat = Some VUndefined).
Proof.
  intros Hall st'. split.
  - intros Hlt.
    destruct (lookup_lt_is_Some_2 _ _ Hlt) as [x Hx].
    pose proof (moved_Permutation (habits st) fromIndex toIndex x Hx) as Hp.
    pose proof (reorderHabits_objects st fromIndex toIndex Hall Hlt) as Hrun.
    assert (Hst : st' = with_habits st (imap with_order (moved (habits st) fromIndex toIndex))).
    { unfold st', exec. by rewrite Hrun. }
    assert (Hobj : Forall is_object (moved (habits st) fromIndex toIndex)) by (by rewrite Hp).
    split; [unfold outcome; by rewrite Hrun|]. rewrite Hst. cbn [with_habits habits completions].
    split; [done|]. split; [done|]. split; [|split; [done|split]].
    + intros i h. rewrite list_lookup_imap.
      destruct (moved (habits st) fromIndex toIndex !! i) as [y|] eqn:Hy; [|done].
      intros [= <-].
      assert (Hyo : is_object y).
      { by apply (proj1 (Forall_forall _ _) Hobj), list_elem_of_lookup_2 with i. }
      split; [by apply with_order_reads_back|].
      exists y. split; [rewrite <- Hp; by apply list_elem_of_lookup_2 with i|].
      intros k Hk. by apply with_order_keeps.
    + intros <-. by rewrite (moved_same _ _ _ Hx).
    + cbv zeta. set (pos := (toIndex `min` (length (habits st) - 1))%nat).
      assert (Hdel : length (delete fromIndex (habits st)) = (length (habits st) - 1)%nat).
      { rewrite length_delete; [done|by eexists]. }
      assert (Hpos : length (take toIndex (delete fromIndex (habits st))) = pos).
      { rewrite length_take, Hdel. done. }
      rewrite list_lookup_imap. unfold moved. rewrite Hx. cbn [of_option default].
      rewrite <- Hpos. rewrite list_lookup_middle by done.
      by rewrite delete_middle, take_drop.
  - intros Hge.
    assert (Hnone : habits st !! fromIndex = None) by (by apply lookup_ge_None_2).
    assert (Hdel : delete fromIndex (habits st) = habits st).
    { rewrite delete_take_drop, take_ge, drop_ge by lia. apply app_nil_r. }
    assert (Hrun : reorderHabits fromIndex toIndex st =
      (Throw TypeError,
       with_habits st (imap with_order (take toIndex (habits st))
                         ++ VUndefined :: drop toIndex (habits st)))).
    { unfold reorderHabits, mbind, M_bind, bind, read_habits, write_habits.
      cbn [fst snd]. rewrite Hnone, Hdel. cbn [of_option default].
      pose proof (assign_order_throws (take toIndex (habits st)) []
        (drop toIndex (habits st))
        {| habits := take toIndex (habits st) ++ VUndefined :: drop toIndex (habits st);
           completions := completions st; confirmCallback := confirmCallback st |}
        eq_refl) as Ha.
      cbn [length app] in Ha. rewrite Ha.
      - done.
      - apply Forall_take, Hall. }
    unfold st', outcome, exec. rewrite Hrun. cbn [fst snd with_habits habits].
    split; [done|]. split.
    + rewrite length_app, length_imap. cbn [length].
      rewrite length_take, length_drop. lia.
    + rewrite lookup_app_r; rewrite length_imap, length_take; [|lia].
      by replace (toIndex `min` length (habits st) - toIndex `min` length (habits st))%nat
        with 0%nat by lia.
Qed.

Lemma reorderHabits_in_and_out_of_range_witness :
  outcome (reorderHabits 2 0) st_unsorted = Throw TypeError.
Proof.
  assert (Hall : Forall is_object (habits st_unsorted)).
  { repeat constructor; by eexists. }
  destruct (reorderHabits_in_and_out_of_range st_unsorted 2 0 Hall) as [_ H].
  apply H. simpl. lia.
Defined.

(** *** Streaks, further *)

Section streak_runs.
Import DateKey.
Local Open Scope Z_scope.
Implicit Types (es : list (string * value)) (ks : list string) (k : string).

(** The newest done date heads the dates sorted newest first, and the run
    counted from it is a run of done days that the day before it breaks. *)
Lemma newest_first_head es first rest :
  well_keyed es → sort newest_first (doneDates es) = first :: rest →
  most_recent es first (day_number first) ∧
  (1 ≤ count_current first rest 1)%nat ∧
  run_back_to es (day_number first) (count_current first rest 1) ∧
  ¬ done_on es (day_number first - Z.of_nat (count_current first rest 1)).
Proof.
  intros Hwk Hsort.
  destruct (newest_first_sorted es Hwk) as (Hp & Hc & Hs).
  pose proof (proj2 Hwk) as Hcan. cbv zeta in Hp, Hc, Hs. rewrite Hsort in Hp, Hc, Hs.
  pose proof Hc as Hc'. apply Forall_cons in Hc' as [Cf _].
  pose proof Hs as Hs'. apply StronglySorted_cons in Hs' as [Hall _].
  assert (Hin : first ∈ doneDates es) by (rewrite <- Hp; by left).
  split; [|split; [apply count_current_ge|]].
  - split; [done|]. split; [by apply canonical_day|].
    intros d' (k & Hk & Hd). rewrite <- Hp in Hk.
    assert (day_number k = d') as <- by (unfold day_number; by rewrite Hd).
    apply elem_of_cons in Hk as [->|Hk]; [done|].
    by destruct (proj1 (Forall_forall _ _) Hall k Hk).
  - apply (count_current_run (done_on es) rest first Hc Hs).
    + exists first. split; [done|by apply canonical_day].
    + intros x Hx. rewrite done_on_day_number by done. split.
      * intros (k' & Hk' & Hdk). rewrite <- Hp in Hk'.
        apply elem_of_cons in Hk' as [->|?]; [lia|eauto].
      * intros (k' & Hk' & Hdk). exists k'. split; [|done].
        rewrite <- Hp. by right.
Qed.

(** The longest streak bounds every run of done days. *)
Lemma longest_bounds_runs today yesterday es d n :
  well_keyed es → run_back_to es d n →
  (n ≤ longest (streak_of today yesterday es))%nat.
Proof.
  intros Hwk Hn. pose proof (proj2 Hwk) as Hcan.
  destruct (doneDates es) as [|k0 ks0] eqn:Hdates.
  { destruct n as [|n]; [lia|].
    destruct (Hn 0%nat ltac:(lia)) as (k & Hin & _).
    rewrite Hdates in Hin. by apply elem_of_nil in Hin. }
  destruct (oldest_first_sorted es Hwk) as (Hp & Hc & Hs).
  destruct (sort oldest_first (doneDates es)) as [|first rest] eqn:Hsort.
  { rewrite Hdates in Hp. by apply Permutation_nil_cons in Hp. }
  assert (Hl : longest (streak_of today yesterday es) = scan_longest first rest 1 1).
  { by rewrite streak_of_unfold, Hdates, <- Hdates, Hsort. }
  rewrite Hl. rewrite <- Hdates in Hcan.
  pose proof Hc as Hc'. apply Forall_cons in Hc' as [Cf _].
  pose proof Hs as Hs'. apply StronglySorted_cons in Hs' as [Hall _].
  assert (Hlow : ∀ x, x < day_number first → ¬ done_on es x).
  { intros x Hx. rewrite done_on_day_number by done.
    intros (k & Hk & Hdk). rewrite <- Hp in Hk.
    apply elem_of_cons in Hk as [->|Hk]; [lia|].
    destruct (proj1 (Forall_forall _ _) Hall k Hk). lia. }
  assert (Hfirst : done_on es (day_number first)).
  { exists first. split; [rewrite <- Hp; by left|by apply canonical_day]. }
  destruct (scan_longest_max (done_on es) rest first 1 1 Hc Hs)
    as (_ & Hbound & _).
  - intros x Hx. rewrite done_on_day_number by done. split.
    + intros (k' & Hk' & Hdk). rewrite <- Hp in Hk'.
      apply elem_of_cons in Hk' as [->|?]; [lia|eauto].
    + intros (k' & Hk' & Hdk). exists k'. split; [|done].
      rewrite <- Hp. by right.
  - intros i Hi. by replace (day_number first - Z.of_nat i) with (day_number first) by lia.
  - apply Hlow. lia.
  - lia.
  - exists (day_number first). intros i Hi.
    by replace (day_number first - Z.of_nat i) with (day_number first) by lia.
  - intros d0 [|[|n0]] Hd Hn0; [lia..|]. exfalso.
    apply (Hlow (d0 - 1)); [lia|].
    replace (d0 - 1) with (d0 - Z.of_nat 1) by lia. apply Hn0. lia.
  - by apply (Hbound d n).
Qed.

Lemma current_unfold today yesterday es first rest :
  sort newest_first (doneDates es) = first :: rest →
  current (streak_of today yesterday es) =
    if String.eqb first today || String.eqb first yesterday
    then count_current first rest 1 else 0%nat.
Proof.
  intros Hsort. rewrite streak_of_unfold, Hsort.
  by destruct (doneDates es).
Qed.

Lemma sort_nil_inv {A} (cmp : A → A → num) (l : list A) : sort cmp l = [] → l = [].
Proof. intros E. apply Permutation_nil. by rewrite <- (sort_Permutation cmp l), E. Qed.
End streak_runs.

Section streak_more.
Import DateKey.
Local Open Scope Z_scope.

(** X20.  For the per-date record of a habit with one entry per key and
    date keys on its done entries, the current streak is never longer
    than the longest streak, and the longest streak is 0 exactly when no
    date is done. *)
Theorem current_streak_at_most_longest
    (today yesterday : string) (es : list (string * value)) :
  well_keyed es →
  let s := streak_of today yesterday es in
  (current s ≤ longest s)%nat ∧
  (longest s = 0%nat ↔ doneDates es = []) ∧
  (doneDates es = [] → current s = 0%nat).
Proof.
  intros Hwk s. split; [|split].
  - destruct (sort newest_first (doneDates es)) as [|first rest] eqn:Hsort.
    + apply sort_nil_inv in Hsort. unfold s. rewrite streak_of_unfold, Hsort. done.
    + unfold s. rewrite (current_unfold _ _ _ _ _ Hsort).
      destruct (_ || _); [|lia].
      destruct (newest_first_head es first rest Hwk Hsort) as (_ & _ & Hrun & _).
      by apply (longest_bounds_runs _ _ _ (day_number first)).
  - split.
    + intros Hl. destruct (doneDates es) as [|k ks] eqn:Hd; [done|].
      assert (Hk : canonical k).
      { destruct Hwk as [_ Hc]. rewrite Hd in Hc. by apply Forall_cons in Hc as [? _]. }
      assert (Hrun : run_back_to es (day_number k) 1).
      { intros i Hi. replace (day_number k - Z.of_nat i) with (day_number k) by lia.
        exists k. split; [rewrite Hd; by left|by apply canonical_day]. }
      pose proof (longest_bounds_runs today yesterday es _ _ Hwk Hrun). fold s in H. lia.
    + intros Hd. unfold s. by rewrite streak_of_unfold, Hd.
  - intros Hd. unfold s. by rewrite streak_of_unfold, Hd.
Qed.

Lemma current_streak_at_most_longest_witness :
  (current (streak_of "2024-01-04" "2024-01-03" example_record)
     ≤ longest (streak_of "2024-01-04" "2024-01-03" example_record))%nat.
Proof.
  apply (current_streak_at_most_longest "2024-01-04" "2024-01-03" example_record).
  apply example_record_well_keyed.
Defined.
Lemma strictly_sorted_unique (R : relation Z) (l1 l2 : list string) :
  (∀ x y, R x y → R y x → x = y) →
  StronglySorted (λ a b, R (day_number a) (day_number b)
                         ∧ day_number a ≠ day_number b) l1 →
  StronglySorted (λ a b, R (day_number a) (day_number b)
                         ∧ day_number a ≠ day_number b) l2 →
  l1 ≡ₚ l2 → l1 = l2.
Proof.
  intros HR. apply StronglySorted_unique_strong.
  intros x1 x2 _ _ [H1 Hne] [H2 _]. destruct Hne. by apply HR.
Qed.

(** X21.  The streaks depend only on which dates are done: two records
    with the same done dates give the same streaks, whatever the order of
    their keys and whatever their other entries. *)
Theorem streak_depends_only_on_done_dates
    (today yesterday : string) (es es' : list (string * value)) :
  well_keyed es → well_keyed es' → doneDates es ≡ₚ doneDates es' →
  streak_of today yesterday es = streak_of today yesterday es'.
Proof.
  intros Hwk Hwk' Hp.
  destruct (newest_first_sorted es Hwk) as (Hp1 & _ & Hs1).
  destruct (newest_first_sorted es' Hwk') as (Hp1' & _ & Hs1').
  destruct (oldest_first_sorted es Hwk) as (Hp2 & _ & Hs2).
  destruct (oldest_first_sorted es' Hwk') as (Hp2' & _ & Hs2').
  assert (E1 : sort newest_first (doneDates es) = sort newest_first (doneDates es')).
  { apply (strictly_sorted_unique (λ x y, y ≤ x)); [lia|done..|].
    by rewrite Hp1, Hp1'. }
  assert (E2 : sort oldest_first (doneDates es) = sort oldest_first (doneDates es')).
  { apply (strictly_sorted_unique (λ x y, x ≤ y)); [lia|done..|].
    by rewrite Hp2, Hp2'. }
  rewrite !streak_of_unfold, E1, E2.
  destruct (doneDates es) as [|k ks] eqn:Hd.
  - apply Permutation_nil in Hp. by rewrite Hp.
  - destruct (doneDates es') as [|k' ks'] eqn:Hd'; [|done].
    symmetry in Hp. by apply Permutation_nil_cons in Hp.
Qed.

Lemma streak_depends_only_on_done_dates_witness :
  streak_of "2024-01-04" "2024-01-03" example_record
    = streak_of "2024-01-04" "2024-01-03" (reverse example_record).
Proof.
  apply (streak_depends_only_on_done_dates _ _ example_record (reverse example_record)).
  - apply example_record_well_keyed.
  - split.
    + apply (bool_decide_unpack _). by vm_compute.
    + repeat constructor; by eexists.
  - vm_compute. apply Permutation_rev.
Defined.

Lemma most_recent_unique es k d k' d' :
  most_recent es k d → most_recent es k' d' → k = k' ∧ d = d'.
Proof.
  intros (Hin & Hd & Hmax) (Hin' & Hd' & Hmax').
  assert (d' ≤ d) by (apply Hmax; by exists k').
  assert (d ≤ d') by (apply Hmax'; by exists k).
  assert (d = d') as <- by lia. split; [|done]. by apply (day_of_inj _ _ d).
Qed.

(** The run calculateStreak counts from the newest done date. *)
Lemma current_of_most_recent today yesterday es key d :
  well_keyed es → most_recent es key d →
  current (streak_of today yesterday es) =
    (if String.eqb key today || String.eqb key yesterday
     then current (streak_of key key es) else 0%nat) ∧
  (1 ≤ current (streak_of key key es))%nat ∧
  run_back_to es d (current (streak_of key key es)) ∧
  ¬ done_on es (d - Z.of_nat (current (streak_of key key es))).
Proof.
  intros Hwk Hmr.
  assert (Hne : doneDates es ≠ []).
  { destruct Hmr as (Hin & _). intros E. rewrite E in Hin. by apply elem_of_nil in Hin. }
  destruct (sort newest_first (doneDates es)) as [|first rest] eqn:Hsort.
  { by apply sort_nil_inv in Hsort. }
  destruct (newest_first_head es first rest Hwk Hsort) as (Hmr' & Hge & Hrun & Hstop).
  destruct (most_recent_unique _ _ _ _ _ Hmr Hmr') as [-> ->].
  rewrite !(current_unfold _ _ _ _ _ Hsort), String.eqb_refl. done.
Qed.

(** A key that names day [d] is the key formatDate writes for a time
    exactly when the time falls on that day. *)
Lemma key_is_formatDate key d tz t :
  day_of key = Some d → four_digit_year tz t →
  key = formatDate tz t ↔ d = Nav.localDay tz t.
Proof.
  intros Hd Hy. pose proof (day_of_formatDate tz t Hy) as Dt. split.
  - intros ->. rewrite Dt in Hd. by injection Hd.
  - intros ->. by apply (day_of_inj _ _ _ Hd).
Qed.

(** C2.  With [today] the key formatDate writes for the clock reading and
    [yesterday] the key it writes for the time 24 hours before the second
    reading, under whatever offsets of local time are in effect at those
    times: calculateStreak returns the streak computed from the record
    with these two keys; with no done date current is 0; when the most
    recent done date is neither today nor yesterday current is 0;
    otherwise current is the number of calendar days, ending with the
    most recent done date and counting it, that are all done, the day
    before them not being done.  In four-digit years the most recent done
    date is today when its day is the local day of the reading, and
    yesterday when its day is the local day of the time 24 hours before.
    Entries that are skipped change nothing. *)
Theorem current_streak_is_run_from_most_recent
    (zone : Z → Z) (now now' : Z) (es : list (string * value)) :
  well_keyed es →
  let before := now' - 86400000 in
  let today := formatDate (zone now) now in
  let yesterday := formatDate (zone before) before in
  let s := streak_of today yesterday es in
  (∀ st habitId, get (completions st) habitId = Ok (VObj es) →
     calculateStreak_at zone now now' st habitId = Ok s) ∧
  (doneDates es = [] → current s = 0%nat) ∧
  (∀ key d, most_recent es key d →
     (key ≠ today → key ≠ yesterday → current s = 0%nat) ∧
     (key = today ∨ key = yesterday →
        (1 ≤ current s)%nat ∧
        run_back_to es d (current s) ∧
        ¬ done_on es (d - Z.of_nat (current s))) ∧
     (four_digit_year (zone now) now →
        key = today ↔ d = Nav.localDay (zone now) now) ∧
     (four_digit_year (zone before) before →
        key = yesterday ↔ d = Nav.localDay (zone before) before)) ∧
  (∀ key st habitId,
     get (completions st) habitId = Ok (VObj (es ++ [(key, VStr "skipped")])) →
     calculateStreak_at zone now now' st habitId = Ok s).
Proof.
  intros Hwk before today yesterday s.
  split; [intros; by apply calculateStreak_object|].
  split; [intros Hnil; unfold s; by rewrite streak_of_unfold, Hnil|].
  split.
  2:{ intros key st habitId Hg.
      unfold calculateStreak_at, todayKey, yesterdayKey, localKey.
      rewrite (calculateStreak_object _ _ _ _ _ Hg). f_equal.
      unfold s, streak_of. by rewrite doneDates_skipped. }
  intros key d Hmr.
  destruct (current_of_most_recent today yesterday es key d Hwk Hmr)
    as (Hcur & Hge & Hrun & Hstop).
  fold s in Hcur. pose proof Hmr as (_ & Hd & _).
  split; [|split; [|split]].
  - intros Ht Hy. rewrite Hcur.
    by rewrite (proj2 (String.eqb_neq _ _) Ht), (proj2 (String.eqb_neq _ _) Hy).
  - intros Hty.
    assert (current s = current (streak_of key key es)) as ->; [|done].
    rewrite Hcur. destruct Hty as [->| ->]; rewrite String.eqb_refl;
      [done|by rewrite orb_true_r].
  - intros Hy. by apply key_is_formatDate.
  - intros Hy. by apply key_is_formatDate.
Qed.

Lemma example_most_recent : most_recent example_record "2024-01-04" 19726.
Proof.
  split; [|split; [reflexivity|]].
  - apply (bool_decide_unpack _). by vm_compute.
  - intros d' (key & Hin & Hd).
    change (doneDates example_record)
      with ["2024-01-01"; "2024-01-02"; "2024-01-04"] in Hin.
    repeat (apply elem_of_cons in Hin as [->|Hin];
            [vm_compute in Hd; injection Hd as <-; lia|]).
    by apply elem_of_nil in Hin.
Qed.

Lemma current_streak_is_run_from_most_recent_witness :
  calculateStreak_at (λ _, 0) 1704362400000 1704362400000 st_example "h1"
    = Ok (streak_of "2024-01-04" "2024-01-03" example_record) ∧
  (1 ≤ current (streak_of "2024-01-04" "2024-01-03" example_record))%nat ∧
  run_back_to example_record 19726
    (current (streak_of "2024-01-04" "2024-01-03" example_record)) ∧
  ¬ done_on example_record
      (19726 - Z.of_nat (current (streak_of "2024-01-04" "2024-01-03" example_record))).
Proof.
  destruct (current_streak_is_run_from_most_recent
              (λ _, 0) 1704362400000 1704362400000 example_record
              example_record_well_keyed)
    as (H1 & _ & H & _).
  split; [by apply (H1 st_example "h1")|].
  destruct (H "2024-01-04" 19726%Z example_most_recent) as (_ & Hrun & _).
  apply Hrun. by left.
Defined.

(** The day before a local day, by the clock: the local day of the time
    24 hours before [now'] is one less than the day [now'] falls on when
    read with the offset of 24 hours before. *)
Lemma localDay_24_hours_before tz t :
  Nav.localDay tz (t - 86400000) = Nav.localDay tz t - 1.
Proof.
  unfold Nav.localDay, msPerDay.
  replace (t - 86400000 + tz) with (t + tz + (-1) * 86400000) by lia.
  rewrite Z.div_add by done. lia.
Qed.

(** X22.  With the two keys read off the clock, in four-digit years:
    calculateStreak reports a current streak of at least 1 exactly when
    the newest done day of the record is the local day of the clock or
    the local day of the time 24 hours before, and then it is the number
    of done days in a row that end with that day.  The local day of the
    time 24 hours before is the day before today when the reading, taken
    with the offset of 24 hours before, falls on today, as it does when
    the offset has not changed; when it is another day, a record whose
    newest done day is the day before today has a current streak of 0. *)
Theorem current_streak_runs_to_today_or_yesterday
    (zone : Z → Z) (now now' : Z) (st : State) (habitId : string)
    (es : list (string * value)) (key : string) (d : Z) :
  let before := now' - 86400000 in
  let today := Nav.localDay (zone now) now in
  let dayBefore := Nav.localDay (zone before) before in
  four_digit_year (zone now) now → four_digit_year (zone before) before →
  get (completions st) habitId = Ok (VObj es) →
  well_keyed es → most_recent es key d →
  ∃ s, calculateStreak_at zone now now' st habitId = Ok s ∧
    ((1 ≤ current s)%nat ↔ d = today ∨ d = dayBefore) ∧
    ((1 ≤ current s)%nat →
       run_back_to es d (current s) ∧ ¬ done_on es (d - Z.of_nat (current s))) ∧
    (current s ≤ longest s)%nat ∧
    (dayBefore = today - 1 ↔ Nav.localDay (zone before) now' = today) ∧
    (now' = now → zone before = zone now → dayBefore = today - 1) ∧
    (d = today - 1 → dayBefore ≠ today - 1 → current s = 0%nat).
Proof.
  intros before today dayBefore Hn Hy Hg Hwk Hmr.
  exists (streak_of (formatDate (zone now) now) (formatDate (zone before) before) es).
  split; [by apply calculateStreak_object|].
  destruct (current_of_most_recent (formatDate (zone now) now)
              (formatDate (zone before) before) es key d Hwk Hmr)
    as (Hcur & Hge & Hrun & Hstop).
  pose proof Hmr as (_ & Hd & _).
  pose proof (key_is_formatDate key d _ _ Hd Hn) as Ht.
  pose proof (key_is_formatDate key d _ _ Hd Hy) as Hyd.
  fold today in Ht. fold dayBefore in Hyd.
  rewrite <- String.eqb_eq in Ht, Hyd.
  assert (Hiff : (1 ≤ current (streak_of (formatDate (zone now) now)
                                  (formatDate (zone before) before) es))%nat
                 ↔ d = today ∨ d = dayBefore).
  { rewrite Hcur.
    destruct (String.eqb key (formatDate (zone now) now)) eqn:B1;
      destruct (String.eqb key (formatDate (zone before) before)) eqn:B2; simpl.
    - split; [intros _; left; by apply Ht|done].
    - split; [intros _; left; by apply Ht|done].
    - split; [intros _; right; by apply Hyd|done].
    - split; [lia|]. intros [Eq|Eq]; [apply Ht in Eq|apply Hyd in Eq]; congruence. }
  assert (Hday : dayBefore = Nav.localDay (zone before) now' - 1)
    by apply localDay_24_hours_before.
  split; [done|]. split.
  { rewrite Hcur. destruct (_ || _); [done|lia]. }
  split.
  { rewrite Hcur. destruct (_ || _); [|lia].
    by apply (longest_bounds_runs _ _ _ d). }
  split; [rewrite Hday; lia|].
  split.
  { intros -> Hz. rewrite Hday. unfold today. rewrite Hz. done. }
  intros Hd1 Hne.
  destruct (current (streak_of (formatDate (zone now) now)
                       (formatDate (zone before) before) es)) as [|n] eqn:E; [done|].
  assert (H1 : (1 ≤ S n)%nat) by lia. apply Hiff in H1 as [H1|H1]; lia.
Qed.

Lemma march_10_most_recent : most_recent record_march_10 "2024-03-10" 19792.
Proof.
  split; [|split; [reflexivity|]].
  - apply (bool_decide_unpack _). by vm_compute.
  - intros d' (key & Hin & Hd).
    change (doneDates record_march_10) with ["2024-03-10"] in Hin.
    apply elem_of_cons in Hin as [->|Hin]; [|by apply elem_of_nil in Hin].
    vm_compute in Hd. injection Hd as <-. lia.
Qed.

Lemma current_streak_runs_to_today_or_yesterday_witness :
  ∃ s, calculateStreak_at new_york_2024 1710131400000 1710131400000 st_march_10 "h1"
         = Ok s ∧
       current s = 0%nat.
Proof.
  destruct (current_streak_runs_to_today_or_yesterday new_york_2024
              1710131400000 1710131400000 st_march_10 "h1"
              record_march_10 "2024-03-10" 19792)
    as (s & Hs & _ & _ & _ & _ & _ & H0).
  - unfold four_digit_year. vm_compute. split; discriminate.
  - unfold four_digit_year. vm_compute. split; discriminate.
  - reflexivity.
  - split; [apply (bool_decide_unpack _); by vm_compute|].
    repeat constructor. by eexists.
  - apply march_10_most_recent.
  - exists s. split; [done|]. apply H0; by vm_compute.
Defined.
End streak_more.

(** *** Loading *)

Section load_facts.
Implicit Types (m : props) (ks : list string).

Lemma migrate_record_idemp r : migrate_record (migrate_record r) = migrate_record r.
Proof. by destruct r. Qed.

Lemma migration_fold ks : ∀ m,
  NoDup m.*1 →
  fold_left migrate_key ks (VObj m) =
    VObj ((λ kv, if bool_decide (kv.1 ∈ ks) then (kv.1, migrate_record kv.2) else kv) <$> m).
Proof.
  induction ks as [|k ks IH]; intros m Hnd; cbn [fold_left].
  - f_equal. rewrite <- (list_fmap_id m) at 1. apply list_fmap_ext.
    intros i [k' r] _. by rewrite bool_decide_eq_false_2 by apply not_elem_of_nil.
  - rewrite migrate_key_object by done. rewrite IH by (by rewrite map_at_keys).
    f_equal. unfold map_at. rewrite <- list_fmap_compose.
    apply list_fmap_ext. intros i [k' r] _. simpl.
    destruct (String.eqb_spec k k') as [->|Hne]; simpl.
    + rewrite (bool_decide_eq_true_2 (k' ∈ k' :: ks)) by (by left).
      case_bool_decide; [by rewrite migrate_record_idemp|done].
    + destruct (decide (k' ∈ ks)) as [Hin|Hnin].
      * rewrite !bool_decide_eq_true_2; [done|by right|done].
      * rewrite !bool_decide_eq_false_2; [done| |done].
        intros [?|?]%elem_of_cons; congruence.
Qed.

Lemma loadData_object stored_habits m st :
  NoDup m.*1 →
  loadData stored_habits (VObj m) st =
    (Ok (), {| habits := default [] stored_habits; completions := VObj (migrated m);
               confirmCallback := confirmCallback st |}).
Proof.
  intros Hnd. unfold loadData, mbind, M_bind, bind, lift, write_habits, write_completions.
  change (or_else (VObj m) (VObj [])) with (VObj m). cbn [fst snd keys entries].
  simpl. rewrite (migration_fold m.*1 m Hnd). do 3 f_equal.
  unfold migrated. apply list_fmap_ext. intros i [k r] Hl. simpl.
  rewrite bool_decide_eq_true_2; [done|].
  apply (list_elem_of_fmap_2 fst m (k, r)). by apply list_elem_of_lookup_2 with i.
Qed.

Lemma assoc_get_fmap (f : value → value) k m :
  assoc_get k ((λ kv, (kv.1, f kv.2)) <$> m) = f <$> assoc_get k m.
Proof.
  induction m as [|[k' r] m IH]; [done|]. rewrite fmap_cons. simpl.
  by destruct (String.eqb k k').
Qed.

Lemma dates_record (dates : list string) d : ∀ acc,
  assoc_get d (fold_left (λ r date, assoc_set (to_string date) (VStr "done") r)
                 (VStr <$> dates) acc)
    = if bool_decide (d ∈ dates) then Some (VStr "done") else assoc_get d acc.
Proof.
  induction dates as [|date dates IH]; intros acc.
  - by rewrite bool_decide_eq_false_2 by apply not_elem_of_nil.
  - rewrite fmap_cons. cbn [fold_left to_string]. rewrite IH. destruct (decide (d ∈ dates)) as [Hin|Hnin].
    + rewrite !bool_decide_eq_true_2; [done|by right|done].
    + rewrite (bool_decide_eq_false_2 (d ∈ dates)) by done.
      destruct (decide (d = date)) as [->|Hne].
      * rewrite bool_decide_eq_true_2 by (by left). apply assoc_get_set_eq.
      * rewrite bool_decide_eq_false_2 by (intros [?|?]%elem_of_cons; congruence).
        by apply assoc_get_set_ne.
Qed.
End load_facts.

(** X23.  loadData installs the stored habit list, or the empty list when
    none is stored, and the stored completion map, or an empty one when
    none is stored.  A record stored in the old format, an array of date
    strings, becomes an object in which exactly the listed dates are done;
    every other record is kept as it is; and loading what a load produced
    migrates nothing more. *)
Theorem loadData_migrates_date_arrays
    (stored_habits : option (list value)) (m : props) (st : State) :
  NoDup m.*1 →
  let st' := exec (loadData stored_habits (VObj m)) st in
  outcome (loadData stored_habits (VObj m)) st = Ok () ∧
  habits st' = default [] stored_habits ∧
  completions st' = VObj (migrated m) ∧
  (∀ id r, assoc_get id m = Some r → isArray r = false →
     get (completions st') id = Ok r) ∧
  (∀ id dates named d, assoc_get id m = Some (VArr (VStr <$> dates) named) →
     getHabitState st' id d
       = Ok (if bool_decide (d ∈ dates) then VStr "done" else VNull)) ∧
  exec (loadData stored_habits (completions st')) st = st' ∧
  completions (exec (loadData stored_habits VUndefined) st) = VObj [].
Proof.
  intros Hnd st'. pose proof (loadData_object stored_habits m st Hnd) as Hrun.
  assert (Hst : st' = {| habits := default [] stored_habits;
                         completions := VObj (migrated m);
                         confirmCallback := confirmCallback st |}).
  { unfold st', exec. by rewrite Hrun. }
  split; [unfold outcome; by rewrite Hrun|]. rewrite Hst. cbn [habits completions].
  split; [done|]. split; [done|]. split; [|split; [|split]].
  - intros id r Hg Harr. simpl. unfold migrated. rewrite assoc_get_fmap, Hg. simpl.
    by destruct r.
  - intros id dates named d Hg. unfold getHabitState. simpl.
    unfold migrated. rewrite assoc_get_fmap, Hg. simpl.
    unfold get_opt. simpl. rewrite dates_record.
    by case_bool_decide.
  - unfold exec. rewrite loadData_object.
    + cbn [snd]. do 2 f_equal. unfold migrated. rewrite <- list_fmap_compose.
      apply list_fmap_ext. intros i [k r] _. simpl. by rewrite migrate_record_idemp.
    + unfold migrated. rewrite <- list_fmap_compose.
      by replace (fst ∘ (λ kv : string * value, (kv.1, migrate_record kv.2)))
        with (fst : string * value → string) by done.
  - reflexivity.
Qed.

Lemma loadData_migrates_date_arrays_witness :
  getHabitState
    (exec (loadData None
             (VObj [("h1", VArr [VStr "2024-01-01"; VStr "2024-01-02"] [])])) initial)
    "h1" "2024-01-02" = Ok (VStr "done").
Proof.
  destruct (loadData_migrates_date_arrays None
              [("h1", VArr [VStr "2024-01-01"; VStr "2024-01-02"] [])] initial)
    as (_ & _ & _ & _ & H & _).
  - repeat constructor. by apply not_elem_of_nil.
  - by rewrite (H "h1" ["2024-01-01"; "2024-01-02"] [] "2024-01-02" eq_refl).
Defined.

(** *** New tab mode *)

Section newtab_facts.
Import NewTab.

Lemma clicks_truthy n : ∀ v,
  truthy (clicks n v) = xorb (truthy v) (Nat.odd n).
Proof.
  induction n as [|n IH]; intros v; [by rewrite xorb_false_r|].
  cbn [clicks]. rewrite IH, Nat.odd_succ, <- Nat.negb_odd. simpl.
  by destruct (truthy v), (Nat.odd n).
Qed.

(** X24.  A tab opened by the icon always shows the tracker.  Any other
    tab shows it exactly when the stored setting is truthy, so not on a
    fresh install.  Each click on the toggle stores a boolean, the
    opposite of what the setting counted as, and sets the button and
    picks the toast by it: after [n] clicks a new tab shows the tracker
    exactly when the parity of [n] has flipped the setting on, and two
    clicks leave new tabs as they were.  The button as set when the page
    loads is active exactly when new tabs show the tracker.  A click is
    taken to have stored its value before the next one reads it. *)
Theorem newTab_setting_decides_new_tabs (params : list string) (useAsNewTab : value) (n : nat) :
  guard icon_params useAsNewTab = Tracker ∧
  ("from" ∈ params → guard params useAsNewTab = Tracker) ∧
  ("from" ∉ params →
     guard params useAsNewTab = (if truthy useAsNewTab then Tracker else DefaultNewTab) ∧
     guard params VUndefined = DefaultNewTab ∧
     guard params (clicks n useAsNewTab)
       = (if xorb (truthy useAsNewTab) (Nat.odd n) then Tracker else DefaultNewTab) ∧
     guard params (clicks 2 useAsNewTab) = guard params useAsNewTab ∧
     (updateNewTabButton (truthy useAsNewTab) = true
        ↔ guard params useAsNewTab = Tracker)) ∧
  (∃ b, newTabToggle_click useAsNewTab = VBool b ∧ b = negb (truthy useAsNewTab) ∧
        updateNewTabButton b = truthy (newTabToggle_click useAsNewTab) ∧
        (toggle_toast b = "Habits will show on new tabs" ↔ b = true)).
Proof.
  split; [done|]. split; [|split].
  - intros Hin. unfold guard, has. by rewrite bool_decide_eq_true_2.
  - intros Hnin.
    assert (Hg : ∀ v, guard params v = if truthy v then Tracker else DefaultNewTab).
    { intros v. unfold guard, has. rewrite bool_decide_eq_false_2 by done.
      by destruct (truthy v). }
    rewrite !Hg, !clicks_truthy. simpl. rewrite xorb_false_r.
    do 4 (split; [done|]). unfold updateNewTabButton.
    by destruct (truthy useAsNewTab).
  - eexists. split; [done|]. split; [done|]. split; [done|].
    destruct (truthy useAsNewTab); simpl; split; done.
Qed.
End newtab_facts.

(** *** Toasts *)

Section toast_facts.
Import Toast.
Local Open Scope Z_scope.

Lemma clearTimeout_single id due : clearTimeout id [(id, due)] = [].
Proof. unfold clearTimeout. by rewrite filter_cons, decide_False by (by intros []). Qed.

Lemma showToast_one_timer message now s :
  one_timer s →
  one_timer (showToast message now s) ∧
  timers (showToast message now s) = [(next_id s, now + 2500)].
Proof.
  unfold one_timer, showToast. simpl.
  destruct (toastTimeout s) as [id|].
  - intros (due & -> & _). rewrite clearTimeout_single. split; [by eexists|done].
  - intros [-> _]. split; [by eexists|done].
Qed.

Lemma step_one_timer now e s s' :
  one_timer s → step now e s = Some s' → one_timer s'.
Proof.
  intros Hs. destruct e as [message|id]; simpl.
  - intros [= <-]. by apply showToast_one_timer.
  - unfold one_timer in Hs. destruct (toastTimeout s) as [id0|].
    + destruct Hs as (due & Ht & _). rewrite Ht. simpl.
      case_decide as Hid; [|done]. simpl in Hid. subst id0.
      simpl. destruct (due <=? now); [|done]. intros [= <-].
      unfold one_timer, timeout. simpl. rewrite Ht. by rewrite clearTimeout_single.
    + destruct Hs as [Ht _]. by rewrite Ht.
Qed.

Lemma run_one_timer trace : ∀ s s',
  one_timer s → run s trace = Some s' → one_timer s'.
Proof.
  induction trace as [|[now e] trace IH]; intros s s' Hs; simpl.
  - by intros [= <-].
  - destruct (step now e s) as [s1|] eqn:Hstep; [|done].
    apply IH. by apply (step_one_timer now e s).
Qed.

Lemma run_app s trace1 trace2 :
  run s (trace1 ++ trace2) = run s trace1 ≫= λ s1, run s1 trace2.
Proof.
  revert s. induction trace1 as [|[now e] trace1 IH]; intros s; simpl; [done|].
  destruct (step now e s); [apply IH|done].
Qed.
End toast_facts.

(** X25.  In every run of showToast calls and timer callbacks from the
    page as loaded, at most one timer is pending, the one of the latest
    toast, and the toast is visible exactly while it is: a new toast
    clears the timer of the toast before it.  So the timer that runs
    first after a toast shown at time [t] runs at [t + 2500] or later, and
    until then the toast shows the message of that call. *)
Theorem toast_stays_for_2500_ms
    (before : list (Z * Toast.event)) (t : Z) (message : string) :
  ∀ s, Toast.run Toast.initial (before ++ [(t, Toast.Show message)]) = Some s →
  Toast.one_timer s ∧
  Toast.hidden s = false ∧ Toast.textContent s = message ∧
  (∀ t' id s', Toast.step t' (Toast.Timeout id) s = Some s' →
     (t + 2500 ≤ t')%Z ∧ Toast.hidden s' = true ∧ Toast.timers s' = []) ∧
  (∀ t' message' s', Toast.step t' (Toast.Show message') s = Some s' →
     Toast.timers s' = [(Toast.next_id s, (t' + 2500)%Z)]).
Proof.
  intros s. rewrite run_app.
  destruct (Toast.run Toast.initial before) as [s0|] eqn:Hrun; [|done].
  simpl. intros [= <-].
  assert (H0 : Toast.one_timer s0).
  { apply (run_one_timer before Toast.initial); [by split|done]. }
  destruct (showToast_one_timer message t s0 H0) as [H1 Ht].
  split; [done|]. split; [done|]. split; [done|]. split.
  - intros t' id s'. cbn [Toast.step]. rewrite Ht. cbn [list_find].
    case_decide as Hid; [|done]. cbn [fmap option_fmap option_map].
    destruct (Z.leb_spec (t + 2500) t'); [|done]. intros [= <-].
    split; [done|]. split; [done|]. unfold Toast.timeout. cbn [Toast.timers].
    rewrite Ht. simpl in Hid. subst id. apply clearTimeout_single.
  - intros t' message' s'. cbn [Toast.step]. intros [= <-].
    by destruct (showToast_one_timer message' t' _ H1) as [_ ->].
Qed.

Lemma toast_stays_for_2500_ms_witness :
  Toast.hidden (Toast.showToast "Habit added" 1000
                  (Toast.showToast "Data exported" 0 Toast.initial)) = false.
Proof.
  apply (toast_stays_for_2500_ms [(0%Z, Toast.Show "Data exported")] 1000 "Habit added").
  reflexivity.
Defined.

(** *** Ids *)

Section id_facts.
Import Ids.
Local Open Scope N_scope.

Lemma value36_digit36 d : d < 36 → value36 (digit36 d) = Some d.
Proof.
  intros Hd. unfold value36, digit36.
  destruct (N.ltb_spec d 10).
  - rewrite N_ascii_embedding by lia.
    rewrite (proj2 (N.leb_le _ _)), (proj2 (N.leb_le _ _)) by lia. simpl. f_equal. lia.
  - rewrite N_ascii_embedding by lia.
    destruct (N.leb_spec 48 (87 + d)); [|lia].
    destruct (N.leb_spec (87 + d) 57); [lia|]. simpl.
    rewrite (proj2 (N.leb_le _ _)), (proj2 (N.leb_le _ _)) by lia. simpl. f_equal. lia.
Qed.

Lemma size_div36 n : n ≠ 0 → N.size (n `div` 36) < N.size n.
Proof.
  intros Hn. apply N.nle_gt. intros Hle.
  pose proof (N.size_gt n) as Hgt.
  pose proof (N.size_le (n `div` 36)) as Hsz.
  assert (2 ^ N.size n ≤ 2 ^ N.size (n `div` 36)) by (apply N.pow_le_mono_r; lia).
  pose proof (N.Div0.mul_div_le n 36).
  rewrite N.succ_double_spec in Hsz. lia.
Qed.

Lemma toString36_go_reads_back fuel : ∀ n rest,
  N.size n ≤ N.of_nat fuel →
  ∃ k, ∀ acc,
    parse36_go acc (toString36_go fuel n rest) = parse36_go (acc * 36 ^ k + n) rest.
Proof.
  induction fuel as [|fuel IH]; intros n rest Hsz.
  - assert (n = 0) as -> by (destruct n; [done|simpl in Hsz; lia]).
    exists 0. intros acc. simpl. f_equal. lia.
  - cbn [toString36_go]. destruct (N.eqb_spec n 0) as [->|Hn].
    + exists 0. intros acc. f_equal. simpl. lia.
    + destruct (IH (n `div` 36) (String (digit36 (n `mod` 36)) rest)) as [k Hk].
      { pose proof (size_div36 n Hn). lia. }
      exists (N.succ k). intros acc. rewrite Hk. cbn [parse36_go].
      rewrite value36_digit36 by (apply N.mod_lt; lia). f_equal.
      rewrite N.pow_succ_r'. pose proof (N.Div0.div_mod n 36). lia.
Qed.

Lemma toString36_go_nonempty fuel : ∀ n rest,
  rest ≠ "" → toString36_go fuel n rest ≠ "".
Proof.
  induction fuel as [|fuel IH]; intros n rest Hr; simpl; [done|].
  destruct (n =? 0); [done|]. by apply IH.
Qed.

Lemma toString36_nonempty n : toString36 n ≠ "".
Proof.
  unfold toString36. destruct (N.eqb_spec n 0) as [->|Hn]; [done|].
  destruct (N.to_nat (N.size n)) as [|fuel] eqn:Hf.
  { destruct n; [done|]. simpl in Hf. lia. }
  cbn [toString36_go]. rewrite (proj2 (N.eqb_neq _ _) Hn).
  by apply toString36_go_nonempty.
Qed.

Lemma toString36_reads_back n : parse36 (toString36 n) = Some n.
Proof.
  pose proof (toString36_nonempty n) as Hne.
  unfold parse36. destruct (toString36 n) as [|c s] eqn:E; [done|]. rewrite <- E.
  unfold toString36. destruct (N.eqb_spec n 0) as [->|Hn]; [done|].
  destruct (toString36_go_reads_back (N.to_nat (N.size n)) n "") as [k Hk]; [lia|].
  by rewrite Hk.
Qed.

Lemma append_length s r : String.length (s +:+ r) = (String.length s + String.length r)%nat.
Proof.
  induction s as [|c s IH]; [done|].
  change (S (String.length (s +:+ r)) = S (String.length s + String.length r)).
  by rewrite IH.
Qed.

Lemma append_inj_same_length s1 : ∀ s2 r1 r2,
  s1 +:+ r1 = s2 +:+ r2 → String.length r1 = String.length r2 → s1 = s2 ∧ r1 = r2.
Proof.
  induction s1 as [|c s1 IH]; intros [|c2 s2] r1 r2 E Hl.
  - done.
  - change (r1 = String c2 (s2 +:+ r2)) in E. subst r1.
    cbn [String.length] in Hl. rewrite append_length in Hl. lia.
  - change (String c (s1 +:+ r1) = r2) in E. subst r2.
    cbn [String.length] in Hl. rewrite append_length in Hl. lia.
  - change (String c (s1 +:+ r1) = String c2 (s2 +:+ r2)) in E.
    injection E as -> E. destruct (IH s2 r1 r2 E Hl) as [-> ->]. done.
Qed.
Lemma append_inj_same_prefix_length s1 : ∀ s2 r1 r2,
  s1 +:+ r1 = s2 +:+ r2 → String.length s1 = String.length s2 → s1 = s2 ∧ r1 = r2.
Proof.
  induction s1 as [|c s1 IH]; intros [|c2 s2] r1 r2 E Hl; try done.
  change (String c (s1 +:+ r1) = String c2 (s2 +:+ r2)) in E.
  injection E as -> E. cbn [String.length] in Hl.
  destruct (IH s2 r1 r2 E) as [-> ->]; [lia|done].
Qed.

(** A number of [k + 1] digits in base 36 is written with [k + 1]
    characters. *)
Lemma toString36_go_length fuel : ∀ n k acc,
  N.size n ≤ N.of_nat fuel → 36 ^ k ≤ n < 36 ^ (k + 1) →
  String.length (toString36_go fuel n acc) = (S (N.to_nat k) + String.length acc)%nat.
Proof.
  induction fuel as [|fuel IH]; intros n k acc Hsz [Hlo Hhi].
  - assert (n = 0) as -> by (destruct n; [done|simpl in Hsz; lia]).
    pose proof (N.pow_nonzero 36 k). lia.
  - assert (Hn : n ≠ 0) by (pose proof (N.pow_nonzero 36 k); lia).
    cbn [toString36_go]. rewrite (proj2 (N.eqb_neq _ _) Hn).
    destruct (N.eq_dec k 0) as [->|Hk].
    + assert (E : n `div` 36 = 0) by (apply N.div_small; simpl in Hhi; lia).
      rewrite E. by destruct fuel.
    + assert (Ek : k = N.succ (k - 1)) by lia.
      rewrite (IH (n `div` 36) (k - 1)).
      * cbn [String.length]. lia.
      * pose proof (size_div36 n Hn). lia.
      * replace (k - 1 + 1) with k by lia. split.
        -- apply N.div_le_lower_bound; [lia|].
           rewrite Ek, N.pow_succ_r' in Hlo. lia.
        -- apply N.Div0.div_lt_upper_bound.
           replace (k + 1) with (N.succ k) in Hhi by lia.
           by rewrite N.pow_succ_r' in Hhi.
Qed.

Lemma toString36_length n k :
  36 ^ k ≤ n < 36 ^ (k + 1) → String.length (toString36 n) = S (N.to_nat k).
Proof.
  intros Hn. unfold toString36.
  destruct (N.eqb_spec n 0) as [->|Hn0].
  { pose proof (N.pow_nonzero 36 k). lia. }
  rewrite (toString36_go_length _ n k "") by (done || lia). simpl. lia.
Qed.
End id_facts.

(** X26.  generateId never returns the empty string, and its result starts
    with the clock reading written in base 36, which reads back as that
    reading.  Two ids are equal only when both the clock reading and the
    random part are, provided the random parts have the same length or the
    clock readings have the same number of digits in base 36.  All
    readings from 36^7 ms (June 1972) up to 36^8 ms (May 2059) have eight
    digits, so over that time ids made at different milliseconds differ
    whatever the random parts are. *)
Theorem generateId_tells_clock_readings_apart (now now' : N) (random random' : string) :
  Ids.generateId now random ≠ "" ∧
  Ids.parse36 (Ids.toString36 now) = Some now ∧
  (String.length random = String.length random' →
     Ids.generateId now random = Ids.generateId now' random' →
     now = now' ∧ random = random') ∧
  (∀ k, (36 ^ k ≤ now < 36 ^ (k + 1))%N → (36 ^ k ≤ now' < 36 ^ (k + 1))%N →
     String.length (Ids.toString36 now) = S (N.to_nat k) ∧
     (Ids.generateId now random = Ids.generateId now' random' →
      now = now' ∧ random = random')).
Proof.
  assert (Hinj : Ids.toString36 now = Ids.toString36 now' → now = now').
  { intros Et. pose proof (toString36_reads_back now) as H1. rewrite Et in H1.
    rewrite toString36_reads_back in H1. by injection H1. }
  split; [|split; [|split]].
  - unfold Ids.generateId. pose proof (toString36_nonempty now).
    by destruct (Ids.toString36 now).
  - apply toString36_reads_back.
  - intros Hl E. unfold Ids.generateId in E.
    destruct (append_inj_same_length _ _ _ _ E Hl) as [Et ->]. by split; [apply Hinj|].
  - intros k Hn Hn'. split; [by apply toString36_length|].
    intros E. unfold Ids.generateId in E.
    destruct (append_inj_same_prefix_length _ _ _ _ E) as [Et ->].
    + by rewrite (toString36_length now k), (toString36_length now' k).
    + by split; [apply Hinj|].
Qed.

Lemma generateId_tells_clock_readings_apart_witness :
  Ids.generateId 1700000000000 "k3x9" ≠ Ids.generateId 1700000000001 "k3x9q2".
Proof.
  intros E.
  destruct (generateId_tells_clock_readings_apart
              1700000000000 1700000000001 "k3x9" "k3x9q2") as (_ & _ & _ & H).
  destruct (H 7%N) as [_ H']; [vm_compute; split; [by intros [=]|done]..|].
  by destruct (H' E) as [[=] _].
Defined.

(** *** What is shown is what is stored *)

Section persist_facts.
Import Persist.
Implicit Types (st : State) (p : Page) (m : props).

Lemma habit_wf_numbered h : habit_wf h → numbered h.
Proof.
  intros Hw. split; [by destruct Hw|]. exists (order_of h). by apply habit_wf_order_key.
Qed.

Lemma save_forms st :
  store_wf st →
  items_of (to_json (VArr (habits st) [])) = habits st ∧
  to_json (completions st) = completions st.
Proof.
  intros (Hwf & _ & (m & Hc & Hm)). split.
  - rewrite to_json_plain_items; [done|].
    eapply Forall_impl; [exact Hwf|]. by intros h (_ & ? & _).
  - rewrite Hc. by apply to_json_plain, plain_records.
Qed.

Lemma migrate_nothing ks : ∀ m,
  Forall (λ kv, record_ok kv.2) m → fold_left migrate_key ks (VObj m) = VObj m.
Proof.
  induction ks as [|k ks IH]; intros m Hm; [done|]. cbn [fold_left].
  assert (E : migrate_key (VObj m) k = VObj m).
  { unfold migrate_key, get_opt. simpl.
    destruct (assoc_get k m) as [r|] eqn:Hg; [|done].
    by destruct (Forall_assoc_get record_ok _ _ _ Hm Hg) as (ps & -> & _). }
  rewrite E. by apply IH.
Qed.

(** What loadData leaves depends on the storage alone. *)
Lemma loadData_parts sh sc st :
  habits (exec (Store.loadData sh sc) st) = default [] sh ∧
  completions (exec (Store.loadData sh sc) st)
    = completions (exec (Store.loadData None sc) initial).
Proof.
  unfold exec, Store.loadData, mbind, M_bind, bind, lift, write_habits, write_completions.
  cbn [fst snd habits completions]. by destruct (keys (or_else sc (VObj []))).
Qed.

Lemma loadData_completions_ok sc c :
  sc = c → completions_ok c →
  completions (exec (Store.loadData None sc) initial) = c.
Proof.
  intros -> (m & -> & Hm).
  unfold exec, Store.loadData, mbind, M_bind, bind, lift, write_habits, write_completions.
  change (or_else (VObj m) (VObj [])) with (VObj m).
  cbn [fst snd keys entries mbind res_mbind res_bind completions].
  by rewrite migrate_nothing.
Qed.

Lemma in_storage_alt p :
  in_storage p ↔
  default [] (stored_habits (storage p)) = habits (mem p) ∧
  completions (exec (Store.loadData None (stored_completions (storage p))) initial)
    = completions (mem p).
Proof.
  unfold in_storage, reload.
  destruct (loadData_parts (stored_habits (storage p)) (stored_completions (storage p))
              initial) as [-> ->]. done.
Qed.

Lemma on_mem_run {A} (f : M A) p a st' :
  f (mem p) = (Ok a, st') →
  on_mem f p = (Ok a, {| mem := st'; storage := storage p; reported := reported p |}).
Proof. intros E. unfold on_mem. by rewrite E. Qed.

(** After saveHabits, a reload brings back the habit list. *)
Lemma saved_habits st sto rep :
  store_wf st →
  completions (exec (Store.loadData None (stored_completions sto)) initial)
    = completions st →
  in_storage {| mem := st;
                storage := {| stored_habits := Some (items_of (to_json (VArr (habits st) [])));
                              stored_completions := stored_completions sto |};
                reported := rep |}.
Proof.
  intros Hwf Hc. apply in_storage_alt.
  cbn [mem storage stored_habits stored_completions default].
  by destruct (save_forms st Hwf) as [-> _].
Qed.

(** After saveCompletions, a reload brings back the completion map. *)
Lemma saved_completions st sto rep :
  store_wf st → default [] (stored_habits sto) = habits st →
  in_storage {| mem := st;
                storage := {| stored_habits := stored_habits sto;
                              stored_completions := to_json (completions st) |};
                reported := rep |}.
Proof.
  intros Hwf Hh. apply in_storage_alt.
  cbn [mem storage stored_habits stored_completions]. split; [done|].
  destruct (save_forms st Hwf) as [_ ->].
  apply loadData_completions_ok; [done|]. by destruct Hwf as (_ & _ & ?).
Qed.

Lemma saved_both st rep :
  store_wf st →
  in_storage {| mem := st;
                storage := {| stored_habits := Some (items_of (to_json (VArr (habits st) [])));
                              stored_completions := to_json (completions st) |};
                reported := rep |}.
Proof.
  intros Hwf. apply in_storage_alt.
  cbn [mem storage stored_habits stored_completions default].
  destruct (save_forms st Hwf) as [-> ->]. split; [done|].
  apply loadData_completions_ok; [done|]. by destruct Hwf as (_ & _ & ?).
Qed.

Lemma addHabit_persisted p input id createdAt :
  store_wf (mem p) → id ≠ "" → trim input ≠ "" →
  persisted (Persist.addHabit input id createdAt true true p)
    (exec (Store.addHabit input id createdAt) (mem p)).
Proof.
  intros Hwf Hid Hname.
  pose proof (addHabit_wf (mem p) input id createdAt Hwf Hid Hname) as Hwf'.
  pose proof Hwf as (Hall & _ & (m & Hc & _)).
  destruct (addHabit_run (mem p) m input id createdAt) as (mx & _ & _ & Hrun);
    [by eapply Forall_impl; [exact Hall|apply habit_wf_numbered]|done|].
  unfold exec in *. rewrite Hrun in *. cbn [snd] in *.
  unfold Persist.addHabit, mbind, P_bind, pbind.
  rewrite (on_mem_run _ _ _ _ Hrun). unfold saveHabits, saveCompletions.
  cbn [mem storage stored_habits stored_completions].
  split; [done|]. split; [done|]. cbn [snd]. by apply saved_both.
Qed.
Lemma page_eta p : {| mem := mem p; storage := storage p; reported := reported p |} = p.
Proof. by destruct p. Qed.

Lemma store_wf_objects st : store_wf st → Forall is_object (habits st).
Proof. intros (Hall & _). eapply Forall_impl; [exact Hall|]. by intros h [? _]. Qed.

Lemma renameHabit_persisted p habitId newName :
  store_wf (mem p) → in_storage p →
  persisted (Persist.renameHabit habitId newName true p)
    (exec (Store.renameHabit habitId newName) (mem p)).
Proof.
  intros Hwf Hin. pose proof (store_wf_objects _ Hwf) as Hobj.
  pose proof (renameHabit_wf (mem p) habitId newName Hwf) as Hwf'.
  unfold Persist.renameHabit, mbind, P_bind, pbind, on_mem, read_habits, lift.
  cbn [fst snd mem storage]. rewrite page_eta.
  destruct (renameHabit_cases (mem p) habitId newName Hobj)
    as [[Hrun Hwhy]|(i & h & Hfirst & Hname & Hrun)];
    unfold exec in *; rewrite Hrun in *; cbn [fst snd] in *.
  - assert (Hsame : persisted (Ok (), p) (mem p)) by done.
    destruct (find_index_objects habitId (habits (mem p)) 0 Hobj)
      as [[-> _]|(i & h & -> & Hfirst)]; cbn [fst snd]; [done|].
    destruct Hwhy as [Hblank|Hno].
    + by rewrite Hblank.
    + destruct Hfirst as (Hl & Hi & _).
      destruct (Hno h); [by apply list_elem_of_lookup_2 with i|done].
  - destruct (find_index_objects habitId (habits (mem p)) 0 Hobj)
      as [[_ Hno]|(i' & h' & -> & _)]; cbn [fst snd].
    { destruct Hfirst as (Hl & Hi & _).
      destruct (Hno h); [by apply list_elem_of_lookup_2 with i|done]. }
    apply String.eqb_neq in Hname. simpl. rewrite Hname. simpl.
    rewrite Hrun. unfold saveHabits. cbn [fst snd mem storage].
    split; [done|]. split; [done|]. cbn [snd].
    apply saved_habits; [done|].
    apply in_storage_alt in Hin as [_ ->]. done.
Qed.

Lemma toggleCompletion_persisted p habitId dateStr :
  store_wf (mem p) → in_storage p →
  persisted (Persist.toggleCompletion habitId dateStr true p)
    (exec (Store.toggleCompletion habitId dateStr) (mem p)).
Proof.
  intros Hwf Hin. pose proof Hwf as (Hall & Hs & Hok).
  destruct (toggleCompletion_keeps_ok (mem p) habitId dateStr Hok) as [Hout Hok'].
  pose proof (toggleCompletion_keeps_habits habitId dateStr (mem p)) as Hh.
  unfold Persist.toggleCompletion, mbind, P_bind, pbind, on_mem.
  unfold outcome in Hout. unfold exec in *.
  destruct (Store.toggleCompletion habitId dateStr (mem p)) as [r st'] eqn:Hrun.
  cbn [fst snd] in *. subst r. unfold saveCompletions. cbn [fst snd mem storage].
  split; [done|]. split; [done|]. cbn [snd].
  apply saved_completions.
  - split; [by rewrite Hh|]. split; [by rewrite Hh|done].
  - apply in_storage_alt in Hin as [-> _]. done.
Qed.

Lemma reorderHabits_persisted p fromIndex toIndex :
  store_wf (mem p) → in_storage p → (fromIndex < length (habits (mem p)))%nat →
  persisted (Persist.reorderHabits fromIndex toIndex true p)
    (exec (Store.reorderHabits fromIndex toIndex) (mem p)).
Proof.
  intros Hwf Hin Hlt. pose proof (store_wf_objects _ Hwf) as Hobj.
  pose proof (reorderHabits_wf (mem p) fromIndex toIndex Hwf Hlt) as Hwf'.
  pose proof (reorderHabits_objects (mem p) fromIndex toIndex Hobj Hlt) as Hrun.
  unfold Persist.reorderHabits, mbind, P_bind, pbind, on_mem.
  unfold exec in *. rewrite Hrun in *. cbn [fst snd] in *.
  unfold saveHabits. cbn [fst snd mem storage].
  split; [done|]. split; [done|]. cbn [snd].
  apply saved_habits; [done|].
  apply in_storage_alt in Hin as [_ ->]. done.
Qed.

Lemma needsMigration_false m :
  needsMigration (VObj m) = false → migrated m = m.
Proof.
  unfold needsMigration, migrated. cbn [entries].
  induction m as [|[k r] m IH]; [done|]. cbn [existsb]. rewrite fmap_cons.
  intros [Hr Hm]%orb_false_iff. rewrite IH by done. by destruct r.
Qed.

Lemma migrated_ok m :
  Forall (λ kv, record_ok kv.2 ∨ isArray kv.2 = true) m →
  Forall (λ kv, record_ok kv.2) (migrated m).
Proof.
  intros Hm. unfold migrated. apply Forall_fmap. eapply Forall_impl; [exact Hm|].
  intros [k r] Hr. simpl in *. by apply migrate_record_ok.
Qed.

(** A load that chrome.storage answers: what it leaves in the variables
    of the page is what a reload brings back, whether or not the write of
    the migrated map is accepted; a rejected write is reported. *)
Lemma loadData_loaded p a1 :
  stored_ok (stored_completions (storage p)) →
  persisted (Persist.loadData true a1 p)
    (exec (Store.loadData (stored_habits (storage p)) (stored_completions (storage p)))
       (mem p)) ∧
  stored_habits (storage (Persist.loadData true a1 p).2) = stored_habits (storage p) ∧
  (a1 = true → migrated_storage (Persist.loadData true a1 p).2) ∧
  (a1 = false ∨ migrated_storage p → storage (Persist.loadData true a1 p).2 = storage p) ∧
  (a1 = true ∨ migrated_storage p →
     reported (Persist.loadData true a1 p).2 = reported p) ∧
  (a1 = false → ¬ migrated_storage p →
     reported (Persist.loadData true a1 p).2
       = reported p ++ ["Failed to save completions"]).
Proof.
  destruct p as [st [sh sc] rep]. cbn [mem storage reported stored_habits stored_completions].
  intros Hs. unfold Persist.loadData, caught, migrated_storage, mbind, P_bind, pbind, on_mem.
  cbv zeta. cbn [mem storage reported stored_habits stored_completions fst snd].
  destruct (loadData_parts sh sc st) as [Hh Hc].
  destruct Hs as [->|(m & -> & Hnd & Hrec)].
  - unfold exec in *.
    destruct (Store.loadData sh VUndefined st) as [r st'] eqn:Hrun.
    assert (r = Ok ()) as ->.
    { revert Hrun. unfold Store.loadData, mbind, M_bind, bind, lift, write_habits,
        write_completions. simpl. by intros [= <- _]. }
    cbn [fst snd] in *. change (needsMigration _) with false. cbn [fst snd].
    unfold mret, P_ret. cbn [fst snd mem storage reported stored_habits stored_completions].
    split; [|by repeat split]. split; [done|]. split; [done|]. apply in_storage_alt.
    cbn [snd mem storage stored_habits stored_completions]. done.
  - unfold exec in *.
    rewrite (loadData_object _ m st Hnd) in *. cbn [fst snd habits completions] in *.
    change (or_else (VObj m) (VObj [])) with (VObj m).
    assert (Hreload : ∀ sc' rep', completions (Store.loadData None sc' initial).2
                                    = VObj (migrated m) →
      in_storage {| mem := {| habits := default [] sh; completions := VObj (migrated m);
                              confirmCallback := confirmCallback st |};
                    storage := {| stored_habits := sh; stored_completions := sc' |};
                    reported := rep' |}).
    { intros sc' rep' E. apply in_storage_alt.
      cbn [mem storage stored_habits stored_completions habits completions]. done. }
    pose proof (migrated_ok m Hrec) as Hok.
    assert (Hmig : needsMigration (VObj (migrated m)) = false).
    { unfold needsMigration. cbn [entries].
      clear -Hok. induction Hok as [|[k r] l Hr Hl IH]; [done|].
      cbn [existsb]. rewrite IH, orb_false_r. by destruct Hr as (ps & -> & _). }
    destruct (needsMigration (VObj m)) eqn:Hneed; cbn [fst snd].
    + destruct a1; unfold saveCompletions, report;
        cbn [fst snd mem storage reported stored_habits stored_completions completions].
      * rewrite (to_json_plain (VObj (migrated m))) by (by apply plain_records).
        split; [|split; [done|split; [done|split; [|split; [done|done]]]]].
        -- split; [done|]. split; [done|]. apply Hreload.
           apply loadData_completions_ok; [done|]. by exists (migrated m).
        -- by intros [?|?].
      * split; [|split; [done|split; [done|split; [done|split; [|done]]]]].
        -- split; [done|]. split; [done|]. by apply Hreload.
        -- by intros [?|?].
    + unfold mret, P_ret. cbn [fst snd mem storage reported stored_habits stored_completions].
      rewrite (needsMigration_false m Hneed) in *.
      split; [|by repeat split]. split; [done|]. split; [done|]. by apply Hreload.
Qed.

Lemma step_store_wf st a : store_wf st → possible st a → store_wf (exec (Notions.handler a) st).
Proof.
  intros Hwf Hp.
  destruct a as [input id createdAt|habitId newName|habitId dateStr
                 |fromIndex toIndex|habitId|file| |]; cbn [Notions.handler possible] in *.
  - unfold Store.addHabitForm_submit.
    destruct (String.eqb_spec (trim input) "") as [E|E]; simpl.
    + by rewrite E.
    + rewrite (proj2 (String.eqb_neq _ _) E). simpl. by apply addHabit_wf.
  - by apply renameHabit_wf.
  - destruct Hwf as (Hall & Hs & Hok).
    destruct (toggleCompletion_keeps_ok st habitId dateStr Hok) as [_ Hok'].
    pose proof (toggleCompletion_keeps_habits habitId dateStr st) as Hh.
    split; [by rewrite Hh|]. split; [by rewrite Hh|done].
  - destruct Hp as [Hfrom _]. by apply reorderHabits_wf.
  - eapply store_wf_same; [apply deleteHabit_writes_callback_only..|done].
  - eapply store_wf_same; [..|exact Hwf].
    + unfold exec, mbind, M_bind, bind.
      pose proof (importData_writes_callback_only file st) as [H1 _].
      unfold exec in H1. by destruct (Store.importData file st) as [[o|e] st'].
    + unfold exec, mbind, M_bind, bind.
      pose proof (importData_writes_callback_only file st) as [_ H2].
      unfold exec in H2. by destruct (Store.importData file st) as [[o|e] st'].
  - eapply store_wf_same; [..|exact Hwf]; done.
  - eapply store_wf_same; [..|exact Hwf]; done.
Qed.

(** An action that only touches the dialog finishes and stores nothing. *)
Lemma dialog_persisted p (f : M unit) :
  in_storage p → outcome f (mem p) = Ok () →
  habits (exec f (mem p)) = habits (mem p) →
  completions (exec f (mem p)) = completions (mem p) →
  persisted (on_mem f p) (exec f (mem p)).
Proof.
  intros Hin Hout Hh Hc. unfold on_mem, outcome, exec in *.
  split; [done|]. split; [done|]. apply in_storage_alt in Hin as [H1 H2].
  apply in_storage_alt. cbn [snd mem storage]. by rewrite Hh, Hc.
Qed.

Lemma handler_persisted p a :
  store_wf (mem p) → in_storage p → possible (mem p) a →
  persisted (Persist.handler a true true p) (exec (Notions.handler a) (mem p)).
Proof.
  intros Hwf Hin Hp.
  destruct a as [input id createdAt|habitId newName|habitId dateStr
                 |fromIndex toIndex|habitId|file| |]; cbn [Persist.handler Notions.handler possible] in *.
  - unfold Persist.addHabitForm_submit, Store.addHabitForm_submit.
    destruct (String.eqb_spec (trim input) "") as [E|E].
    + simpl. rewrite E. simpl. done.
    + simpl. rewrite (proj2 (String.eqb_neq _ _) E). simpl.
      by apply addHabit_persisted.
  - by apply renameHabit_persisted.
  - by apply toggleCompletion_persisted.
  - destruct Hp as [Hfrom _]. by apply reorderHabits_persisted.
  - apply dialog_persisted; [done| |apply deleteHabit_writes_callback_only..].
    pose proof (store_wf_objects _ Hwf) as Hobj.
    unfold outcome, deleteHabit, mbind, M_bind, bind, lift, read_habits. cbn [fst snd].
    by destruct (find_index_objects habitId (habits (mem p)) 0 Hobj)
      as [[-> _]|(i & h & -> & _)].
  - assert (Hrun : ∃ o st', Store.importData file (mem p) = (Ok o, st') ∧
                            habits st' = habits (mem p) ∧
                            completions st' = completions (mem p)).
    { unfold Store.importData.
      destruct file as [t|]; [|by eexists _, _].
      destruct (validate t); by eexists _, _. }
    destruct Hrun as (o & st' & Hrun & Hh & Hc).
    unfold Persist.importData, exec, mbind, P_bind, pbind, M_bind, bind, on_mem.
    rewrite Hrun. cbn [fst snd].
    apply in_storage_alt in Hin as [H1 H2].
    split; [by destruct o|]. split; [by destruct o|].
    apply in_storage_alt. rewrite <- Hh in H1. rewrite <- Hc in H2.
    by destruct o.
  - by apply dialog_persisted.
  - by apply dialog_persisted.
Qed.

Lemma reloaded_persisted p a1 :
  store_wf (mem p) → in_storage p →
  store_wf (mem (reloaded true a1 p)) ∧ in_storage (reloaded true a1 p) ∧
  habits (mem (reloaded true a1 p)) = habits (mem p) ∧
  completions (mem (reloaded true a1 p)) = completions (mem p).
Proof.
  destruct p as [st [sh sc] rep]. intros Hwf [Hh Hc]. unfold reload in Hh, Hc.
  cbn [mem storage stored_habits stored_completions] in *.
  unfold reloaded, Persist.loadData, caught, mbind, P_bind, pbind, on_mem. cbv zeta.
  cbn [mem storage reported stored_habits stored_completions fst snd].
  unfold exec in Hh, Hc.
  destruct (Store.loadData sh sc initial) as [r st'] eqn:Hrun. cbn [fst snd] in *.
  assert (Hwf' : store_wf st') by (by apply (store_wf_same st)).
  assert (r = Ok ()) as ->.
  { revert Hrun. unfold Store.loadData, mbind, M_bind, bind, lift, write_habits,
      write_completions. cbn [fst snd].
    destruct (keys (or_else sc (VObj []))) as [ks|e] eqn:Hk; [by intros [= <- _]|].
    unfold or_else in Hk. by destruct sc as [| |[]|[|[]]|[|]| |]. }
  assert (Hsame : ∀ rep', in_storage {| mem := st';
                                        storage := {| stored_habits := sh;
                                                      stored_completions := sc |};
                                        reported := rep' |}).
  { intros rep'. unfold in_storage, reload, exec.
    cbn [mem storage stored_habits stored_completions]. by rewrite Hrun. }
  destruct (needsMigration _); cbn [fst snd].
  - destruct a1; unfold saveCompletions, report;
      cbn [fst snd mem storage reported stored_habits stored_completions].
    + split; [done|]. split; [|done].
      apply saved_completions; [done|].
      pose proof (loadData_parts sh sc initial) as [H1 _].
      unfold exec in H1. rewrite Hrun in H1. done.
    + done.
  - unfold mret, P_ret. cbn [fst snd mem]. done.
Qed.

Lemma app_cons_neq {A} (l l' : list A) x : l ++ x :: l' ≠ l.
Proof. intros E. apply (f_equal length) in E. rewrite length_app in E. simpl in E. lia. Qed.

(** The answers of chrome.storage do not reach the variables of the
    page; a handler all of whose writes are rejected leaves the storage
    as it was; one all of whose writes are accepted reports no failure of
    a write; and a write that the storage misses has been reported. *)
Lemma handler_answers p a a1 a2 :
  (Persist.handler a a1 a2 p).1 = (Persist.handler a true true p).1 ∧
  mem (Persist.handler a a1 a2 p).2 = mem (Persist.handler a true true p).2 ∧
  storage (Persist.handler a false false p).2 = storage p ∧
  (storage (Persist.handler a a1 a2 p).2 ≠ storage (Persist.handler a true true p).2 →
   reported (Persist.handler a a1 a2 p).2 ≠ reported (Persist.handler a true true p).2).
Proof.
  destruct a as [input id createdAt|habitId newName|habitId dateStr
                 |fromIndex toIndex|habitId|file| |]; cbn [Persist.handler].
  - unfold Persist.addHabitForm_submit. destruct (truthy _); [|done].
    unfold Persist.addHabit, mbind, P_bind, pbind, on_mem.
    destruct (Store.addHabit input id createdAt (mem p)) as [[[]|e] st']; cbn [fst snd]; [|done].
    unfold saveHabits, saveCompletions, report.
    destruct a1, a2; cbn [fst snd mem storage reported]; repeat split; try done;
      intros _; rewrite <- ?(assoc_L (++)); apply app_cons_neq.
  - unfold Persist.renameHabit, mbind, P_bind, pbind, on_mem, read_habits, lift.
    cbn [fst snd mem storage].
    destruct (find_index habitId (habits (mem p)) 0) as [[i|]|e];
      cbn [fst snd mem storage]; [|done..].
    destruct (negb _); [done|]. cbn [fst snd mem storage].
    destruct (Store.renameHabit habitId newName (mem p)) as [[[]|e] st'];
      cbn [fst snd mem storage]; [|done].
    unfold saveHabits, report.
    destruct a1; cbn [fst snd mem storage reported]; repeat split; try done;
      intros _; apply app_cons_neq.
  - unfold Persist.toggleCompletion, mbind, P_bind, pbind, on_mem.
    destruct (Store.toggleCompletion habitId dateStr (mem p)) as [[[]|e] st'];
      cbn [fst snd]; [|done].
    unfold saveCompletions, report.
    destruct a1; cbn [fst snd mem storage reported]; repeat split; try done;
      intros _; apply app_cons_neq.
  - unfold Persist.reorderHabits, mbind, P_bind, pbind, on_mem.
    destruct (Store.reorderHabits fromIndex toIndex (mem p)) as [[[]|e] st'];
      cbn [fst snd]; [|done].
    unfold saveHabits, report.
    destruct a1; cbn [fst snd mem storage reported]; repeat split; try done;
      intros _; apply app_cons_neq.
  - done.
  - unfold Persist.importData, mbind, P_bind, pbind, on_mem.
    by destruct (Store.importData file (mem p)) as [[[]|e] st'].
  - done.
  - done.
Qed.

(** A rejected write of a toggle is reported by the toast of
    saveCompletions. *)
Lemma toggle_rejected p habitId dateStr :
  outcome (Store.toggleCompletion habitId dateStr) (mem p) = Ok () →
  reported (Persist.toggleCompletion habitId dateStr false p).2
    = reported p ++ ["Failed to save completions"].
Proof.
  unfold outcome, Persist.toggleCompletion, mbind, P_bind, pbind, on_mem.
  destruct (Store.toggleCompletion habitId dateStr (mem p)) as [r st']. cbn [fst snd].
  by intros ->.
Qed.

Lemma fresh_invariant : store_wf (mem fresh) ∧ in_storage fresh.
Proof. split; [|done]. split; [constructor|]. split; [constructor|]. by exists []. Qed.

Lemma run_invariant session : ∀ p,
  store_wf (mem p) → in_storage p →
  offered p session → Forall accepted session →
  store_wf (mem (run p session)) ∧ in_storage (run p session).
Proof.
  induction session as [|e session IH]; intros p Hwf Hin Hoff Hacc; [done|].
  cbn [run]. destruct Hoff as [He Hoff]. apply Forall_cons in Hacc as [Ha Hacc].
  destruct e as [a a1 a2|read a1]; cbn [step accepted] in *.
  - destruct Ha as [-> ->]. destruct He as [Hp _].
    destruct (handler_persisted p a Hwf Hin Hp) as (_ & Hmem & Hin').
    apply IH; [|done..]. rewrite Hmem. by apply step_store_wf.
  - destruct Ha as [-> ->].
    destruct (reloaded_persisted p true Hwf Hin) as (? & ? & _). by apply IH.
Qed.
End persist_facts.

(** X27.  What the page shows is what a reload would show, as long as
    chrome.storage carries out every call.  Through a session that starts
    with a fresh install and goes on by the actions of the page (on ids
    and dates that name no inherited member) and by reloads, all calls
    being accepted, the store stays well formed and the storage holds
    what brings back the current habit list and completion map.  From
    there every action finishes and changes the variables of the page as
    the function of the store does, whatever chrome.storage answers; with
    its writes accepted it has saved what it changed; with its writes
    rejected the storage is as before; and whenever the storage misses a
    write, a toast has reported the failure.  A reload that can read puts
    back the habit list and the completion map; one that cannot starts
    with an empty store, leaves the storage alone and reports the
    failure. *)
Theorem reload_brings_back_the_data (session : list Persist.event) :
  let p := Persist.run Persist.fresh session in
  Persist.offered Persist.fresh session → Forall Persist.accepted session →
  store_wf (Persist.mem p) ∧
  Persist.in_storage p ∧
  (∀ a a1 a2, possible (Persist.mem p) a → Persist.own_names a →
     let p' := (Persist.handler a a1 a2 p).2 in
     (Persist.handler a a1 a2 p).1 = Ok () ∧
     Persist.mem p' = exec (handler a) (Persist.mem p) ∧
     (a1 = true → a2 = true → Persist.in_storage p') ∧
     (a1 = false → a2 = false → Persist.storage p' = Persist.storage p) ∧
     (Persist.storage p' ≠ Persist.storage (Persist.handler a true true p).2 →
        Persist.reported p' ≠ Persist.reported (Persist.handler a true true p).2)) ∧
  (∀ habitId dateStr, Persist.own_names (Toggle habitId dateStr) →
     Persist.reported (Persist.handler (Toggle habitId dateStr) false false p).2
       = Persist.reported p ++ ["Failed to save completions"]) ∧
  (∀ a1, habits (Persist.mem (Persist.reloaded true a1 p)) = habits (Persist.mem p) ∧
         completions (Persist.mem (Persist.reloaded true a1 p))
           = completions (Persist.mem p)) ∧
  (∀ a1, Persist.reloaded false a1 p
           = {| Persist.mem := initial; Persist.storage := Persist.storage p;
                Persist.reported := Persist.reported p ++ ["Failed to load data"] |}).
Proof.
  intros p Hoff Hacc.
  destruct fresh_invariant as [Hwf0 Hin0].
  destruct (run_invariant session Persist.fresh Hwf0 Hin0 Hoff Hacc) as [Hwf Hin].
  fold p in Hwf, Hin.
  split; [done|]. split; [done|]. split; [|split; [|split]].
  - intros a a1 a2 Hp _ p'. unfold p'.
    destruct (handler_persisted p a Hwf Hin Hp) as (Hout & Hmem & Hin').
    destruct (handler_answers p a a1 a2) as (E1 & E2 & E3 & E4).
    split; [by rewrite E1|]. split; [by rewrite E2|]. split; [|split].
    + by intros -> ->.
    + by intros -> ->.
    + done.
  - intros habitId dateStr _. apply toggle_rejected.
    destruct Hwf as (_ & _ & Hok).
    by destruct (toggleCompletion_keeps_ok (Persist.mem p) habitId dateStr Hok).
  - intros a1. by destruct (reloaded_persisted p a1 Hwf Hin) as (_ & _ & ? & ?).
  - done.
Qed.

Lemma reload_brings_back_the_data_witness :
  completions (Persist.mem (Persist.reloaded true true
    (Persist.run Persist.fresh
       [Persist.Act (Submit "Walk" "k3x9" "2024-03-02T10:00:00.000Z") true true;
        Persist.Act (Toggle "k3x9" "2024-03-02") true true])))
  = VObj [("k3x9", VObj [("2024-03-02", VStr "done")])].
Proof.
  destruct (reload_brings_back_the_data
    [Persist.Act (Submit "Walk" "k3x9" "2024-03-02T10:00:00.000Z") true true;
     Persist.Act (Toggle "k3x9" "2024-03-02") true true]) as (_ & _ & _ & _ & H & _).
  - repeat split; done.
  - repeat constructor.
  - destruct (H true) as [_ ->]. reflexivity.
Defined.

(** X28.  loadData, when chrome.storage answers the read, on a storage
    whose completion map is absent or holds records and arrays of dates:
    it finishes, leaves in the variables of the page what loading the
    storage gives, and does not touch the stored habit list.  Where it
    migrated a record it saves the migrated map at once: with that write
    accepted the storage holds no record in the old format afterwards;
    with it rejected the storage is as it was and the failure is
    reported; with nothing to migrate nothing is written.  Either way a
    reload brings back what was loaded.  When chrome.storage rejects the
    read, loadData reports the failure and changes nothing else. *)
Theorem loadData_saves_the_migration (p : Persist.Page) (a1 : bool) :
  stored_ok (Persist.stored_completions (Persist.storage p)) →
  let p' := (Persist.loadData true a1 p).2 in
  (Persist.loadData true a1 p).1 = Ok () ∧
  Persist.mem p'
    = exec (loadData (Persist.stored_habits (Persist.storage p))
              (Persist.stored_completions (Persist.storage p)))
        (Persist.mem p) ∧
  Persist.in_storage p' ∧
  Persist.stored_habits (Persist.storage p') = Persist.stored_habits (Persist.storage p) ∧
  (a1 = true → Persist.migrated_storage p') ∧
  (a1 = false ∨ Persist.migrated_storage p → Persist.storage p' = Persist.storage p) ∧
  (a1 = true ∨ Persist.migrated_storage p → Persist.reported p' = Persist.reported p) ∧
  (a1 = false → ¬ Persist.migrated_storage p →
     Persist.reported p' = Persist.reported p ++ ["Failed to save completions"]) ∧
  Persist.loadData false a1 p
    = (Ok (), {| Persist.mem := Persist.mem p; Persist.storage := Persist.storage p;
                 Persist.reported := Persist.reported p ++ ["Failed to load data"] |}).
Proof.
  intros Hs p'.
  destruct (loadData_loaded p a1 Hs) as ((H1 & H2 & H3) & H4 & H5 & H6 & H7 & H8).
  done.
Qed.

Lemma loadData_saves_the_migration_witness :
  Persist.migrated_storage
    (Persist.loadData true true
       {| Persist.mem := initial;
          Persist.storage :=
            {| Persist.stored_habits := None;
               Persist.stored_completions :=
                 VObj [("h1", VArr [VStr "2024-01-01"] [])] |};
          Persist.reported := [] |}).2.
Proof.
  apply (loadData_saves_the_migration
    {| Persist.mem := initial;
       Persist.storage :=
         {| Persist.stored_habits := None;
            Persist.stored_completions := VObj [("h1", VArr [VStr "2024-01-01"] [])] |};
       Persist.reported := [] |}
    true); [|done].
  right. eexists. split; [reflexivity|]. split.
  - repeat constructor. by apply not_elem_of_nil.
  - constructor; [by right|constructor].
Defined.
